(** * AllSeeing_AllSpeaking_Skull: the WAV container reader and the streaming
      sample cache

    A shallow embedding of [WavLoader] (WavLoader.h and the implementation
    that follows the timer code in Timer.h) and of [AudioSamplerStream]
    (AudioStream.h), with the properties of the cache and of the reader that
    the specification states.

    Integer model.  The arithmetic is that of the host build (USE_POSIX,
    LP64): [int] and [unsigned int] have 32 bits, [long] and [size_t] have
    64 bits.  Unsigned results wrap, conversions to a signed type wrap in
    two's complement.  A division by zero, a call through a null
    [FileWrapper*] and the end of a value-returning function reached without
    a [return] are undefined behaviour in C++; the embedding reports them as
    the outcomes [DivByZero], [NullDeref] and [NoReturn]. *)

From Stdlib Require Import ZArith List Lia Bool Classical.
From Stdlib Require Import Strings.Byte.
From stdpp Require Import base list.

Local Open Scope Z_scope.

(** ** Machine integers *)

Definition wrap (bits z : Z) : Z := z mod 2 ^ bits.
Definition swrap (bits z : Z) : Z :=
  (z + 2 ^ (bits - 1)) mod 2 ^ bits - 2 ^ (bits - 1).

Definition u32 : Z -> Z := wrap 32.      (* uint32_t, unsigned int *)
Definition usize : Z -> Z := wrap 64.    (* size_t *)
Definition to_int : Z -> Z := swrap 32.  (* int *)
Definition to_long : Z -> Z := swrap 64. (* long *)

Definition INT_MAX : Z := 2147483647.

(** ** Bytes, little-endian fields and buffers *)

Definition byte_val (b : byte) : Z := Z.of_N (Byte.to_N b).

Definition byte_of (z : Z) : byte :=
  match Byte.of_N (Z.to_N (z mod 256)) with
  | Some b => b
  | None => "000"%byte
  end.

Fixpoint le_decode (bs : list byte) : Z :=
  match bs with
  | [] => 0
  | b :: rest => byte_val b + 256 * le_decode rest
  end.

Fixpoint le_encode (n : nat) (z : Z) : list byte :=
  match n with
  | O => []
  | S k => byte_of z :: le_encode k (z / 256)
  end.

(** [sub off len buf]: the [len] bytes of [buf] from offset [off]. *)
Definition sub (off len : nat) (buf : list byte) : list byte :=
  take len (drop off buf).

(** [memcpy_into buf off src]: [buf] after [src] was copied to offset [off];
    the buffer keeps its size. *)
Definition memcpy_into (buf : list byte) (off : Z) (src : list byte) : list byte :=
  let o := Z.to_nat off in
  take o buf ++ take (length buf - o) src ++ drop (o + length src) buf.

Definition nbytes (l : list byte) : Z := Z.of_nat (length l).

(** [memcmp] of two tags *)
Fixpoint bytes_eqb (a b : list byte) : bool :=
  match a, b with
  | [], [] => true
  | x :: a', y :: b' => Byte.eqb x y && bytes_eqb a' b'
  | _, _ => false
  end.

(** ** Outcomes of a call *)

Inductive outcome (A : Type) : Type :=
| Ok (a : A)
| DivByZero
| NullDeref
| NoReturn
| OutOfFuel.
Arguments Ok {A} a.
Arguments DivByZero {A}.
Arguments NullDeref {A}.
Arguments NoReturn {A}.
Arguments OutOfFuel {A}.

Definition obind {A B} (m : outcome A) (k : A -> outcome B) : outcome B :=
  match m with
  | Ok a => k a
  | DivByZero => DivByZero
  | NullDeref => NullDeref
  | NoReturn => NoReturn
  | OutOfFuel => OutOfFuel
  end.

Notation "'let*' p := m 'in' k" := (obind m (fun p => k))
  (at level 10, p pattern, m at level 100, k at level 200).

(** ** The storage interface ([FileWrapper])

    The abstract class of WavLoader.h, as a state machine over the states
    [F] of the storage object.  [fw_read n f] gives the bytes transferred
    into the caller's buffer; their number is the return value of
    [FileWrapper::read], and never exceeds the request. *)

Class FileWrapper (F : Type) := {
  fw_open : F -> bool * F;
  fw_close : F -> F;
  fw_seek : Z -> F -> bool * F;
  fw_read : Z -> F -> list byte * F;
  fw_position : F -> Z;
  fw_read_le : forall n f, nbytes (fw_read n f).1 <= Z.max 0 n
}.

(** A [FileWrapper*]: null, or the address of the storage object.  The
    object itself is threaded through the calls as a state [f : F]. *)
Inductive FileWrapperPtr : Type := nullptr | wrapper_ptr.

Definition is_null (p : FileWrapperPtr) : bool :=
  match p with nullptr => true | wrapper_ptr => false end.

(** ** Loops with an early exit

    [for_range body p lo s] runs [body lo], [body (lo+1)], ... ([p] times)
    from state [s]; a body that answers [inr r] leaves the loop with [r].
    The recursion follows the binary digits of the trip count, so that a
    loop that leaves early evaluates in few steps whatever its bound. *)

Fixpoint for_range {S R : Type} (body : Z -> S -> S + R)
         (p : positive) (lo : Z) (s : S) : S + R :=
  match p with
  | xH => body lo s
  | xO q =>
      match for_range body q lo s with
      | inl s1 => for_range body q (lo + Zpos q) s1
      | inr r => inr r
      end
  | xI q =>
      match body lo s with
      | inl s1 =>
          match for_range body q (lo + 1) s1 with
          | inl s2 => for_range body q (lo + 1 + Zpos q) s2
          | inr r => inr r
          end
      | inr r => inr r
      end
  end.

(** [for (i = lo; i < hi; i++) body] *)
Definition for_loop {S R : Type} (body : Z -> S -> S + R)
           (lo hi : Z) (s : S) : S + R :=
  match hi - lo with
  | Zpos p => for_range body p lo s
  | _ => inl s
  end.

(** The same loop by unary recursion, used to reason about [for_range]. *)
Fixpoint for_nat {S R : Type} (body : Z -> S -> S + R)
         (n : nat) (lo : Z) (s : S) : S + R :=
  match n with
  | O => inl s
  | S k =>
      match body lo s with
      | inl s1 => for_nat body k (lo + 1) s1
      | inr r => inr r
      end
  end.

(** ** WavLoader *)

Module WavLoader.

Definition RIFF_TAG : list byte := ["R"; "I"; "F"; "F"]%byte.
Definition WAVE_TAG : list byte := ["W"; "A"; "V"; "E"]%byte.
Definition FMT_TAG : list byte := ["f"; "m"; "t"; " "]%byte.
Definition DATA_TAG : list byte := ["d"; "a"; "t"; "a"]%byte.

(** sizeof(RIFFChunkHeader), sizeof(chunk_tag_t), sizeof(WavFormat) *)
Definition sizeof_header : Z := 8.
Definition sizeof_tag : Z := 4.
Definition sizeof_format : Z := 16.

(** [_format] is the packed struct [WavFormat], kept as its 16 bytes;
    [_file] is the [FileWrapper*]. *)
Record t := mk {
  _format : list byte;
  _file : FileWrapperPtr;
  _position : Z;
  _length : Z;
  _data_offset : Z;
  _file_size : Z
}.

(** The constructor zeroes everything but [_position], which it leaves
    indeterminate. *)
Definition construct (indeterminate_position : Z) : t :=
  {| _format := replicate 16 "000"%byte;
     _file := nullptr;
     _position := indeterminate_position;
     _length := 0;
     _data_offset := 0;
     _file_size := 0 |}.

Definition audio_format (w : t) : Z := le_decode (sub 0 2 (_format w)).
Definition numChannels (w : t) : Z := le_decode (sub 2 2 (_format w)).
Definition sampleRate (w : t) : Z := le_decode (sub 4 4 (_format w)).
Definition data_rate (w : t) : Z := le_decode (sub 8 4 (_format w)).
Definition frameAlignment (w : t) : Z := le_decode (sub 12 2 (_format w)).
Definition bitsPerSample (w : t) : Z := le_decode (sub 14 2 (_format w)).
Definition numSamples (w : t) : Z := _length w.
Definition fileSize (w : t) : Z := _file_size w.

Definition set_file (b : FileWrapperPtr) (w : t) : t :=
  mk (_format w) b (_position w) (_length w) (_data_offset w) (_file_size w).
Definition set_position (p : Z) (w : t) : t :=
  mk (_format w) (_file w) p (_length w) (_data_offset w) (_file_size w).
Definition set_file_size (n : Z) (w : t) : t :=
  mk (_format w) (_file w) (_position w) (_length w) (_data_offset w) n.
Definition set_format (fm : list byte) (w : t) : t :=
  mk fm (_file w) (_position w) (_length w) (_data_offset w) (_file_size w).
Definition set_data (len off : Z) (w : t) : t :=
  mk (_format w) (_file w) (_position w) len off (_file_size w).

(** A chunk header as read from storage: tag and little-endian size. *)
Definition chunk_tag (hdr : list byte) : list byte := sub 0 4 hdr.
Definition chunk_size (hdr : list byte) : Z := le_decode (sub 4 4 hdr).

Definition MIN (a b : Z) : Z := if a <? b then a else b.
Definition MAX (a b : Z) : Z := if a >=? b then a else b.

Definition filePositionForSample (w : t) (sample_pos : Z) : Z :=
  let clippedSamplePos := MIN sample_pos (numSamples w) in
  u32 (_data_offset w + clippedSamplePos * frameAlignment w).

Definition position (w : t) : Z := _position w.

Section Storage.
Context {F : Type} `{FileWrapper F}.

(** What one pass through the body of the chunk loop of [open] does. *)
Inductive chunk_step : Type :=
| Failed (w : t) (f : F)      (* close the file, return false *)
| Finished (w : t) (f : F)    (* break *)
| Continue (w : t) (f : F).   (* next chunk *)

Definition scan_chunk (w : t) (f : F) : outcome chunk_step :=
  let '(header, f) := fw_read sizeof_header f in
  if negb (nbytes header =? sizeof_header) then Ok (Failed w (fw_close f))
  else
    let pos := fw_position f in
    let next_chunk_pos := to_long (pos + chunk_size header) in
    let* r :=
      (if bytes_eqb (chunk_tag header) FMT_TAG then
         let '(payload, f) := fw_read sizeof_format f in
         let w := set_format (memcpy_into (_format w) 0 payload) w in
         if negb (nbytes payload =? sizeof_format)
         then Ok (Failed w (fw_close f))
         else Ok (Continue w f)
       else if bytes_eqb (chunk_tag header) DATA_TAG then
         if frameAlignment w =? 0 then DivByZero
         else Ok (Continue
                    (set_data (chunk_size header / frameAlignment w)
                              (u32 pos) w) f)
       else Ok (Continue w f)) in
    match r with
    | Continue w f =>
        if _file_size w <=? next_chunk_pos then Ok (Finished w f)
        else
          let '(ok, f) := fw_seek (usize next_chunk_pos) f in
          if ok then Ok (Continue w f) else Ok (Failed w (fw_close f))
    | other => Ok other
    end.

(** The [for (;;)] loop of [open]; [fuel] bounds the number of chunks
    visited. *)
Fixpoint scan_chunks (fuel : nat) (w : t) (f : F) : outcome (bool * t * F) :=
  match fuel with
  | O => OutOfFuel
  | S k =>
      let* r := scan_chunk w f in
      match r with
      | Failed w f => Ok (false, w, f)
      | Finished w f => Ok (true, w, f)
      | Continue w f => scan_chunks k w f
      end
  end.

Definition open (fuel : nat) (w : t) (wrapper : FileWrapperPtr) (f : F)
  : outcome (bool * t * F) :=
  if is_null wrapper then Ok (false, w, f)
  else
    let w := set_file wrapper w in
    let '(didOpen, f) := fw_open f in
    if negb didOpen then Ok (false, set_file nullptr w, f)
    else
      let '(ok, f) := fw_seek 0 f in
      if negb ok then Ok (false, set_file nullptr w, f)
      else
        let '(header, f) := fw_read sizeof_header f in
        let numRead := nbytes header in
        if negb (numRead =? sizeof_header) then Ok (false, w, fw_close f)
        else if negb (bytes_eqb (chunk_tag header) RIFF_TAG)
        then Ok (false, w, fw_close f)
        else
          let w := set_file_size (u32 (numRead + chunk_size header)) w in
          let '(format_tag, f) := fw_read sizeof_tag f in
          if negb (nbytes format_tag =? sizeof_tag)
          then Ok (false, w, fw_close f)
          else if negb (bytes_eqb format_tag WAVE_TAG)
          then Ok (false, w, fw_close f)
          else
            let* (ok, w, f) := scan_chunks fuel w f in
            if ok then Ok (true, set_position 0 w, f)
            else Ok (false, w, f).

Definition seek (w : t) (position : Z) (f : F) : outcome (bool * t * F) :=
  let w := set_position (filePositionForSample w position) w in
  if is_null (_file w) then NullDeref
  else let '(ok, f) := fw_seek (_position w) f in Ok (ok, w, f).

(** Returns the count reported and the bytes put into the buffer. *)
Definition read (w : t) (bufSize : Z) (f : F) : outcome (Z * list byte * F) :=
  if is_null (_file w) then NullDeref
  else let '(data, f) := fw_read bufSize f in Ok (u32 (nbytes data), data, f).

Definition close (w : t) (f : F) : F :=
  if is_null (_file w) then f else fw_close f.

End Storage.

Arguments chunk_step F : clear implicits.

Definition loader_of {F : Type} (r : chunk_step F) : t :=
  match r with Failed w _ | Finished w _ | Continue w _ => w end.

End WavLoader.

(** ** A storage object over a file held in memory

    [PosixFileWrapper] over a file whose content is [bytes]: [opened] tells
    whether its [FILE*] is non-null, [pos] is the position of the stream. *)

Module MemFile.

Record t := mk {
  bytes : list byte;
  pos : Z;
  opened : bool
}.

Definition of_bytes (content : list byte) : t := mk content 0 false.

Definition open (f : t) : bool * t := (true, mk (bytes f) 0 true).

Definition close (f : t) : t := mk (bytes f) (pos f) false.

Definition seek (p : Z) (f : t) : bool * t :=
  if opened f then (true, mk (bytes f) p true) else (false, f).

Definition read (n : Z) (f : t) : list byte * t :=
  if opened f then
    let data := sub (Z.to_nat (pos f)) (Z.to_nat n) (bytes f) in
    (data, mk (bytes f) (pos f + nbytes data) true)
  else ([], f).

Definition position (f : t) : Z := if opened f then pos f else -1.

#[global] Program Instance file_wrapper : FileWrapper t :=
  {| fw_open := open; fw_close := close; fw_seek := seek;
     fw_read := read; fw_position := position |}.
Next Obligation.
  intros n f. unfold read, nbytes, sub.
  destruct (opened f); simpl; [rewrite length_take|]; lia.
Qed.

End MemFile.

(** ** Containers in the layout of [SimpleWavHeader] *)

Record WavFormat := {
  audio_format : Z;
  num_channels : Z;
  sample_rate : Z;
  data_rate : Z;
  block_align : Z;
  bits_per_sample : Z
}.

Definition format_bytes (fm : WavFormat) : list byte :=
  le_encode 2 (audio_format fm) ++ le_encode 2 (num_channels fm) ++
  le_encode 4 (sample_rate fm) ++ le_encode 4 (data_rate fm) ++
  le_encode 2 (block_align fm) ++ le_encode 2 (bits_per_sample fm).

(** The 44 bytes of a [SimpleWavHeader] whose data chunk declares
    [dataSize] bytes. *)
Definition SimpleWavHeader (fm : WavFormat) (dataSize : Z) : list byte :=
  WavLoader.RIFF_TAG ++ le_encode 4 (36 + dataSize) ++ WavLoader.WAVE_TAG ++
  WavLoader.FMT_TAG ++ le_encode 4 16 ++ format_bytes fm ++
  WavLoader.DATA_TAG ++ le_encode 4 dataSize.

(** A container whose data chunk comes before its format chunk. *)
Definition data_first_container (fm : WavFormat) (payload : list byte) : list byte :=
  WavLoader.RIFF_TAG ++ le_encode 4 (36 + nbytes payload) ++ WavLoader.WAVE_TAG ++
  WavLoader.DATA_TAG ++ le_encode 4 (nbytes payload) ++ payload ++
  WavLoader.FMT_TAG ++ le_encode 4 16 ++ format_bytes fm.

Definition pcm (channels rate bytes_per_sample : Z) : WavFormat :=
  {| audio_format := 1;
     num_channels := channels;
     sample_rate := rate;
     data_rate := rate * channels * bytes_per_sample;
     block_align := channels * bytes_per_sample;
     bits_per_sample := 8 * bytes_per_sample |}.

(** ** AudioSamplerStream *)

Module AudioSamplerStream.

Inductive AudioSamplerError : Type := NoErr | BadFile | BadSampleSize.

Definition BlockSize : Z := 4096.
Definition NumBlocks : nat := 3.
Definition UnmappedBlock : Z := INT_MAX.

(** A [SampleType*] into one of the two buffers, as an offset in samples. *)
Inductive SamplePtr : Type :=
| Indeterminate
| IntroBuf (off : Z)
| RingBuf (off : Z).

(** [_introBuf] and [_ringBuf] are kept as bytes, [_bufBlockMap] as the
    values of its [NumBlocks] unsigned ints. *)
Record t := mk {
  _readHead : SamplePtr;
  _sampleIdx : Z;
  _file : WavLoader.t;
  _introBufSize : Z;
  _introBuf : list byte;
  _ringBuf : list byte;
  _bufBlockMap : list Z
}.

Definition set_readHead (p : SamplePtr) (s : t) : t :=
  mk p (_sampleIdx s) (_file s) (_introBufSize s) (_introBuf s) (_ringBuf s)
     (_bufBlockMap s).
Definition set_sampleIdx (i : Z) (s : t) : t :=
  mk (_readHead s) i (_file s) (_introBufSize s) (_introBuf s) (_ringBuf s)
     (_bufBlockMap s).
Definition set_file (w : WavLoader.t) (s : t) : t :=
  mk (_readHead s) (_sampleIdx s) w (_introBufSize s) (_introBuf s) (_ringBuf s)
     (_bufBlockMap s).
Definition set_introBufSize (n : Z) (s : t) : t :=
  mk (_readHead s) (_sampleIdx s) (_file s) n (_introBuf s) (_ringBuf s)
     (_bufBlockMap s).
Definition set_introBuf (b : list byte) (s : t) : t :=
  mk (_readHead s) (_sampleIdx s) (_file s) (_introBufSize s) b (_ringBuf s)
     (_bufBlockMap s).
Definition set_ringBuf (b : list byte) (s : t) : t :=
  mk (_readHead s) (_sampleIdx s) (_file s) (_introBufSize s) (_introBuf s) b
     (_bufBlockMap s).
Definition set_bufBlockMap (m : list Z) (s : t) : t :=
  mk (_readHead s) (_sampleIdx s) (_file s) (_introBufSize s) (_introBuf s)
     (_ringBuf s) m.

(** The constructor initialises [_file] and [_introBufSize]; the other
    members keep whatever the storage of the object held. *)
Definition construct (indeterminate : t) : t :=
  set_introBufSize 0
    (set_file (WavLoader.construct (WavLoader._position (_file indeterminate)))
              indeterminate).

Definition sample_rate (s : t) : Z := WavLoader.sampleRate (_file s).
Definition num_channels (s : t) : Z := WavLoader.numChannels (_file s).
Definition sample_index (s : t) : Z := _sampleIdx s.
Definition sampleIndex (s : t) : Z := _sampleIdx s.

(** The statements of the body of [set_sample_index]. *)
Definition set_sample_index_body (sampleIndex : Z) (s : t) : t :=
  if sampleIndex <? WavLoader.numSamples (_file s)
  then set_sampleIdx sampleIndex s
  else s.

(** [set_sample_index] is declared [bool] and its body ends without a
    [return] statement: every call runs the statements of the body and then
    flows off the end of a value-returning function, which is undefined
    behaviour.  The call has no result. *)
Definition set_sample_index (sampleIndex : Z) (s : t) : outcome (bool * t) :=
  let s := set_sample_index_body sampleIndex s in
  NoReturn.

Definition setSampleIndex (sampleIdx : Z) (s : t) : t :=
  set_sampleIdx (Z.min sampleIdx (WavLoader.numSamples (_file s))) s.

Definition reset (s : t) : t := setSampleIndex 0 s.

Definition atEOF (s : t) : bool :=
  _sampleIdx s >=? WavLoader.numSamples (_file s).

(** [scan_slots p i n m]: the first slot among [i], [i+1], ... ([n] of
    them) whose entry satisfies [p]. *)
Fixpoint scan_slots (p : Z -> bool) (i n : nat) (m : list Z) : option nat :=
  match n with
  | O => None
  | S k => if p (m !!! i) then Some i else scan_slots p (S i) k m
  end.

(** The loop that finds the slot furthest from the read head, from slot
    [i] on, [n] slots to go. *)
Fixpoint furthest_from (readHeadBlock : Z) (m : list Z)
         (n i idx : nat) (maxDiff : Z) : nat * Z :=
  match n with
  | O => (idx, maxDiff)
  | S k =>
      let thisDiff := Z.abs (to_long (m !!! i - readHeadBlock)) in
      if thisDiff >? maxDiff
      then furthest_from readHeadBlock m k (S i) i thisDiff
      else furthest_from readHeadBlock m k (S i) idx maxDiff
  end.

Definition furthest (readHeadBlock : Z) (m : list Z) : nat * Z :=
  furthest_from readHeadBlock m (NumBlocks - 1) 1 0
                (Z.abs (to_long (m !!! 0%nat - readHeadBlock))).

Section Sampler.
Context {F : Type} `{FileWrapper F}.

(** [sizeof(SampleType)], the template parameter. *)
Variable sizeof_SampleType : Z.

Definition SamplesPerBlock : Z := BlockSize / sizeof_SampleType.
Definition IntroBufCapacity : Z := (BlockSize * 2) / sizeof_SampleType.
Definition CacheBufSize : Z := (BlockSize * Z.of_nat NumBlocks) / sizeof_SampleType.

(** The bytes of [n] samples from sample offset [off] of a buffer. *)
Definition samples_at (buf : list byte) (off n : Z) : list byte :=
  sub (Z.to_nat (off * sizeof_SampleType)) (Z.to_nat (n * sizeof_SampleType)) buf.

(** The local [introBufSize] of [loadIntroBuffer]: the size in bytes of
    the lead-in for a data chunk that starts at byte [fileOffset]. *)
Definition introBufBytes (fileOffset : Z) : Z :=
  if fileOffset <? BlockSize then
    usize (usize (BlockSize - fileOffset) + BlockSize)
  else if negb (fileOffset mod BlockSize =? 0) then
    usize (usize (usize (usize (fileOffset / BlockSize * BlockSize)
                         + BlockSize) - fileOffset) + BlockSize)
  else usize (IntroBufCapacity * sizeof_SampleType).

Definition loadIntroBuffer (s : t) (f : F) : outcome (AudioSamplerError * t * F) :=
  let* (_, w, f) := WavLoader.seek (_file s) 0 f in
  let s := set_file w s in
  let fileOffset := WavLoader.filePositionForSample w 0 in
  let introBufSize := introBufBytes fileOffset in
  let* (numRead, data, f) := WavLoader.read w (u32 introBufSize) f in
  let s := set_introBuf (memcpy_into (_introBuf s) 0 data) s in
  if numRead >? 0
  then Ok (NoErr, set_introBufSize (numRead / sizeof_SampleType) s, f)
  else Ok (BadFile, s, f).

Definition load (fuel : nat) (s : t) (file : FileWrapperPtr) (f : F)
  : outcome (AudioSamplerError * t * F) :=
  let* (ok, w, f) := WavLoader.open fuel (_file s) file f in
  let s := set_file w s in
  if ok then
    if negb (WavLoader.bitsPerSample w =? sizeof_SampleType * 8)
    then Ok (BadSampleSize, s, f)
    else
      let* (_, s, f) := loadIntroBuffer s f in
      let s := set_readHead (IntroBuf 0) s in
      let s := set_sampleIdx 0 s in
      let s := set_bufBlockMap (replicate NumBlocks UnmappedBlock) s in
      Ok (NoErr, s, f)
  else Ok (BadFile, s, f).

(** The state of a [read] in progress: the stream, [numSamplesLeft] and
    the bytes copied to [buf] so far. *)
Definition reading : Type := t * Z * list byte.

(** The part of [read] served by the intro buffer. *)
Definition read_intro (s : t) (numSamples : Z) : reading :=
  if _sampleIdx s <? _introBufSize s then
    let to_read :=
      if _sampleIdx s + numSamples >? _introBufSize s
      then u32 (usize (_introBufSize s - _sampleIdx s))
      else numSamples in
    let out := samples_at (_introBuf s) (_sampleIdx s) to_read in
    let s := set_readHead (IntroBuf (_sampleIdx s + to_read)) s in
    let s := set_sampleIdx (u32 (_sampleIdx s + to_read)) s in
    (s, u32 (numSamples - to_read), out)
  else (s, numSamples, []).

(** The slot that the cache loop of [read] finds for [fileBlock]. *)
Definition find_block (m : list Z) (fileBlock : Z) : option nat :=
  scan_slots (fun block => to_int block =? fileBlock) 0 NumBlocks m.

(** One pass through the cache loop of [read]: [None] when the block
    wanted is not in the cache. *)
Definition read_block (r : reading) : option reading :=
  let '(s, numSamplesLeft, out) := r in
  let fileBlock :=
    to_int (usize (_sampleIdx s - _introBufSize s) / SamplesPerBlock) in
  let fileBlockOffset :=
    to_int (usize (_sampleIdx s - _introBufSize s) mod SamplesPerBlock) in
  match find_block (_bufBlockMap s) fileBlock with
  | None => None
  | Some ringBufBlock =>
      let readHead := Z.of_nat ringBufBlock * SamplesPerBlock + fileBlockOffset in
      let nextBlockStart := (Z.of_nat ringBufBlock + 1) * SamplesPerBlock in
      let to_read :=
        if nextBlockStart - readHead <=? numSamplesLeft
        then u32 (nextBlockStart - readHead)
        else numSamplesLeft in
      let out := out ++ samples_at (_ringBuf s) readHead to_read in
      let s := set_readHead (RingBuf (readHead + to_read)) s in
      let s := set_sampleIdx (u32 (_sampleIdx s + to_read)) s in
      Some (s, u32 (numSamplesLeft - to_read), out)
  end.

(** [while (numSamplesLeft > 0)]; every pass that does not leave the
    loop copies at least one sample, so [numSamplesLeft] passes are
    enough. *)
Fixpoint read_cache (fuel : nat) (r : reading) : reading :=
  match fuel with
  | O => r
  | S k =>
      if r.1.2 >? 0 then
        match read_block r with
        | None => r
        | Some r' => read_cache k r'
        end
      else r
  end.

(** Returns the count delivered, the bytes copied to [buf] and the
    stream. *)
Definition read (s : t) (numSamples : Z) : Z * list byte * t :=
  let '(s, numSamplesLeft, out) :=
    read_cache (Z.to_nat numSamples) (read_intro s numSamples) in
  (to_int (u32 (numSamples - numSamplesLeft)), out, s).

Definition readHeadBlock (s : t) : Z :=
  if _sampleIdx s >=? _introBufSize s
  then to_long (usize (_sampleIdx s - _introBufSize s) / SamplesPerBlock)
  else 0.

(** What one pass through the body of the look-ahead/look-behind loop of
    [prime] does with the candidate [block]. *)
Inductive attempt : Type :=
| Filled (s : t) (f : F)      (* return true *)
| LeaveSigns (s : t) (f : F)  (* break *)
| NextSign (s : t) (f : F).   (* fall through to the next sign *)

Definition block_mapped (m : list Z) (block : Z) : bool :=
  match scan_slots (fun entry => entry =? block) 0 NumBlocks m with
  | Some _ => true
  | None => false
  end.

Definition try_block (idx : nat) (block : Z) (s : t) (f : F) : outcome attempt :=
  if block <? 0 then Ok (LeaveSigns s f)
  else if usize (block * SamplesPerBlock)
          >? usize (WavLoader.numSamples (_file s) - _introBufSize s)
  then Ok (LeaveSigns s f)
  else
    let block := if block_mapped (_bufBlockMap s) block then -1 else block in
    if block >=? 0 then
      let* (ok, w, f) :=
        WavLoader.seek (_file s)
          (u32 (usize (block * SamplesPerBlock + _introBufSize s))) f in
      let s := set_file w s in
      if negb ok then Ok (LeaveSigns s f)
      else
        let* (numRead, data, f) := WavLoader.read w BlockSize f in
        let s := set_ringBuf
                   (memcpy_into (_ringBuf s)
                      (Z.of_nat idx * SamplesPerBlock * sizeof_SampleType) data) s in
        if numRead >? 0
        then Ok (Filled (set_bufBlockMap (<[idx := u32 block]> (_bufBlockMap s)) s) f)
        else Ok (NextSign s f)
    else Ok (NextSign s f).

(** The loop over [sign] at one distance: ahead, then behind.  [inl] goes
    on to the next distance, [inr] leaves [prime]. *)
Definition try_distance (idx : nat) (readHeadBlock : Z) (absDiff : Z)
           (st : t * F) : (t * F) + outcome (t * F) :=
  let offset := absDiff in
  match try_block idx (readHeadBlock + offset) st.1 st.2 with
  | Ok (Filled s f) => inr (Ok (s, f))
  | Ok (LeaveSigns s f) => inl (s, f)
  | Ok (NextSign s f) =>
      let offset := - offset in
      match try_block idx (readHeadBlock + offset) s f with
      | Ok (Filled s f) => inr (Ok (s, f))
      | Ok (LeaveSigns s f) => inl (s, f)
      | Ok (NextSign s f) => inl (s, f)
      | DivByZero => inr DivByZero
      | NullDeref => inr NullDeref
      | NoReturn => inr NoReturn
      | OutOfFuel => inr OutOfFuel
      end
  | DivByZero => inr DivByZero
  | NullDeref => inr NullDeref
  | NoReturn => inr NoReturn
  | OutOfFuel => inr OutOfFuel
  end.

(** The counter [absDiff] of the distance loop is an [int] in the source;
    on a loaded stream [maxDiff] is at most [INT_MAX] and the counter stays
    in range. *)
Definition prime (s : t) (f : F) : outcome (bool * t * F) :=
  let readHeadBlock := readHeadBlock s in
  let '(idx, maxDiff) := furthest readHeadBlock (_bufBlockMap s) in
  if maxDiff >? 0 then
    match for_loop (try_distance idx readHeadBlock) 0 maxDiff (s, f) with
    | inl (s, f) => Ok (false, s, f)
    | inr r => let* (s, f) := r in Ok (true, s, f)
    end
  else Ok (false, s, f).

(** The calls a driver makes on a loaded stream.  The arguments are
    [uint32_t] and [unsigned int] parameters: a call converts them.
    [set_sample_index] is not among them: a call of it has no defined
    behaviour. *)
Inductive call : Type :=
| Prime
| Read (numSamples : Z)
| SetSampleIndex (sampleIdx : Z)
| Reset.

Definition do_call (c : call) (s : t) (f : F) : outcome (t * F) :=
  match c with
  | Prime => let* (_, s, f) := prime s f in Ok (s, f)
  | Read n => Ok ((read s (u32 n)).2, f)
  | SetSampleIndex i => Ok (setSampleIndex (u32 i) s, f)
  | Reset => Ok (reset s, f)
  end.

Fixpoint run (calls : list call) (s : t) (f : F) : outcome (t * F) :=
  match calls with
  | [] => Ok (s, f)
  | c :: rest => let* (s, f) := do_call c s f in run rest s f
  end.

(** The stream and the storage after [n] calls of [prime], and what the
    call after them answers. *)
Fixpoint primes (n : nat) (s : t) (f : F) : outcome (t * F) :=
  match n with
  | O => Ok (s, f)
  | S k => let* (_, s, f) := prime s f in primes k s f
  end.

Definition prime_after (n : nat) (s : t) (f : F) : outcome (bool * t * F) :=
  let* (s, f) := primes n s f in prime s f.

End Sampler.

Arguments attempt F : clear implicits.

(** No two occupied slots of the block map hold the same file block. *)
Definition distinct_blocks (m : list Z) : Prop :=
  forall i j : nat,
    (i < NumBlocks)%nat -> (j < NumBlocks)%nat -> i <> j ->
    m !!! i = m !!! j -> m !!! i = UnmappedBlock.

(** The members of a stream hold values of their C++ types. *)
Record typed (s : t) : Prop := {
  typed_sampleIdx : 0 <= _sampleIdx s < 2 ^ 32;
  typed_introBufSize : 0 <= _introBufSize s < 2 ^ 64;
  typed_length : 0 <= WavLoader._length (_file s) < 2 ^ 32
}.

(** What holds of a stream from a successful [load] on: the storage is
    bound, and the block map has [NumBlocks] entries, each a block index
    or [UnmappedBlock]. *)
Record loaded (s : t) : Prop := {
  loaded_typed : typed s;
  loaded_file : WavLoader._file (_file s) = wrapper_ptr;
  loaded_map_length : length (_bufBlockMap s) = NumBlocks;
  loaded_map_range : forall i : nat,
      (i < NumBlocks)%nat -> 0 <= _bufBlockMap s !!! i <= INT_MAX
}.

(** What the cache logic reads of a stream besides the block map. *)
Definition cache_view (s : t) : Z * Z * Z * FileWrapperPtr :=
  (_sampleIdx s, _introBufSize s, WavLoader._length (_file s),
   WavLoader._file (_file s)).

(** The distances of the entries of the block map from the read head,
    added up; an unmapped slot counts with the distance of its sentinel. *)
Definition spread (readHeadBlock : Z) (m : list Z) : Z :=
  foldr Z.add 0 ((fun entry => Z.abs (to_long (entry - readHeadBlock))) <$> m).

End AudioSamplerStream.

(** ** A storage object whose reads can come back empty

    A file in memory behind a device that transfers nothing on some of the
    reads: the read calls are numbered from 0 in the order they are made, and
    those listed in [empty_reads] return 0 bytes.  [reads] and [seeks] count
    the calls made. *)

Module FlakyFile.

Record t := mk {
  base : MemFile.t;
  reads : nat;
  seeks : nat;
  empty_reads : list nat
}.

Definition of_bytes (content : list byte) (empty : list nat) : t :=
  mk (MemFile.of_bytes content) 0 0 empty.

Definition open (f : t) : bool * t :=
  let '(ok, b) := MemFile.open (base f) in
  (ok, mk b (reads f) (seeks f) (empty_reads f)).

Definition close (f : t) : t :=
  mk (MemFile.close (base f)) (reads f) (seeks f) (empty_reads f).

Definition seek (p : Z) (f : t) : bool * t :=
  let '(ok, b) := MemFile.seek p (base f) in
  (ok, mk b (reads f) (S (seeks f)) (empty_reads f)).

Definition read (n : Z) (f : t) : list byte * t :=
  if existsb (Nat.eqb (reads f)) (empty_reads f)
  then ([], mk (base f) (S (reads f)) (seeks f) (empty_reads f))
  else
    let '(data, b) := MemFile.read n (base f) in
    (data, mk b (S (reads f)) (seeks f) (empty_reads f)).

Definition position (f : t) : Z := MemFile.position (base f).

#[global] Program Instance file_wrapper : FileWrapper t :=
  {| fw_open := open; fw_close := close; fw_seek := seek;
     fw_read := read; fw_position := position |}.
Next Obligation.
  intros n f. unfold read.
  destruct (existsb _ _); simpl; [unfold nbytes; simpl; lia|].
  pose proof (fw_read_le n (base f)) as Hle. simpl in Hle.
  destruct (MemFile.read n (base f)); exact Hle.
Qed.

End FlakyFile.


(** ** The chunks that [open] visits

    The chunk headers that the chunk loop of [WavLoader::open] reads, each
    with the state of the loader when it was read: a record of the run,
    built from the same storage calls, in which the properties of [open]
    name "the data chunk" and "the frame size" of a container. *)

Section ChunkLog.
Context {F : Type} `{FileWrapper F}.

Fixpoint chunk_log (fuel : nat) (w : WavLoader.t) (f : F)
  : list (list byte * WavLoader.t) :=
  match fuel with
  | O => []
  | S k =>
      let hdr := (fw_read WavLoader.sizeof_header f).1 in
      if nbytes hdr =? WavLoader.sizeof_header then
        (hdr, w) ::
        match WavLoader.scan_chunk w f with
        | Ok (WavLoader.Continue w1 f1) => chunk_log k w1 f1
        | _ => []
        end
      else []
  end.

(** The storage and the loader when [open] enters its chunk loop. *)
Definition chunks_visited (fuel : nat) (w : WavLoader.t) (f : F)
  : list (list byte * WavLoader.t) :=
  let f := (fw_open f).2 in
  let f := (fw_seek 0 f).2 in
  let '(header, f) := fw_read WavLoader.sizeof_header f in
  let w := WavLoader.set_file_size
             (u32 (nbytes header + WavLoader.chunk_size header))
             (WavLoader.set_file wrapper_ptr w) in
  let f := (fw_read WavLoader.sizeof_tag f).2 in
  chunk_log fuel w f.

Definition is_data_chunk (c : list byte * WavLoader.t) : bool :=
  bytes_eqb (WavLoader.chunk_tag c.1) WavLoader.DATA_TAG.

(** The last [data] chunk visited: its header and the loader then. *)
Definition last_data_chunk (log : list (list byte * WavLoader.t))
  : option (list byte * WavLoader.t) :=
  last (filter (fun c => is_data_chunk c = true) log).

End ChunkLog.

(** ** Inputs used by the examples *)

(** A stream object as the constructor leaves it, over zeroed storage. *)
Definition blank_stream : AudioSamplerStream.t :=
  AudioSamplerStream.construct
    (AudioSamplerStream.mk AudioSamplerStream.Indeterminate 0
       (WavLoader.construct 0) 0
       (replicate (Z.to_nat 8192) "000"%byte)
       (replicate (Z.to_nat 12288) "000"%byte)
       [0; 0; 0]).

(** A mono container of [n] 8-bit samples, all of value 1. *)
Definition mono8 (n : Z) : list byte :=
  SimpleWavHeader (pcm 1 8000 1) n ++ replicate (Z.to_nat n) "001"%byte.

(** The stream of one-byte samples and the storage after [load] on the
    storage [f0]. *)
Definition after_load {F : Type} `{FileWrapper F} (f0 : F)
  : AudioSamplerStream.t * F :=
  match AudioSamplerStream.load 1 2 blank_stream wrapper_ptr f0 with
  | Ok (_, s, f) => (s, f)
  | _ => (blank_stream, f0)
  end.

Definition loaded_mono8 (n : Z) : AudioSamplerStream.t :=
  (after_load (MemFile.of_bytes (mono8 n))).1.

Definition storage_mono8 (n : Z) : MemFile.t :=
  (after_load (MemFile.of_bytes (mono8 n))).2.

(** A healthy storage that counts its calls, over a container whose data
    ends where the lead-in ends: 44 + 8148 bytes, two blocks of storage. *)
Definition at_block_boundary : AudioSamplerStream.t * FlakyFile.t :=
  after_load (FlakyFile.of_bytes (mono8 8148) []).

(** The same after the first pass of the distance loop of [prime]. *)
Definition after_distance_0 : AudioSamplerStream.t * FlakyFile.t :=
  match AudioSamplerStream.try_distance 1 0 0 0 at_block_boundary with
  | inl st => st
  | inr _ => at_block_boundary
  end.

(** A mono container of [n] 16-bit samples. *)
Definition mono16 (n : Z) : list byte :=
  SimpleWavHeader (pcm 1 8000 2) (2 * n) ++ replicate (Z.to_nat (2 * n)) "001"%byte.

(** ** Predicates of the cache *)

(** What [prime] keeps of a stream: it writes the position of the loader,
    the ring buffer, which keeps its size, and the block map. *)
Definition kept_by_prime (s s' : AudioSamplerStream.t) : Prop :=
  AudioSamplerStream._sampleIdx s' = AudioSamplerStream._sampleIdx s /\
  AudioSamplerStream._readHead s' = AudioSamplerStream._readHead s /\
  AudioSamplerStream._introBuf s' = AudioSamplerStream._introBuf s /\
  AudioSamplerStream._introBufSize s' = AudioSamplerStream._introBufSize s /\
  length (AudioSamplerStream._ringBuf s') = length (AudioSamplerStream._ringBuf s) /\
  exists p, AudioSamplerStream._file s'
            = WavLoader.set_position p (AudioSamplerStream._file s).

(** The byte at offset [i] of a buffer, if there is one. *)
Definition byte_at (buf : list byte) (i : Z) : option byte := buf !! Z.to_nat i.

(** A stream over a file in memory whose data chunk starts at byte 44 and
    holds [payload], in samples of [sz] bytes: the loader describes that
    chunk, the lead-in holds the first bytes of the payload, and every
    occupied slot of the ring buffer holds the bytes of the payload that
    belong to the block the block map names for it, as far as the payload
    goes. *)
Record in_sync (sz : Z) (payload : list byte)
       (s : AudioSamplerStream.t) (f : MemFile.t) : Prop := {
  sync_loaded : AudioSamplerStream.loaded s;
  sync_offset : WavLoader._data_offset (AudioSamplerStream._file s) = 44;
  sync_frame : WavLoader.frameAlignment (AudioSamplerStream._file s) = sz;
  sync_count :
    WavLoader.numSamples (AudioSamplerStream._file s) = nbytes payload / sz;
  sync_lead_count :
    AudioSamplerStream._introBufSize s
    <= WavLoader.numSamples (AudioSamplerStream._file s);
  sync_lead_in : forall k : Z,
      0 <= k < AudioSamplerStream._introBufSize s * sz ->
      byte_at (AudioSamplerStream._introBuf s) k = byte_at payload k;
  sync_ring_size :
    nbytes (AudioSamplerStream._ringBuf s) = AudioSamplerStream.BlockSize * 3;
  sync_ring : forall (j : nat) (k : Z),
      (j < AudioSamplerStream.NumBlocks)%nat ->
      0 <= k < AudioSamplerStream.BlockSize ->
      AudioSamplerStream._bufBlockMap s !!! j <> AudioSamplerStream.UnmappedBlock ->
      (AudioSamplerStream._bufBlockMap s !!! j
       * AudioSamplerStream.SamplesPerBlock sz
       + AudioSamplerStream._introBufSize s) * sz + k < nbytes payload ->
      byte_at (AudioSamplerStream._ringBuf s)
              (Z.of_nat j * AudioSamplerStream.BlockSize + k)
      = byte_at payload
          ((AudioSamplerStream._bufBlockMap s !!! j
            * AudioSamplerStream.SamplesPerBlock sz
            + AudioSamplerStream._introBufSize s) * sz + k);
  sync_bytes : drop 44 (MemFile.bytes f) = payload;
  sync_open : MemFile.opened f = true
}.

(** * Properties *)

(** ** Machine integers and little-endian fields *)

Lemma u32_small z : 0 <= z < 2 ^ 32 -> u32 z = z.
Proof. intros Hz. unfold u32, wrap. apply Z.mod_small. exact Hz. Qed.

Lemma u32_range z : 0 <= u32 z < 2 ^ 32.
Proof. unfold u32, wrap. apply Z.mod_pos_bound. lia. Qed.

Lemma usize_small z : 0 <= z < 2 ^ 64 -> usize z = z.
Proof. intros Hz. unfold usize, wrap. apply Z.mod_small. exact Hz. Qed.

Lemma usize_range z : 0 <= usize z < 2 ^ 64.
Proof. unfold usize, wrap. apply Z.mod_pos_bound. lia. Qed.

Lemma to_long_small z : - 2 ^ 63 <= z < 2 ^ 63 -> to_long z = z.
Proof.
  intros Hz. unfold to_long, swrap.
  change (2 ^ (64 - 1)) with (2 ^ 63). rewrite Z.mod_small; lia.
Qed.

Lemma to_int_small z : - 2 ^ 31 <= z < 2 ^ 31 -> to_int z = z.
Proof.
  intros Hz. unfold to_int, swrap.
  change (2 ^ (32 - 1)) with (2 ^ 31). rewrite Z.mod_small; lia.
Qed.

Lemma byte_val_range b : 0 <= byte_val b < 256.
Proof. destruct b; vm_compute; split; congruence. Qed.

Lemma byte_val_of z : byte_val (byte_of z) = z mod 256.
Proof.
  unfold byte_val, byte_of.
  assert (Hr : 0 <= z mod 256 < 256) by (apply Z.mod_pos_bound; lia).
  destruct (Byte.of_N (Z.to_N (z mod 256))) as [b|] eqn:E.
  - apply Byte.to_of_N in E. rewrite E. lia.
  - apply Byte.of_N_None_iff in E. lia.
Qed.

Lemma le_decode_encode n z :
  le_decode (le_encode n z) = z mod 256 ^ Z.of_nat n.
Proof.
  revert z. induction n as [|n IH]; intros z.
  - simpl. rewrite Z.mod_1_r. reflexivity.
  - cbn [le_encode le_decode]. rewrite byte_val_of, IH.
    rewrite Nat2Z.inj_succ, Z.pow_succ_r by lia.
    rewrite Z.rem_mul_r by lia. lia.
Qed.

Lemma le_decode_range bs : 0 <= le_decode bs < 256 ^ nbytes bs.
Proof.
  unfold nbytes. induction bs as [|b bs IH].
  - simpl. lia.
  - cbn [le_decode length]. rewrite Nat2Z.inj_succ, Z.pow_succ_r by lia.
    pose proof (byte_val_range b). lia.
Qed.

Lemma bytes_eqb_eq a b : bytes_eqb a b = true <-> a = b.
Proof.
  revert b. induction a as [|x a IH]; intros [|y b]; simpl; try easy.
  rewrite andb_true_iff, IH. split.
  - intros [Hxy ->]. apply Byte.byte_dec_bl in Hxy. congruence.
  - intros [= -> ->]. split; [now apply Byte.byte_dec_lb | reflexivity].
Qed.

(** ** Loops *)

Lemma for_nat_app {S R} (body : Z -> S -> S + R) n m lo s :
  for_nat body (n + m) lo s =
  match for_nat body n lo s with
  | inl s1 => for_nat body m (lo + Z.of_nat n) s1
  | inr r => inr r
  end.
Proof.
  revert lo s. induction n as [|n IH]; intros lo s.
  - simpl. f_equal. lia.
  - cbn [for_nat Nat.add]. destruct (body lo s) as [s1|r]; [|reflexivity].
    rewrite IH. destruct (for_nat body n (lo + 1) s1); [|reflexivity].
    f_equal. lia.
Qed.

Lemma for_range_nat {S R} (body : Z -> S -> S + R) p lo s :
  for_range body p lo s = for_nat body (Pos.to_nat p) lo s.
Proof.
  revert lo s. induction p as [q IH|q IH|]; intros lo s.
  - rewrite Pos2Nat.inj_xI. cbn [for_range for_nat].
    destruct (body lo s) as [s1|r]; [|reflexivity].
    replace (2 * Pos.to_nat q)%nat with (Pos.to_nat q + Pos.to_nat q)%nat by lia.
    rewrite for_nat_app, <- IH.
    destruct (for_range body q (lo + 1) s1) as [s2|r]; [|reflexivity].
    rewrite IH. f_equal. lia.
  - rewrite Pos2Nat.inj_xO. cbn [for_range].
    replace (2 * Pos.to_nat q)%nat with (Pos.to_nat q + Pos.to_nat q)%nat by lia.
    rewrite for_nat_app, <- IH.
    destruct (for_range body q lo s) as [s1|r]; [|reflexivity].
    rewrite IH. f_equal. lia.
  - simpl. destruct (body lo s); reflexivity.
Qed.

Lemma for_loop_nat {S R} (body : Z -> S -> S + R) lo hi s :
  for_loop body lo hi s = for_nat body (Z.to_nat (hi - lo)) lo s.
Proof.
  unfold for_loop. destruct (hi - lo) as [|p|p]; try reflexivity.
  rewrite for_range_nat. reflexivity.
Qed.

Lemma for_nat_S {S R} (body : Z -> S -> S + R) n lo (s : S) :
  for_nat body (Datatypes.S n) lo s =
  match body lo s with
  | inl s1 => for_nat body n (lo + 1) s1
  | inr r => inr r
  end.
Proof. reflexivity. Qed.

(** Passes that leave the state as it is leave the loop with that state. *)
Lemma for_nat_stationary {S R} (body : Z -> S -> S + R) n lo (st : S) :
  (forall i, lo <= i < lo + Z.of_nat n -> body i st = inl st) ->
  for_nat body n lo st = inl st.
Proof.
  revert lo. induction n as [|n IH]; intros lo Hall; [reflexivity|].
  rewrite for_nat_S, Hall by lia. apply IH. intros i Hi. apply Hall. lia.
Qed.

(** A loop keeps what every pass keeps; when it leaves early, it does so
    from a pass in range that started in a state of the invariant. *)
Lemma for_nat_inv {S R} (body : Z -> S -> S + R) (P : S -> Prop) n lo s :
  P s ->
  (forall i s0 s1, lo <= i < lo + Z.of_nat n -> P s0 -> body i s0 = inl s1 -> P s1) ->
  match for_nat body n lo s with
  | inl s1 => P s1
  | inr r => exists i s0, lo <= i < lo + Z.of_nat n /\ P s0 /\ body i s0 = inr r
  end.
Proof.
  revert lo s. induction n as [|n IH]; intros lo s HP Hstep.
  - exact HP.
  - cbn [for_nat]. destruct (body lo s) as [s1|r] eqn:E.
    + assert (HP1 : P s1) by (apply (Hstep lo s s1); [lia | exact HP | exact E]).
      specialize (IH (lo + 1) s1 HP1).
      destruct (for_nat body n (lo + 1) s1) as [s2|r].
      * apply IH. intros i s0 s3 Hi. apply Hstep. lia.
      * destruct IH as (i & s0 & Hi & HP0 & Hb).
        { intros i s0 s3 Hi. apply Hstep. lia. }
        exists i, s0. split; [lia | split; assumption].
    + exists lo, s. split; [lia | split; assumption].
Qed.

Lemma for_loop_inv {S R} (body : Z -> S -> S + R) (P : S -> Prop) lo hi s :
  P s ->
  (forall i s0 s1, lo <= i < hi -> P s0 -> body i s0 = inl s1 -> P s1) ->
  match for_loop body lo hi s with
  | inl s1 => P s1
  | inr r => exists i s0, lo <= i < hi /\ P s0 /\ body i s0 = inr r
  end.
Proof.
  intros HP Hstep. rewrite for_loop_nat.
  pose proof (for_nat_inv body P (Z.to_nat (hi - lo)) lo s HP) as Hinv.
  destruct (for_nat body (Z.to_nat (hi - lo)) lo s) as [s1|r].
  - apply Hinv. intros i s0 s2 Hi. apply Hstep. lia.
  - destruct Hinv as (i & s0 & Hi & HP0 & Hb).
    { intros i s0 s2 Hi. apply Hstep. lia. }
    exists i, s0. split; [lia | split; assumption].
Qed.

(** ** The container reader *)

Module WavLoaderFacts.
Import WavLoader.

Lemma frameAlignment_construct p : frameAlignment (construct p) = 0.
Proof. reflexivity. Qed.

Lemma MIN_spec a b : MIN a b = Z.min a b.
Proof. unfold MIN. destruct (a <? b) eqn:E; lia. Qed.

Section Storage.
Context {F : Type} `{FileWrapper F}.

(** [seek] stores the byte offset of the clipped sample, and seeks the
    storage there. *)
Lemma seek_spec (w : t) (i : Z) (f : F) :
  _file w = wrapper_ptr ->
  seek w i f =
  Ok ((fw_seek (filePositionForSample w i) f).1,
      set_position (filePositionForSample w i) w,
      (fw_seek (filePositionForSample w i) f).2).
Proof.
  intros Hf. unfold seek. cbn [set_position _file _position]. rewrite Hf.
  cbn [is_null]. destruct (fw_seek _ f); reflexivity.
Qed.

(** What the chunk loop does at a [data] chunk. *)
Lemma scan_chunk_data (w : t) (f f1 : F) (hdr : list byte) :
  fw_read sizeof_header f = (hdr, f1) ->
  nbytes hdr = sizeof_header ->
  chunk_tag hdr = DATA_TAG ->
  scan_chunk w f =
  if frameAlignment w =? 0 then DivByZero
  else
    let w1 := set_data (chunk_size hdr / frameAlignment w)
                       (u32 (fw_position f1)) w in
    let next_chunk_pos := to_long (fw_position f1 + chunk_size hdr) in
    if _file_size w <=? next_chunk_pos then Ok (Finished w1 f1)
    else if (fw_seek (usize next_chunk_pos) f1).1
         then Ok (Continue w1 (fw_seek (usize next_chunk_pos) f1).2)
         else Ok (Failed w1 (fw_close (fw_seek (usize next_chunk_pos) f1).2)).
Proof.
  intros Hread Hlen Htag. unfold scan_chunk. rewrite Hread, Hlen, Htag.
  rewrite Z.eqb_refl. cbn [negb].
  change (bytes_eqb DATA_TAG FMT_TAG) with false.
  change (bytes_eqb DATA_TAG DATA_TAG) with true. cbv iota.
  destruct (frameAlignment w =? 0); [reflexivity|].
  cbn [obind set_data _file_size].
  destruct (_ <=? _); [reflexivity|].
  destruct (fw_seek _ f1) as [[] f2]; reflexivity.
Qed.

(** What the chunk loop does at a complete [fmt ] chunk. *)
Lemma scan_chunk_fmt (w : t) (f f1 f2 : F) (hdr payload : list byte) :
  fw_read sizeof_header f = (hdr, f1) ->
  nbytes hdr = sizeof_header ->
  chunk_tag hdr = FMT_TAG ->
  fw_read sizeof_format f1 = (payload, f2) ->
  nbytes payload = sizeof_format ->
  scan_chunk w f =
  let w1 := set_format (memcpy_into (_format w) 0 payload) w in
  let next_chunk_pos := to_long (fw_position f1 + chunk_size hdr) in
  if _file_size w <=? next_chunk_pos then Ok (Finished w1 f2)
  else if (fw_seek (usize next_chunk_pos) f2).1
       then Ok (Continue w1 (fw_seek (usize next_chunk_pos) f2).2)
       else Ok (Failed w1 (fw_close (fw_seek (usize next_chunk_pos) f2).2)).
Proof.
  intros Hread Hlen Htag Hpay Hplen. unfold scan_chunk.
  rewrite Hread, Hlen, Htag, Z.eqb_refl. cbn [negb].
  change (bytes_eqb FMT_TAG FMT_TAG) with true. cbv iota.
  rewrite Hpay, Hplen, Z.eqb_refl. cbn [negb obind set_format _file_size].
  destruct (_ <=? _); [reflexivity|].
  destruct (fw_seek _ f2) as [[] f3]; reflexivity.
Qed.

Lemma last_data_chunk_cons (c : list byte * t) log :
  last_data_chunk (c :: log) =
  match last_data_chunk log with
  | Some d => Some d
  | None => if is_data_chunk c then Some c else None
  end.
Proof.
  unfold last_data_chunk. rewrite filter_cons.
  destruct (decide (is_data_chunk c = true)) as [Hc|Hc].
  - rewrite Hc, last_cons. reflexivity.
  - apply not_true_is_false in Hc. rewrite Hc.
    destruct (last _); reflexivity.
Qed.

(** One pass of the chunk loop changes the sample count at a [data]
    chunk only, to the quotient of the declared size by the frame size
    the loader holds then. *)
Lemma scan_chunk_length (w : t) (f : F) (r : chunk_step F) :
  scan_chunk w f = Ok r ->
  let hdr := (fw_read sizeof_header f).1 in
  (nbytes hdr <> sizeof_header /\ exists w1 f1, r = Failed w1 f1) \/
  (nbytes hdr = sizeof_header /\
   if is_data_chunk (hdr, w)
   then frameAlignment w <> 0 /\
        _length (loader_of r) = chunk_size hdr / frameAlignment w
   else _length (loader_of r) = _length w).
Proof.
  unfold scan_chunk, is_data_chunk. cbn [fst].
  destruct (fw_read sizeof_header f) as [hdr f1]. cbn [fst].
  destruct (nbytes hdr =? sizeof_header) eqn:Elen; cbn [negb].
  2:{ intros [= <-]. left. apply Z.eqb_neq in Elen. eauto. }
  apply Z.eqb_eq in Elen. intros Hr. right. split; [exact Elen|].
  destruct (bytes_eqb (chunk_tag hdr) FMT_TAG) eqn:Efmt.
  - apply bytes_eqb_eq in Efmt. rewrite Efmt.
    change (bytes_eqb FMT_TAG DATA_TAG) with false. cbv iota.
    destruct (fw_read sizeof_format f1) as [payload f2].
    destruct (negb _).
    + cbn [obind] in Hr. injection Hr as <-. reflexivity.
    + cbn [obind set_format _file_size] in Hr.
      destruct (_ <=? _); [injection Hr as <-; reflexivity|].
      destruct (fw_seek _ f2) as [[] f3]; injection Hr as <-; reflexivity.
  - destruct (bytes_eqb (chunk_tag hdr) DATA_TAG) eqn:Edata.
    + destruct (frameAlignment w =? 0) eqn:Ez; [discriminate Hr|].
      apply Z.eqb_neq in Ez. split; [exact Ez|].
      cbn [obind set_data _file_size] in Hr.
      destruct (_ <=? _); [injection Hr as <-; reflexivity|].
      destruct (fw_seek _ f1) as [[] f3]; injection Hr as <-; reflexivity.
    + cbn [obind] in Hr.
      destruct (_ <=? _); [injection Hr as <-; reflexivity|].
      destruct (fw_seek _ f1) as [[] f3]; injection Hr as <-; reflexivity.
Qed.

Lemma scan_chunks_length fuel (w : t) (f : F) w' f' :
  scan_chunks fuel w f = Ok (true, w', f') ->
  match last_data_chunk (chunk_log fuel w f) with
  | Some (hdr, wd) =>
      frameAlignment wd <> 0 /\
      _length w' = chunk_size hdr / frameAlignment wd
  | None => _length w' = _length w
  end.
Proof.
  revert w f. induction fuel as [|fuel IH]; intros w f; [discriminate|].
  cbn [scan_chunks chunk_log].
  destruct (scan_chunk w f) as [r| | | |] eqn:Er; try discriminate.
  cbn [obind]. intros Hres.
  destruct (scan_chunk_length w f r Er) as [[Hlen (w1 & f1 & ->)]|[Hlen Hr]];
    [discriminate Hres|].
  rewrite Hlen, Z.eqb_refl, last_data_chunk_cons.
  destruct r as [w1 f1|w1 f1|w1 f1]; [discriminate Hres| |].
  - injection Hres as <- <-.
    change (last_data_chunk []) with (@None (list byte * t)).
    cbn [loader_of] in Hr.
    destruct (is_data_chunk _); exact Hr.
  - specialize (IH w1 f1 Hres). cbn [loader_of] in Hr.
    destruct (last_data_chunk (chunk_log fuel w1 f1)) as [[hdr' wd]|];
      [exact IH|].
    destruct (is_data_chunk _).
    + destruct Hr as [Hz Hl]. split; [exact Hz | congruence].
    + congruence.
Qed.

Lemma scan_chunk_file (w : t) (f : F) (r : chunk_step F) :
  scan_chunk w f = Ok r -> _file (loader_of r) = _file w.
Proof.
  unfold scan_chunk.
  destruct (fw_read sizeof_header f) as [hdr f1].
  destruct (negb _); [intros [= <-]; reflexivity|].
  destruct (bytes_eqb (chunk_tag hdr) FMT_TAG).
  - destruct (fw_read sizeof_format f1) as [payload f2].
    destruct (negb _); cbn [obind]; [intros [= <-]; reflexivity|].
    destruct (_ <=? _); [intros [= <-]; reflexivity|].
    destruct (fw_seek _ f2) as [[] f3]; intros [= <-]; reflexivity.
  - destruct (bytes_eqb (chunk_tag hdr) DATA_TAG).
    + destruct (frameAlignment w =? 0); [discriminate|]. cbn [obind].
      destruct (_ <=? _); [intros [= <-]; reflexivity|].
      destruct (fw_seek _ f1) as [[] f3]; intros [= <-]; reflexivity.
    + cbn [obind].
      destruct (_ <=? _); [intros [= <-]; reflexivity|].
      destruct (fw_seek _ f1) as [[] f3]; intros [= <-]; reflexivity.
Qed.

Lemma scan_chunks_file fuel (w : t) (f : F) ok w' f' :
  scan_chunks fuel w f = Ok (ok, w', f') -> _file w' = _file w.
Proof.
  revert w f. induction fuel as [|fuel IH]; intros w f; [discriminate|].
  cbn [scan_chunks].
  destruct (scan_chunk w f) as [r| | | |] eqn:Er; try discriminate.
  apply scan_chunk_file in Er. cbn [obind].
  destruct r as [w1 f1|w1 f1|w1 f1]; cbn [loader_of] in Er.
  - intros [= _ <- _]. exact Er.
  - intros [= _ <- _]. exact Er.
  - intros Hr. apply IH in Hr. congruence.
Qed.

(** An accepted container leaves the loader bound to its storage. *)
Lemma open_file_bound fuel (w0 : t) (wrapper : FileWrapperPtr) (f0 : F) w f :
  open fuel w0 wrapper f0 = Ok (true, w, f) -> _file w = wrapper_ptr.
Proof.
  unfold open.
  destruct wrapper; cbn [is_null]; [discriminate|].
  destruct (fw_open f0) as [didOpen f1].
  destruct didOpen; cbn [negb]; [|discriminate].
  destruct (fw_seek 0 f1) as [ok f2].
  destruct ok; cbn [negb]; [|discriminate].
  destruct (fw_read sizeof_header f2) as [header f3].
  destruct (negb (nbytes header =? sizeof_header)); [discriminate|].
  destruct (negb (bytes_eqb (chunk_tag header) RIFF_TAG)); [discriminate|].
  destruct (fw_read sizeof_tag f3) as [format_tag f4].
  destruct (negb (nbytes format_tag =? sizeof_tag)); [discriminate|].
  destruct (negb (bytes_eqb format_tag WAVE_TAG)); [discriminate|].
  destruct (scan_chunks fuel _ f4) as [[[ok w1] f5]| | | |] eqn:Escan;
    try discriminate.
  cbn [obind]. destruct ok; [|discriminate].
  intros [= <- <-]. apply scan_chunks_file in Escan.
  cbn [set_position _file]. rewrite Escan. reflexivity.
Qed.

(** The sample count that an accepted container leaves in the loader. *)
Lemma open_length fuel (w0 : t) (wrapper : FileWrapperPtr) (f0 : F) w f :
  open fuel w0 wrapper f0 = Ok (true, w, f) ->
  match last_data_chunk (chunks_visited fuel w0 f0) with
  | Some (hdr, wd) =>
      frameAlignment wd <> 0 /\
      _length w = chunk_size hdr / frameAlignment wd
  | None => _length w = _length w0
  end.
Proof.
  unfold open, chunks_visited.
  destruct wrapper; cbn [is_null]; [discriminate|].
  destruct (fw_open f0) as [didOpen f1]. cbn [snd].
  destruct didOpen; cbn [negb]; [|discriminate].
  destruct (fw_seek 0 f1) as [ok f2]. cbn [snd].
  destruct ok; cbn [negb]; [|discriminate].
  destruct (fw_read sizeof_header f2) as [header f3].
  destruct (negb (nbytes header =? sizeof_header)); [discriminate|].
  destruct (negb (bytes_eqb (chunk_tag header) RIFF_TAG)); [discriminate|].
  destruct (fw_read sizeof_tag f3) as [format_tag f4]. cbn [snd].
  destruct (negb (nbytes format_tag =? sizeof_tag)); [discriminate|].
  destruct (negb (bytes_eqb format_tag WAVE_TAG)); [discriminate|].
  destruct (scan_chunks fuel _ f4) as [[[ok w1] f5]| | | |] eqn:Escan;
    try discriminate.
  cbn [obind]. destruct ok; [|discriminate].
  intros [= <- <-]. apply scan_chunks_length in Escan.
  cbn [set_position _length].
  destruct (last_data_chunk _) as [[hdr wd]|]; exact Escan.
Qed.

Lemma chunk_size_range hdr : 0 <= chunk_size hdr < 2 ^ 32.
Proof.
  unfold chunk_size. pose proof (le_decode_range (sub 4 4 hdr)) as Hr.
  assert (nbytes (sub 4 4 hdr) <= 4)
    by (unfold nbytes, sub; rewrite length_take; lia).
  assert (256 ^ nbytes (sub 4 4 hdr) <= 256 ^ 4)
    by (apply Z.pow_le_mono_r; unfold nbytes in *; lia).
  change (256 ^ 4) with (2 ^ 32) in *. lia.
Qed.

Lemma frameAlignment_nonneg w : 0 <= frameAlignment w.
Proof. unfold frameAlignment. apply le_decode_range. Qed.

(** An accepted container leaves a sample count that fits [uint32_t]. *)
Lemma open_length_range fuel (w0 : t) (wrapper : FileWrapperPtr) (f0 : F) w f :
  open fuel w0 wrapper f0 = Ok (true, w, f) ->
  0 <= _length w0 < 2 ^ 32 -> 0 <= _length w < 2 ^ 32.
Proof.
  intros Hopen H0. apply open_length in Hopen.
  destruct (last_data_chunk _) as [[hdr wd]|]; [|lia].
  destruct Hopen as [Hz ->].
  pose proof (chunk_size_range hdr). pose proof (frameAlignment_nonneg wd).
  split; [apply Z.div_pos; lia|].
  apply Z.div_lt_upper_bound; [lia|]. nia.
Qed.


End Storage.

Lemma chunk_size_encode tag x :
  length tag = 4%nat -> chunk_size (tag ++ le_encode 4 x) = x mod 2 ^ 32.
Proof.
  intros Hl. unfold chunk_size, sub.
  rewrite drop_app_length' by (symmetry; exact Hl).
  change (take 4 (le_encode 4 x)) with (le_encode 4 x).
  rewrite le_decode_encode. reflexivity.
Qed.

Lemma frameAlignment_format fm w :
  frameAlignment
    (set_format (memcpy_into (replicate 16 "000"%byte) 0 (format_bytes fm)) w)
  = block_align fm mod 2 ^ 16.
Proof.
  unfold frameAlignment. cbn [set_format _format].
  change (sub 12 2 (memcpy_into (replicate 16 "000"%byte) 0 (format_bytes fm)))
    with (le_encode 2 (block_align fm)).
  apply le_decode_encode.
Qed.

(** [open] on a container in the layout of [SimpleWavHeader]. *)
Lemma open_SimpleWavHeader p fuel fm n payload :
  0 <= n -> n + 44 < 2 ^ 32 -> block_align fm mod 2 ^ 16 <> 0 ->
  open (S (S fuel)) (construct p) wrapper_ptr
    (MemFile.of_bytes (SimpleWavHeader fm n ++ payload)) =
  Ok (true,
      mk (format_bytes fm) wrapper_ptr 0
         (n / (block_align fm mod 2 ^ 16)) 44 (44 + n),
      MemFile.mk (SimpleWavHeader fm n ++ payload) 44 true).
Proof.
  intros Hn0 Hn Hba.
  set (content := SimpleWavHeader fm n ++ payload).
  assert (E1 : fw_read sizeof_header (MemFile.mk content 0 true) =
               (RIFF_TAG ++ le_encode 4 (36 + n), MemFile.mk content 8 true))
    by reflexivity.
  assert (E2 : fw_read sizeof_tag (MemFile.mk content 8 true) =
               (WAVE_TAG, MemFile.mk content 12 true)) by reflexivity.
  assert (E3 : fw_read sizeof_header (MemFile.mk content 12 true) =
               (FMT_TAG ++ le_encode 4 16, MemFile.mk content 20 true))
    by reflexivity.
  assert (E4 : fw_read sizeof_format (MemFile.mk content 20 true) =
               (format_bytes fm, MemFile.mk content 36 true)) by reflexivity.
  assert (E5 : fw_read sizeof_header (MemFile.mk content 36 true) =
               (DATA_TAG ++ le_encode 4 n, MemFile.mk content 44 true))
    by reflexivity.
  unfold open. cbn [is_null].
  change (fw_open (MemFile.of_bytes content))
    with (true, MemFile.mk content 0 true).
  cbv iota. cbn [negb].
  change (fw_seek 0 (MemFile.mk content 0 true))
    with (true, MemFile.mk content 0 true).
  cbv iota. cbn [negb].
  rewrite E1, E2.
  change (nbytes (RIFF_TAG ++ le_encode 4 (36 + n)) =? sizeof_header) with true.
  change (bytes_eqb (chunk_tag (RIFF_TAG ++ le_encode 4 (36 + n))) RIFF_TAG)
    with true.
  change (nbytes WAVE_TAG =? sizeof_tag) with true.
  change (bytes_eqb WAVE_TAG WAVE_TAG) with true.
  cbn [negb]. cbv iota.
  rewrite chunk_size_encode by reflexivity.
  change (nbytes (RIFF_TAG ++ le_encode 4 (36 + n))) with 8.
  rewrite (Z.mod_small (36 + n)) by lia.
  rewrite u32_small by lia.
  cbn [scan_chunks].
  rewrite (scan_chunk_fmt _ _ _ _ _ _ E3 eq_refl eq_refl E4 eq_refl).
  cbv zeta.
  change (fw_position (MemFile.mk content 20 true)) with 20.
  rewrite chunk_size_encode by reflexivity.
  change (16 mod 2 ^ 32) with 16. change (to_long (20 + 16)) with 36.
  change (usize 36) with 36.
  cbn [_file_size set_file_size].
  replace (8 + (36 + n) <=? 36) with false by (symmetry; apply Z.leb_gt; lia).
  change (fw_seek 36 (MemFile.mk content 36 true))
    with (true, MemFile.mk content 36 true).
  cbn [fst snd obind].
  rewrite (scan_chunk_data _ _ _ _ E5 eq_refl eq_refl).
  rewrite frameAlignment_format.
  destruct (block_align fm mod 2 ^ 16 =? 0) eqn:Ez;
    [apply Z.eqb_eq in Ez; contradiction|].
  cbv zeta.
  change (fw_position (MemFile.mk content 44 true)) with 44.
  rewrite chunk_size_encode by reflexivity.
  rewrite (Z.mod_small n) by lia.
  rewrite to_long_small by lia.
  cbn [_file_size set_file_size set_format].
  replace (8 + (36 + n) <=? 44 + n) with true by (symmetry; apply Z.leb_le; lia).
  cbn [obind]. f_equal. f_equal. f_equal.
  unfold set_position, set_data, set_format, set_file_size, set_file, construct.
  cbn [_format _file _position _length _data_offset _file_size].
  f_equal. lia.
Qed.

(** C4.  On a container whose data chunk comes before its format chunk, a
    loader fresh from its constructor divides the declared length of the
    data chunk by the frame size it still holds, which is zero. *)
Theorem open_data_before_fmt_divides_by_zero p fuel fm payload :
  open (S fuel) (construct p) wrapper_ptr
    (MemFile.of_bytes (data_first_container fm payload)) = DivByZero.
Proof.
  set (content := data_first_container fm payload).
  assert (E1 : fw_read sizeof_header (MemFile.mk content 0 true) =
               (RIFF_TAG ++ le_encode 4 (36 + nbytes payload),
                MemFile.mk content 8 true)) by reflexivity.
  assert (E2 : fw_read sizeof_tag (MemFile.mk content 8 true) =
               (WAVE_TAG, MemFile.mk content 12 true)) by reflexivity.
  assert (E3 : fw_read sizeof_header (MemFile.mk content 12 true) =
               (DATA_TAG ++ le_encode 4 (nbytes payload),
                MemFile.mk content 20 true)) by reflexivity.
  unfold open. cbn [is_null].
  change (fw_open (MemFile.of_bytes content))
    with (true, MemFile.mk content 0 true).
  cbv iota. cbn [negb].
  change (fw_seek 0 (MemFile.mk content 0 true))
    with (true, MemFile.mk content 0 true).
  cbv iota. cbn [negb].
  rewrite E1, E2.
  change (nbytes (RIFF_TAG ++ le_encode 4 (36 + nbytes payload)) =? sizeof_header)
    with true.
  change (bytes_eqb (chunk_tag (RIFF_TAG ++ le_encode 4 (36 + nbytes payload)))
                    RIFF_TAG) with true.
  change (nbytes WAVE_TAG =? sizeof_tag) with true.
  change (bytes_eqb WAVE_TAG WAVE_TAG) with true.
  cbn [negb]. cbv iota. cbn [scan_chunks].
  rewrite (scan_chunk_data _ _ _ _ E3 eq_refl eq_refl).
  reflexivity.
Qed.



(** C6.  After [open] on a mono 16-bit container of 100 samples, [seek] to
    sample 10 seeks the storage to byte 44 + 10 * 2 and stores that byte
    offset as the read cursor: [position] answers 64, where the clipped
    sample index is 10. *)
Theorem seek_stores_byte_offset :
  (let* (_, w, f) :=
     open 2 (construct 0) wrapper_ptr (MemFile.of_bytes (mono16 100)) in
   let* (ok, w1, f1) := seek w 10 f in
   Ok (ok, position w1, MemFile.pos f1, Z.min 10 (numSamples w)))
  = Ok (true, 64, 64, 10).
Proof. vm_compute. reflexivity. Qed.

End WavLoaderFacts.

(** ** The streaming sample cache *)

Module AudioSamplerStreamFacts.
Import AudioSamplerStream.

Lemma scan_slots_none p i n (m : list Z) :
  scan_slots p i n m = None <->
  forall j : nat, (i <= j < i + n)%nat -> p (m !!! j) = false.
Proof.
  revert i. induction n as [|n IH]; intros i; cbn [scan_slots].
  - split; [intros _ j Hj; lia | reflexivity].
  - destruct (p (m !!! i)) eqn:E.
    + split; [discriminate|]. intros Hall.
      rewrite Hall in E by lia. discriminate.
    + rewrite IH. split.
      * intros Hall j Hj. destruct (decide (j = i)) as [->|]; [exact E|].
        apply Hall. lia.
      * intros Hall j Hj. apply Hall. lia.
Qed.

Lemma scan_slots_some p i n (m : list Z) k :
  scan_slots p i n m = Some k -> (i <= k < i + n)%nat /\ p (m !!! k) = true.
Proof.
  revert i. induction n as [|n IH]; intros i; cbn [scan_slots]; [discriminate|].
  destruct (p (m !!! i)) eqn:E.
  - intros [= <-]. split; [lia | exact E].
  - intros Hk. apply IH in Hk. split; [lia | apply Hk].
Qed.

Section Sampler.
Context {F : Type} `{FileWrapper F}.
Variable sz : Z.
Hypothesis Hsz : 1 <= sz <= 8.

Abbreviation SPB := (SamplesPerBlock sz).

Lemma SamplesPerBlock_range : 512 <= SPB <= 4096.
Proof using Hsz.
  unfold SamplesPerBlock, BlockSize. split.
  - apply Z.div_le_lower_bound; lia.
  - apply Z.div_le_upper_bound; lia.
Qed.

Lemma block_mapped_false (m : list Z) block :
  block_mapped m block = false <->
  forall j : nat, (j < NumBlocks)%nat -> m !!! j <> block.
Proof.
  unfold block_mapped.
  destruct (scan_slots _ 0 NumBlocks m) as [k|] eqn:E.
  - apply scan_slots_some in E. destruct E as [Hk Hp].
    apply Z.eqb_eq in Hp. split; [discriminate|].
    intros Hall. exfalso. apply (Hall k); [lia | exact Hp].
  - rewrite scan_slots_none in E. split; [|reflexivity].
    intros _ j Hj. apply Z.eqb_neq. apply E. lia.
Qed.

(** What an attempt on one candidate leaves behind. *)
Lemma try_block_spec idx block (s : t) (f : F) :
  WavLoader._file (_file s) = wrapper_ptr ->
  match try_block sz idx block s f with
  | Ok (Filled s' f') =>
      0 <= block /\ block_mapped (_bufBlockMap s) block = false /\
      cache_view s' = cache_view s /\
      _bufBlockMap s' = <[idx := u32 block]> (_bufBlockMap s)
  | Ok (LeaveSigns s' f') | Ok (NextSign s' f') =>
      cache_view s' = cache_view s /\ _bufBlockMap s' = _bufBlockMap s
  | _ => False
  end.
Proof.
  intros Hf. unfold try_block.
  destruct (block <? 0) eqn:Eneg; [split; reflexivity|].
  apply Z.ltb_ge in Eneg.
  destruct (_ >? _); [split; reflexivity|].
  destruct (block_mapped (_bufBlockMap s) block) eqn:Emap;
    [split; reflexivity|].
  replace (block >=? 0) with true by (symmetry; apply Z.geb_le; lia).
  rewrite WavLoaderFacts.seek_spec by exact Hf.
  cbn [obind]. destruct (fw_seek _ f) as [ok f1]. cbn [fst snd].
  destruct ok; cbn [negb]; [|split; reflexivity].
  unfold WavLoader.read. cbn [set_file _file WavLoader.set_position WavLoader._file].
  rewrite Hf. cbn [is_null]. destruct (fw_read BlockSize f1) as [data f2].
  cbn [obind]. destruct (_ >? 0).
  - repeat split; assumption.
  - split; reflexivity.
Qed.

Lemma try_distance_spec idx rhb absDiff (st : t * F) :
  WavLoader._file (_file st.1) = wrapper_ptr ->
  match try_distance sz idx rhb absDiff st with
  | inl st' =>
      cache_view st'.1 = cache_view st.1 /\
      _bufBlockMap st'.1 = _bufBlockMap st.1
  | inr (Ok st') =>
      exists block,
        (block = rhb + absDiff \/ block = rhb + - absDiff) /\
        0 <= block /\ block_mapped (_bufBlockMap st.1) block = false /\
        cache_view st'.1 = cache_view st.1 /\
        _bufBlockMap st'.1 = <[idx := u32 block]> (_bufBlockMap st.1)
  | inr _ => False
  end.
Proof.
  destruct st as [s f]. cbn [fst snd]. intros Hf. unfold try_distance.
  cbn [fst snd].
  pose proof (try_block_spec idx (rhb + absDiff) s f Hf) as H1.
  destruct (try_block sz idx (rhb + absDiff) s f) as [[s1 f1|s1 f1|s1 f1]| | | |];
    try contradiction.
  - destruct H1 as (Hb & Hm & Hv & Hmap). exists (rhb + absDiff).
    cbn [fst]. repeat split; auto.
  - exact H1.
  - destruct H1 as [Hv Hmap].
    assert (Hf1 : WavLoader._file (_file s1) = wrapper_ptr).
    { unfold cache_view in Hv. congruence. }
    pose proof (try_block_spec idx (rhb + - absDiff) s1 f1 Hf1) as H2.
    destruct (try_block sz idx (rhb + - absDiff) s1 f1)
      as [[s2 f2|s2 f2|s2 f2]| | | |]; try contradiction; cbn [fst].
    + destruct H2 as (Hb & Hm & Hv2 & Hmap2). exists (rhb + - absDiff).
      rewrite <- Hmap, <- Hv. repeat split; auto.
    + destruct H2 as [Hv2 Hmap2]. split; congruence.
    + destruct H2 as [Hv2 Hmap2]. split; congruence.
Qed.

(** At a distance whose block ahead is out of range nothing happens: the
    block behind is not looked at. *)
Lemma try_distance_out_of_range idx rhb i (s : t) (f : F) :
  0 <= rhb + i ->
  usize (WavLoader.numSamples (_file s) - _introBufSize s)
    < usize ((rhb + i) * SPB) ->
  try_distance sz idx rhb i (s, f) = inl (s, f).
Proof.
  intros H0 Hout. unfold try_distance, try_block. cbn [fst snd].
  replace (rhb + i <? 0) with false by (symmetry; apply Z.ltb_ge; lia).
  replace (_ >? _) with true by (symmetry; apply Z.gtb_lt; lia).
  reflexivity.
Qed.

(** [prime] answers, leaves the cursor and the lead-in alone, and changes
    the block map only when it reports a fill: then the slot furthest
    from the read head receives a block nearer to it that no slot held. *)
Lemma prime_spec (s : t) (f : F) :
  WavLoader._file (_file s) = wrapper_ptr ->
  exists filled s' f',
    prime sz s f = Ok (filled, s', f') /\
    cache_view s' = cache_view s /\
    if filled then
      exists block absDiff,
        0 <= absDiff < (furthest (readHeadBlock sz s) (_bufBlockMap s)).2 /\
        (block = readHeadBlock sz s + absDiff \/
         block = readHeadBlock sz s + - absDiff) /\
        0 <= block /\ block_mapped (_bufBlockMap s) block = false /\
        _bufBlockMap s' =
          <[(furthest (readHeadBlock sz s) (_bufBlockMap s)).1 := u32 block]>
            (_bufBlockMap s)
    else _bufBlockMap s' = _bufBlockMap s.
Proof.
  intros Hf. unfold prime.
  destruct (furthest (readHeadBlock sz s) (_bufBlockMap s)) as [idx maxDiff].
  cbn [fst snd].
  destruct (maxDiff >? 0); [|exists false, s, f; auto].
  assert (Hstep : forall i (st0 st1 : t * F),
             0 <= i < maxDiff ->
             cache_view st0.1 = cache_view s /\
             _bufBlockMap st0.1 = _bufBlockMap s ->
             try_distance sz idx (readHeadBlock sz s) i st0 = inl st1 ->
             cache_view st1.1 = cache_view s /\
             _bufBlockMap st1.1 = _bufBlockMap s).
  { intros i st0 st1 Hi [Hv0 Hm0] Hb.
    assert (Hf0 : WavLoader._file (_file st0.1) = wrapper_ptr)
      by (unfold cache_view in Hv0; congruence).
    pose proof (try_distance_spec idx (readHeadBlock sz s) i st0 Hf0) as Hd.
    rewrite Hb in Hd. destruct Hd as [Hv1 Hm1]. split; congruence. }
  pose proof (for_loop_inv (try_distance sz idx (readHeadBlock sz s))
                (fun st => cache_view st.1 = cache_view s /\
                           _bufBlockMap st.1 = _bufBlockMap s)
                0 maxDiff (s, f) (conj eq_refl eq_refl) Hstep) as Hloop.
  destruct (for_loop _ 0 maxDiff (s, f)) as [[s' f']|r].
  - exists false, s', f'. split; [reflexivity|]. exact Hloop.
  - destruct Hloop as (i & st0 & Hi & [Hv0 Hm0] & Hb).
    assert (Hf0 : WavLoader._file (_file st0.1) = wrapper_ptr)
      by (unfold cache_view in Hv0; congruence).
    pose proof (try_distance_spec idx (readHeadBlock sz s) i st0 Hf0) as Hd.
    rewrite Hb in Hd. destruct r as [[s' f']| | | |]; try contradiction.
    cbn [fst] in Hd.
    destruct Hd as (block & Hblock & Hb0 & Hnm & Hv1 & Hm1).
    exists true, s', f'. split; [reflexivity|]. split; [congruence|].
    exists block, i. rewrite <- Hm0. repeat split; auto; lia.
Qed.
Lemma typed_view (s s' : t) :
  cache_view s' = cache_view s -> typed s -> typed s'.
Proof.
  unfold cache_view. intros [= Hi Hb Hl Hp] [H1 H2 H3].
  constructor; congruence.
Qed.

Lemma readHeadBlock_range (s : t) :
  typed s -> 0 <= readHeadBlock sz s <= 2 ^ 23.
Proof using Hsz.
  intros [Hi Hb Hl]. unfold readHeadBlock.
  pose proof SamplesPerBlock_range as Hspb.
  destruct (_sampleIdx s >=? _introBufSize s) eqn:E; [|lia].
  apply Z.geb_le in E.
  rewrite usize_small by lia.
  assert (0 <= (_sampleIdx s - _introBufSize s) / SPB <= 2 ^ 23).
  { split; [apply Z.div_pos; lia|].
    apply Z.div_le_upper_bound; lia. }
  rewrite to_long_small; lia.
Qed.

Lemma loaded_map (s : t) :
  loaded s ->
  exists a b c,
    _bufBlockMap s = [a; b; c] /\
    0 <= a <= INT_MAX /\ 0 <= b <= INT_MAX /\ 0 <= c <= INT_MAX.
Proof.
  intros [_ _ Hlen Hrange].
  destruct (_bufBlockMap s) as [|a [|b [|c [|d m]]]]; try discriminate Hlen.
  exists a, b, c. split; [reflexivity|].
  pose proof (Hrange 0%nat) as H0. pose proof (Hrange 1%nat) as H1.
  pose proof (Hrange 2%nat) as H2. unfold NumBlocks in *. cbn in H0, H1, H2.
  repeat split; try apply H0; try apply H1; try apply H2; lia.
Qed.

Lemma distinct_blocks3 a b c :
  distinct_blocks [a; b; c] <->
  (a = b -> a = UnmappedBlock) /\ (a = c -> a = UnmappedBlock) /\
  (b = c -> b = UnmappedBlock).
Proof.
  unfold distinct_blocks, NumBlocks. split.
  - intros Hd. repeat split; intros E.
    + apply (Hd 0%nat 1%nat); [lia | lia | lia | exact E].
    + apply (Hd 0%nat 2%nat); [lia | lia | lia | exact E].
    + apply (Hd 1%nat 2%nat); [lia | lia | lia | exact E].
  - intros (Hab & Hac & Hbc) i j Hi Hj Hij.
    destruct i as [|[|[|i]]]; destruct j as [|[|[|j]]]; try lia; cbn; intros E;
      auto; symmetry in E; rewrite <- E; auto.
Qed.

(** On a loaded stream the bound of the distance loop fits an [int]. *)
Lemma loaded_maxDiff_range (s : t) :
  loaded s ->
  0 <= (furthest (readHeadBlock sz s) (_bufBlockMap s)).2 <= INT_MAX.
Proof using Hsz.
  intros Hl. pose proof (readHeadBlock_range s (loaded_typed s Hl)) as Hr.
  destruct (loaded_map s Hl) as (a & b & c & Hmap & Ha & Hb & Hc).
  rewrite Hmap. set (r := readHeadBlock sz s) in *.
  unfold furthest, NumBlocks. cbn [furthest_from Nat.sub].
  cbn [lookup_total list_lookup_total]. unfold INT_MAX in *.
  rewrite !to_long_small by lia.
  destruct (_ >? _); destruct (_ >? _); cbn [snd]; lia.
Qed.

(** A candidate nearer to the read head than a mapped entry is a block
    index that fits the block map, at the distance it was tried at. *)
Lemma nearer_block r v i block :
  0 <= r <= 2 ^ 23 -> 0 <= v <= 2147483647 ->
  0 <= i < Z.abs (v - r) ->
  block = r + i \/ block = r + - i -> 0 <= block ->
  block <= 2147483647 /\ Z.abs (block - r) = i.
Proof. lia. Qed.

(** A call of [prime] on a loaded stream keeps it loaded and its blocks
    distinct; a fill brings the block map nearer to the read head. *)
Lemma prime_step (s : t) (f : F) :
  loaded s ->
  exists filled s' f',
    prime sz s f = Ok (filled, s', f') /\
    loaded s' /\
    (distinct_blocks (_bufBlockMap s) -> distinct_blocks (_bufBlockMap s')) /\
    cache_view s' = cache_view s /\
    readHeadBlock sz s' = readHeadBlock sz s /\
    if filled
    then spread (readHeadBlock sz s) (_bufBlockMap s')
         < spread (readHeadBlock sz s) (_bufBlockMap s)
    else _bufBlockMap s' = _bufBlockMap s.
Proof using Hsz.
  intros Hl.
  destruct (prime_spec s f (loaded_file s Hl)) as (filled & s' & f' & Hp & Hv & Hm).
  exists filled, s', f'. split; [exact Hp|].
  assert (Hrhb : readHeadBlock sz s' = readHeadBlock sz s).
  { unfold readHeadBlock. unfold cache_view in Hv.
    injection Hv as Hi Hb _ _. rewrite Hi, Hb. reflexivity. }
  pose proof (typed_view s s' Hv (loaded_typed s Hl)) as Ht'.
  assert (Hf' : WavLoader._file (_file s') = wrapper_ptr).
  { unfold cache_view in Hv. injection Hv as _ _ _ Hp'.
    rewrite Hp'. apply Hl. }
  destruct filled.
  2:{ split; [constructor; auto; rewrite Hm; apply Hl|].
      rewrite Hm. auto. }
  pose proof (readHeadBlock_range s (loaded_typed s Hl)) as Hr.
  destruct (loaded_map s Hl) as (a & b & c & Hmap & Ha & Hb & Hc).
  rewrite Hmap in *.
  destruct Hm as (block & i & Hi & Hblock & Hb0 & Hnm & Hm').
  rewrite block_mapped_false in Hnm.
  pose proof (Hnm 0%nat) as Hn0. pose proof (Hnm 1%nat) as Hn1.
  pose proof (Hnm 2%nat) as Hn2. unfold NumBlocks in Hn0, Hn1, Hn2.
  cbn in Hn0, Hn1, Hn2.
  specialize (Hn0 ltac:(lia)). specialize (Hn1 ltac:(lia)).
  specialize (Hn2 ltac:(lia)).
  set (r := readHeadBlock sz s) in *.
  unfold furthest, NumBlocks in Hi, Hm'. cbn [furthest_from Nat.sub] in Hi, Hm'.
  cbn [lookup_total list_lookup_total] in Hi, Hm'.
  unfold INT_MAX, UnmappedBlock, INT_MAX in *.
  rewrite !to_long_small in Hi, Hm' by lia.
  assert (Hu : 0 <= block < 2 ^ 32 -> u32 block = block) by apply u32_small.
  unfold spread at 2. cbn [fmap list_fmap foldr].
  rewrite !to_long_small by lia.
  assert (Hfin :
            forall m' : list Z,
              _bufBlockMap s' = m' -> length m' = 3%nat ->
              (forall j : nat, (j < 3)%nat -> 0 <= m' !!! j <= 2147483647) ->
              (distinct_blocks [a; b; c] -> distinct_blocks m') ->
              spread r m' < Z.abs (a - r) + (Z.abs (b - r) + (Z.abs (c - r) + 0)) ->
              loaded s' /\
              (distinct_blocks [a; b; c] -> distinct_blocks (_bufBlockMap s')) /\
              cache_view s' = cache_view s /\ readHeadBlock sz s' = r /\
              spread r (_bufBlockMap s')
              < Z.abs (a - r) + (Z.abs (b - r) + (Z.abs (c - r) + 0))).
  { intros m' Em Hlen Hrange Hdm Hsp.
    split; [constructor;
            [exact Ht' | exact Hf' | rewrite Em; exact Hlen
            | rewrite Em; exact Hrange]|].
    rewrite Em. auto. }
  destruct (Z.gtb_spec (Z.abs (b - r)) (Z.abs (a - r))) as [E1|E1];
    [destruct (Z.gtb_spec (Z.abs (c - r)) (Z.abs (b - r))) as [E2|E2]
    |destruct (Z.gtb_spec (Z.abs (c - r)) (Z.abs (a - r))) as [E2|E2]];
    cbn [fst snd] in Hi, Hm'; cbn [insert list_insert] in Hm';
    (match type of Hi with
     | _ <= _ < Z.abs (?v - _) =>
         destruct (nearer_block r v i block Hr ltac:(assumption)
                                Hi Hblock Hb0) as [Hbl Hdist]
     end);
    rewrite Hu in Hm' by (clear - Hbl Hb0; lia);
    (apply (Hfin _ Hm' eq_refl);
     [ intros [|[|[|j]]] Hj; cbn; clear - Ha Hb Hc Hbl Hb0 Hj; lia
     | intros Hd; apply distinct_blocks3 in Hd; apply distinct_blocks3;
       unfold UnmappedBlock, INT_MAX in *; clear - Hd Hn0 Hn1 Hn2; lia
     | unfold spread; cbn [fmap list_fmap foldr];
       rewrite !to_long_small by (clear - Ha Hb Hc Hbl Hb0 Hr; lia);
       rewrite Hdist; clear - Hi E1 E2; lia ]).
Qed.

(** *** [read] *)

(** A pass of the cache loop that finds its block copies at least one
    sample and touches only the cursor and the read head. *)
Lemma read_block_spec (s : t) (left : Z) (out : list byte) s' left' out' :
  0 < left < 2 ^ 32 ->
  read_block sz (s, left, out) = Some (s', left', out') ->
  0 <= left' < left /\
  0 <= _sampleIdx s' < 2 ^ 32 /\
  _bufBlockMap s' = _bufBlockMap s /\
  _introBufSize s' = _introBufSize s /\
  _file s' = _file s.
Proof using Hsz.
  intros Hleft. unfold read_block.
  pose proof SamplesPerBlock_range as Hspb.
  destruct (find_block _ _) as [k|]; [|discriminate].
  set (x := usize (_sampleIdx s - _introBufSize s)).
  assert (Hoff : 0 <= x mod SPB < SPB) by (apply Z.mod_pos_bound; lia).
  rewrite (to_int_small (x mod SPB)) by lia.
  replace ((Z.of_nat k + 1) * SPB - (Z.of_nat k * SPB + x mod SPB))
    with (SPB - x mod SPB) by lia.
  intros [= <- <- _]. cbn [_sampleIdx _bufBlockMap _introBufSize _file
                             set_sampleIdx set_readHead].
  split; [|split; [apply u32_range | auto]].
  destruct (SPB - x mod SPB <=? left) eqn:E.
  - apply Z.leb_le in E. rewrite (u32_small (SPB - x mod SPB)) by lia.
    rewrite u32_small; lia.
  - rewrite Z.sub_diag. change (u32 0) with 0. lia.
Qed.

Lemma read_cache_spec fuel (s : t) (left : Z) (out : list byte) :
  0 <= left < 2 ^ 32 -> 0 <= _sampleIdx s < 2 ^ 32 ->
  let '(s', left', _) := read_cache sz fuel (s, left, out) in
  0 <= left' <= left /\
  0 <= _sampleIdx s' < 2 ^ 32 /\
  _bufBlockMap s' = _bufBlockMap s /\
  _introBufSize s' = _introBufSize s /\
  _file s' = _file s.
Proof using Hsz.
  revert s left out. induction fuel as [|fuel IH]; intros s left out Hl Hi.
  - cbn. repeat split; auto; lia.
  - cbn [read_cache fst snd]. destruct (left >? 0) eqn:E.
    2:{ repeat split; auto; lia. }
    apply Z.gtb_lt in E.
    destruct (read_block sz (s, left, out)) as [[[s1 left1] out1]|] eqn:Eb.
    2:{ repeat split; auto; lia. }
    apply read_block_spec in Eb; [|lia].
    destruct Eb as (Hl1 & Hi1 & Hm1 & Hb1 & Hf1).
    specialize (IH s1 left1 out1 ltac:(lia) Hi1).
    destruct (read_cache sz fuel (s1, left1, out1)) as [[s2 left2] out2].
    destruct IH as (Hl2 & Hi2 & Hm2 & Hb2 & Hf2).
    repeat split; try congruence; lia.
Qed.

(** The cache loop is given enough passes: it stops because the request
    is served or because the block wanted is not in the cache. *)
Lemma read_cache_enough fuel (s : t) (left : Z) (out : list byte) :
  0 <= left < 2 ^ 32 -> left <= Z.of_nat fuel ->
  let r := read_cache sz fuel (s, left, out) in
  r.1.2 = 0 \/ read_block sz r = None.
Proof using Hsz.
  revert s left out. induction fuel as [|fuel IH]; intros s left out Hl Hf.
  - left. cbn. lia.
  - cbn [read_cache fst snd]. destruct (Z.gtb_spec left 0) as [E|E].
    2:{ left. cbn. lia. }
    destruct (read_block sz (s, left, out)) as [[[s1 left1] out1]|] eqn:Eb.
    2:{ right. exact Eb. }
    pose proof (read_block_spec s left out s1 left1 out1 ltac:(lia) Eb)
      as (Hl1 & _).
    apply IH; lia.
Qed.

Lemma read_intro_spec (s : t) (n : Z) :
  0 <= n < 2 ^ 32 -> typed s ->
  let '(s', left', _) := read_intro sz s n in
  0 <= left' <= n /\
  0 <= _sampleIdx s' < 2 ^ 32 /\
  _bufBlockMap s' = _bufBlockMap s /\
  _introBufSize s' = _introBufSize s /\
  _file s' = _file s /\
  (if _sampleIdx s <? _introBufSize s then left' < n \/ n = 0 else
     left' = n /\ _sampleIdx s' = _sampleIdx s).
Proof.
  intros Hn [Hi Hb Hl]. unfold read_intro.
  destruct (_sampleIdx s <? _introBufSize s) eqn:E.
  2:{ repeat split; auto; lia. }
  apply Z.ltb_lt in E.
  cbn [_sampleIdx _bufBlockMap _introBufSize _file set_sampleIdx set_readHead].
  destruct (_sampleIdx s + n >? _introBufSize s) eqn:E2.
  - apply Z.gtb_lt in E2.
    rewrite (usize_small (_introBufSize s - _sampleIdx s)) by lia.
    rewrite (u32_small (_introBufSize s - _sampleIdx s)) by lia.
    rewrite (u32_small (n - _)) by lia.
    repeat split; auto; try apply u32_range; lia.
  - rewrite Z.sub_diag. change (u32 0) with 0.
    repeat split; auto; try apply u32_range; lia.
Qed.

(** [read] moves the cursor and the read head only. *)
Lemma read_spec (s : t) (n : Z) :
  0 <= n < 2 ^ 32 -> typed s ->
  let s' := (read sz s n).2 in
  0 <= _sampleIdx s' < 2 ^ 32 /\
  _bufBlockMap s' = _bufBlockMap s /\
  _introBufSize s' = _introBufSize s /\
  _file s' = _file s.
Proof using Hsz.
  intros Hn Ht. unfold read.
  pose proof (read_intro_spec s n Hn Ht) as H1.
  destruct (read_intro sz s n) as [[s1 left1] out1].
  destruct H1 as (Hl1 & Hi1 & Hm1 & Hb1 & Hf1 & _).
  pose proof (read_cache_spec (Z.to_nat n) s1 left1 out1 ltac:(lia) Hi1) as H2.
  destruct (read_cache sz (Z.to_nat n) (s1, left1, out1)) as [[s2 left2] out2].
  destruct H2 as (Hl2 & Hi2 & Hm2 & Hb2 & Hf2). cbn [snd].
  repeat split; try congruence; lia.
Qed.

Lemma to_int_nonzero v : 0 < v < 2 ^ 32 -> to_int v <> 0.
Proof.
  intros Hv. unfold to_int, swrap.
  change (2 ^ (32 - 1)) with 2147483648. change (2 ^ 32) with 4294967296 in *.
  destruct (Z_lt_le_dec v 2147483648) as [Hlt|Hge].
  - rewrite Z.mod_small; lia.
  - replace (v + 2147483648) with (v - 2147483648 + 1 * 4294967296) by lia.
    rewrite Z.mod_add by lia. rewrite Z.mod_small; lia.
Qed.

Lemma read_block_none (s : t) (left : Z) (out : list byte) :
  read_block sz (s, left, out) = None <->
  find_block (_bufBlockMap s)
    (to_int (usize (_sampleIdx s - _introBufSize s) / SPB)) = None.
Proof.
  unfold read_block. destruct (find_block _ _); split; congruence.
Qed.

(** What [read] does at the end of the stream.  Setting the cursor to
    [sampleCount] or beyond leaves it at [sampleCount].  A [read] of a
    positive number of samples from there delivers 0 samples exactly when
    [sampleCount] is not inside the lead-in and no slot of the block map
    holds the block that contains sample [sampleCount]; [read] itself never
    looks at the sample count. *)
Lemma read_at_end_of_stream (s : t) (i n : Z) :
  typed s -> WavLoader.numSamples (_file s) <= i -> 0 < n < 2 ^ 32 ->
  let s1 := setSampleIndex i s in
  let sampleCount := WavLoader.numSamples (_file s) in
  sampleIndex s1 = sampleCount /\
  ((read sz s1 n).1.1 = 0 <->
   _introBufSize s <= sampleCount /\
   find_block (_bufBlockMap s)
              (to_int ((sampleCount - _introBufSize s) / SPB)) = None).
Proof using Hsz.
  intros Ht Hi Hn. cbv zeta. unfold setSampleIndex, sampleIndex.
  rewrite Z.min_r by exact Hi. cbn [_sampleIdx set_sampleIdx].
  split; [reflexivity|].
  set (N := WavLoader.numSamples (_file s)) in *.
  assert (Ht1 : typed (set_sampleIdx N s)).
  { destruct Ht as [H1 H2 H3]. constructor; cbn; auto. }
  unfold read.
  pose proof (read_intro_spec (set_sampleIdx N s) n ltac:(lia) Ht1) as H1.
  destruct (read_intro sz (set_sampleIdx N s) n) as [[s1 left1] out1] eqn:Eintro.
  cbn [_sampleIdx _introBufSize _bufBlockMap _file set_sampleIdx] in H1.
  destruct H1 as (Hl1 & Hi1 & Hm1 & Hb1 & Hf1 & Hcase).
  pose proof (read_cache_spec (Z.to_nat n) s1 left1 out1 ltac:(lia) Hi1) as H2.
  destruct (Z.ltb_spec N (_introBufSize s)) as [Hlt|Hge].
  - (* the cursor is inside the lead-in *)
    destruct (read_cache sz (Z.to_nat n) (s1, left1, out1)) as [[s2 left2] out2].
    destruct H2 as (Hl2 & _). cbn [fst].
    split; [|lia]. intros Hz. exfalso.
    rewrite u32_small in Hz by lia. revert Hz. apply to_int_nonzero. lia.
  - destruct Hcase as [-> Hidx].
    destruct (Z.to_nat n) as [|fuel] eqn:Efuel; [lia|].
    cbn [read_cache fst snd] in *.
    replace (n >? 0) with true in * by (symmetry; apply Z.gtb_lt; lia).
    assert (Hfb : usize (_sampleIdx s1 - _introBufSize s1) / SPB
                  = (N - _introBufSize s) / SPB).
    { rewrite Hidx, Hb1. rewrite usize_small; [reflexivity|].
      destruct Ht as [_ H3 H4]. unfold N, WavLoader.numSamples in *. lia. }
    destruct (read_block sz (s1, n, out1)) as [[[s2 left2] out2]|] eqn:Eb.
    + pose proof (read_block_spec s1 n out1 s2 left2 out2 Hn Eb) as (Hl2 & Hi2 & _).
      pose proof (read_cache_spec fuel s2 left2 out2 ltac:(lia) Hi2) as H3.
      destruct (read_cache sz fuel (s2, left2, out2)) as [[s3 left3] out3].
      destruct H3 as (Hl3 & _). cbn [fst].
      assert (Hsome : read_block sz (s1, n, out1) <> None) by congruence.
      rewrite read_block_none, Hfb, Hm1 in Hsome.
      split; [|intros [_ Hnone]; contradiction].
      intros Hz. exfalso.
      rewrite u32_small in Hz by lia. revert Hz. apply to_int_nonzero. lia.
    + cbn [fst]. rewrite Z.sub_diag.
      apply read_block_none in Eb. rewrite Hfb, Hm1 in Eb.
      split; [intros _; split; [lia | exact Eb] | reflexivity].
Qed.

(** *** [load] and the calls that follow *)

Lemma unmapped_distinct :
  distinct_blocks (replicate NumBlocks UnmappedBlock).
Proof. apply distinct_blocks3. auto. Qed.

(** A successful [load] leaves a loaded stream: cursor at 0, every slot
    unmapped. *)
Lemma load_loaded fuel (s0 : t) (file : FileWrapperPtr) (f0 : F) s f :
  typed s0 ->
  load sz fuel s0 file f0 = Ok (NoErr, s, f) ->
  loaded s /\ _sampleIdx s = 0 /\
  _bufBlockMap s = replicate NumBlocks UnmappedBlock.
Proof using Hsz.
  intros [Hi0 Hb0 Hl0]. unfold load.
  destruct (WavLoader.open fuel (_file s0) file f0) as [[[ok w] f1]| | | |] eqn:Eo;
    try discriminate.
  cbn [obind]. destruct ok; [|discriminate].
  apply WavLoaderFacts.open_length_range in Eo; [|exact Hl0].
  destruct (negb _); [discriminate|].
  unfold loadIntroBuffer, WavLoader.seek, WavLoader.read.
  cbn [_file set_file WavLoader._file WavLoader.set_position
       WavLoader._position].
  destruct (WavLoader._file w) eqn:Eptr; cbn [is_null obind]; [discriminate|].
  destruct (fw_seek _ f1) as [ok f2]. cbn [obind].
  cbn [_file set_file WavLoader._file WavLoader.set_position].
  rewrite Eptr. cbn [is_null].
  destruct (fw_read _ f2) as [data f3]. cbn [obind].
  pose proof (u32_range (nbytes data)) as Hnr.
  destruct (u32 (nbytes data) >? 0); cbn [obind]; intros [= <- <-].
  - split; [|split; reflexivity].
    constructor; [constructor| | |]; cbn; auto; try lia.
    + split; [apply Z.div_pos; lia|].
      apply Z.div_lt_upper_bound; lia.
    + intros [|[|[|j]]] Hj; cbn; unfold UnmappedBlock, NumBlocks, INT_MAX in *; lia.
  - split; [|split; reflexivity].
    constructor; [constructor| | |]; cbn; auto; try lia.
    intros [|[|[|j]]] Hj; cbn; unfold UnmappedBlock, NumBlocks, INT_MAX in *; lia.
Qed.

Lemma loaded_same_cache (s s' : t) :
  loaded s ->
  0 <= _sampleIdx s' < 2 ^ 32 ->
  _bufBlockMap s' = _bufBlockMap s ->
  _introBufSize s' = _introBufSize s ->
  _file s' = _file s ->
  loaded s'.
Proof.
  intros [[Hi Hb Hl] Hf Hlen Hr] Hi' Hm' Hb' Hf'.
  constructor; [constructor|..]; rewrite ?Hm', ?Hb', ?Hf'; auto.
Qed.

(** Every call of the driver on a loaded stream answers, and leaves a
    loaded stream whose blocks are distinct if they were. *)
Lemma do_call_loaded (c : call) (s : t) (f : F) :
  loaded s ->
  exists s' f',
    do_call sz c s f = Ok (s', f') /\ loaded s' /\
    (distinct_blocks (_bufBlockMap s) -> distinct_blocks (_bufBlockMap s')).
Proof using Hsz.
  intros Hl. pose proof (loaded_typed s Hl) as Ht.
  destruct Ht as [Hi Hb Hlen].
  destruct c as [|n|i|]; cbn [do_call].
  - destruct (prime_step s f Hl) as (filled & s' & f' & Hp & Hl' & Hd' & _).
    rewrite Hp. cbn [obind]. eauto.
  - pose proof (read_spec s (u32 n) (u32_range n) (loaded_typed s Hl))
      as (Hi' & Hm' & Hb' & Hf').
    exists (read sz s (u32 n)).2, f. split; [reflexivity|].
    split; [eapply loaded_same_cache; eauto|]. rewrite Hm'. auto.
  - exists (setSampleIndex (u32 i) s), f. split; [reflexivity|].
    split; [|auto]. pose proof (u32_range i).
    apply (loaded_same_cache s); auto.
    unfold setSampleIndex, WavLoader.numSamples. cbn. lia.
  - exists (reset s), f. split; [reflexivity|].
    split; [|auto]. apply (loaded_same_cache s); auto.
    unfold reset, setSampleIndex, WavLoader.numSamples. cbn. lia.
Qed.

Lemma run_loaded (calls : list call) (s : t) (f : F) :
  loaded s ->
  exists s' f',
    run sz calls s f = Ok (s', f') /\ loaded s' /\
    (distinct_blocks (_bufBlockMap s) -> distinct_blocks (_bufBlockMap s')).
Proof using Hsz.
  revert s f. induction calls as [|c calls IH]; intros s f Hl.
  - exists s, f. auto.
  - cbn [run].
    destruct (do_call_loaded c s f Hl) as (s1 & f1 & Hc & Hl1 & Hd1).
    rewrite Hc. cbn [obind].
    destruct (IH s1 f1 Hl1) as (s2 & f2 & Hr & Hl2 & Hd2).
    exists s2, f2. auto.
Qed.

(** C8.  A successful [load] marks every slot of the block map unmapped,
    and whatever calls of [prime], [read], [setSampleIndex] and [reset]
    follow, each of them answers and no two occupied slots of the block
    map hold the same file block. *)
Theorem blocks_stay_distinct
        fuel (s0 : t) (file : FileWrapperPtr) (f0 : F) s f (calls : list call) :
  typed s0 ->
  load sz fuel s0 file f0 = Ok (NoErr, s, f) ->
  _bufBlockMap s = replicate NumBlocks UnmappedBlock /\
  exists s' f',
    run sz calls s f = Ok (s', f') /\
    distinct_blocks (_bufBlockMap s').
Proof using Hsz.
  intros Ht Hload.
  destruct (load_loaded fuel s0 file f0 s f Ht Hload) as (Hl & _ & Hm).
  split; [exact Hm|].
  destruct (run_loaded calls s f Hl) as (s' & f' & Hr & _ & Hd).
  exists s', f'. split; [exact Hr|].
  apply Hd. rewrite Hm. apply unmapped_distinct.
Qed.

(** *** Repeated calls of [prime] *)

Lemma spread_nonneg r (m : list Z) : 0 <= spread r m.
Proof.
  unfold spread. induction m as [|v m IH]; cbn; [lia|].
  pose proof (Z.abs_nonneg (to_long (v - r))). lia.
Qed.

Lemma primes_add n k (s : t) (f : F) :
  primes sz (n + k) s f =
  let* (s1, f1) := primes sz n s f in primes sz k s1 f1.
Proof.
  revert s f. induction n as [|n IH]; intros s f; [reflexivity|].
  cbn [primes Nat.add].
  destruct (prime sz s f) as [[[b s1] f1]| | | |]; cbn [obind]; auto.
Qed.

Lemma prime_after_add n k (s : t) (f : F) s1 f1 :
  primes sz n s f = Ok (s1, f1) ->
  prime_after sz (n + k) s f = prime_after sz k s1 f1.
Proof.
  intros Hn. unfold prime_after. rewrite primes_add, Hn. reflexivity.
Qed.

(** Calls of [prime] from a loaded stream all answer; they keep the
    cursor and never take the block map further from the read head. *)
Lemma primes_loaded n (s : t) (f : F) :
  loaded s ->
  exists s' f',
    primes sz n s f = Ok (s', f') /\ loaded s' /\
    cache_view s' = cache_view s /\
    readHeadBlock sz s' = readHeadBlock sz s /\
    spread (readHeadBlock sz s) (_bufBlockMap s')
    <= spread (readHeadBlock sz s) (_bufBlockMap s).
Proof using Hsz.
  revert s f. induction n as [|n IH]; intros s f Hl.
  - exists s, f. split; [reflexivity|]. split; [exact Hl|].
    split; [reflexivity|]. split; [reflexivity|]. lia.
  - cbn [primes].
    destruct (prime_step s f Hl)
      as (filled & s1 & f1 & Hp & Hl1 & _ & Hv1 & Hr1 & Hsp).
    rewrite Hp. cbn [obind].
    destruct (IH s1 f1 Hl1) as (s2 & f2 & Hn & Hl2 & Hv2 & Hr2 & Hsp2).
    exists s2, f2. rewrite Hr1 in Hsp2.
    split; [exact Hn|]. split; [exact Hl2|].
    split; [congruence|]. split; [congruence|].
    destruct filled; [lia | rewrite Hsp in Hsp2; exact Hsp2].
Qed.

(** While no call reports a fill, the block map stays as it is. *)
Lemma primes_no_fill n (s : t) (f : F) :
  loaded s ->
  (forall j, (j < n)%nat ->
             exists s' f', prime_after sz j s f = Ok (false, s', f')) ->
  exists s' f',
    primes sz n s f = Ok (s', f') /\ _bufBlockMap s' = _bufBlockMap s.
Proof using Hsz.
  revert s f. induction n as [|n IH]; intros s f Hl Hall.
  - exists s, f. auto.
  - destruct (Hall 0%nat ltac:(lia)) as (s1 & f1 & H0).
    unfold prime_after in H0. cbn [primes obind] in H0.
    destruct (prime_step s f Hl)
      as (filled & s1' & f1' & Hp & Hl1 & _ & _ & _ & Hm).
    rewrite Hp in H0. injection H0 as -> -> ->.
    cbn [primes]. rewrite Hp. cbn [obind].
    destruct (IH s1 f1 Hl1) as (s2 & f2 & Hn & Hm2).
    { intros j Hj. destruct (Hall (S j) ltac:(lia)) as (s' & f' & Hj').
      unfold prime_after in Hj'. cbn [primes] in Hj'.
      rewrite Hp in Hj'. cbn [obind] in Hj'. eauto. }
    exists s2, f2. split; [exact Hn | congruence].
Qed.

Lemma primes_reach_fixed_point (k : nat) :
  forall (s : t) (f : F),
    loaded s ->
    spread (readHeadBlock sz s) (_bufBlockMap s) <= Z.of_nat k ->
    exists (N : nat) (m : list Z),
      forall n, (N <= n)%nat ->
        exists s' f',
          prime_after sz n s f = Ok (false, s', f') /\
          _sampleIdx s' = _sampleIdx s /\ _bufBlockMap s' = m.
Proof using Hsz.
  induction k as [|k IH]; intros s f Hl Hk.
  all: destruct (classic (forall n, exists s' f',
                             prime_after sz n s f = Ok (false, s', f')))
    as [Hall|Hsome].
  all: try (exists 0%nat, (_bufBlockMap s); intros n _;
            destruct (Hall n) as (s' & f' & Hn);
            destruct (primes_no_fill n s f Hl (fun j _ => Hall j))
              as (sn & fn & Hpn & Hmn);
            destruct (primes_loaded n s f Hl)
              as (sn' & fn' & Hpn' & Hln & Hvn & _);
            rewrite Hpn in Hpn'; injection Hpn' as <- <-;
            unfold prime_after in Hn; rewrite Hpn in Hn; cbn [obind] in Hn;
            destruct (prime_step sn fn Hln)
              as (b & s1 & f1 & Hp & _ & _ & Hv1 & _ & Hm1);
            rewrite Hp in Hn; injection Hn as -> -> ->;
            exists s', f'; split;
            [unfold prime_after; rewrite Hpn; exact Hp|];
            unfold cache_view in Hv1, Hvn;
            split; congruence).
  all: apply not_all_ex_not in Hsome; destruct Hsome as [n Hn].
  all: destruct (primes_loaded n s f Hl)
      as (sn & fn & Hpn & Hln & Hvn & Hrn & Hspn).
  all: destruct (prime_step sn fn Hln)
      as (b & s1 & f1 & Hp & Hl1 & _ & Hv1 & Hr1 & Hsp1).
  all: destruct b;
    [|exfalso; apply Hn; exists s1, f1; unfold prime_after;
      rewrite Hpn; exact Hp].
  all: rewrite Hrn in Hsp1.
  all: pose proof (spread_nonneg (readHeadBlock sz s) (_bufBlockMap s1)) as H0.
  - lia.
  - destruct (IH s1 f1 Hl1) as (N1 & m & Hfix).
    { rewrite Hr1, Hrn. lia. }
    exists (n + 1 + N1)%nat, m. intros n' Hn'.
    destruct (Hfix (n' - (n + 1))%nat ltac:(lia)) as (s' & f' & Hq & Hi & Hm).
    exists s', f'.
    replace n' with ((n + 1) + (n' - (n + 1)))%nat by lia.
    assert (Hn1 : primes sz (n + 1) s f = Ok (s1, f1)).
    { rewrite primes_add, Hpn. cbn [obind primes]. rewrite Hp. reflexivity. }
    rewrite (prime_after_add _ _ _ _ _ _ Hn1).
    split; [exact Hq|]. split; [|exact Hm].
    unfold cache_view in Hv1, Hvn. congruence.
Qed.

(** C9.  From every loaded stream, with the cursor where it is, there is
    a number of calls of [prime] after which every further call reports
    that no fill was performed, with the cursor and the block map the
    same at each of them. *)
Theorem prime_reaches_fixed_point (s : t) (f : F) :
  loaded s ->
  exists (N : nat) (m : list Z),
    forall n, (N <= n)%nat ->
      exists s' f',
        prime_after sz n s f = Ok (false, s', f') /\
        sampleIndex s' = sampleIndex s /\ _bufBlockMap s' = m.
Proof using Hsz.
  intros Hl.
  apply (primes_reach_fixed_point
           (Z.to_nat (spread (readHeadBlock sz s) (_bufBlockMap s))) s f Hl).
  pose proof (spread_nonneg (readHeadBlock sz s) (_bufBlockMap s)). lia.
Qed.

(** *** The lead-in read of [load] *)

(** C2, as amended.  When the container is accepted, its bit depth is
    that of the sample type and the read that fills the lead-in
    transfers at least one byte, [load] answers [NoErr], whether or not
    the read transferred as many bytes as were requested: the logical
    size of the lead-in is the number of whole samples obtained, the
    cursor is 0 and every slot is unmapped. *)
Theorem load_keeps_short_lead_in
        fuel (s : t) (file : FileWrapperPtr) (f : F) w f1 :
  WavLoader.open fuel (_file s) file f = Ok (true, w, f1) ->
  WavLoader.bitsPerSample w = sz * 8 ->
  let fileOffset := WavLoader.filePositionForSample w 0 in
  let requested := u32 (introBufBytes sz fileOffset) in
  let f2 := (fw_seek fileOffset f1).2 in
  let transferred := nbytes (fw_read requested f2).1 in
  0 < transferred ->
  exists s',
    load sz fuel s file f = Ok (NoErr, s', (fw_read requested f2).2) /\
    _introBufSize s' = transferred / sz /\
    _sampleIdx s' = 0 /\
    _bufBlockMap s' = replicate NumBlocks UnmappedBlock.
Proof.
  intros Hopen Hbits. cbv zeta. intros Hpos.
  pose proof (WavLoaderFacts.open_file_bound _ _ _ _ _ _ Hopen) as Hptr.
  unfold load. rewrite Hopen. cbn [obind].
  rewrite Hbits, Z.eqb_refl. cbn [negb].
  unfold loadIntroBuffer. cbn [_file set_file].
  rewrite WavLoaderFacts.seek_spec by exact Hptr. cbn [obind].
  unfold WavLoader.read. cbn [_file set_file WavLoader._file WavLoader.set_position].
  rewrite Hptr. cbn [is_null].
  change (WavLoader.filePositionForSample
            (WavLoader.set_position (WavLoader.filePositionForSample w 0) w) 0)
    with (WavLoader.filePositionForSample w 0).
  set (requested := u32 (introBufBytes sz (WavLoader.filePositionForSample w 0))) in *.
  set (f2 := (fw_seek (WavLoader.filePositionForSample w 0) f1).2) in *.
  pose proof (fw_read_le requested f2) as Hle.
  pose proof (u32_range (introBufBytes sz (WavLoader.filePositionForSample w 0))) as Hreq.
  fold requested in Hreq.
  destruct (fw_read requested f2) as [data f3]. cbn [fst snd] in *.
  cbn [obind]. rewrite (u32_small (nbytes data)) by lia.
  replace (nbytes data >? 0) with true by (symmetry; apply Z.gtb_lt; lia).
  cbn [obind]. eexists. split; [reflexivity|]. cbn. auto.
Qed.

(** [loadIntroBuffer] itself answers [BadFile] exactly when the read
    transfers no byte; [load] does not look at its answer. *)
Lemma loadIntroBuffer_BadFile (s : t) (f : F) e s' f' :
  loadIntroBuffer sz s f = Ok (e, s', f') ->
  let w := (_file s) in
  let fileOffset := WavLoader.filePositionForSample w 0 in
  let requested := u32 (introBufBytes sz fileOffset) in
  let f2 := (fw_seek fileOffset f).2 in
  (e = BadFile <-> nbytes (fw_read requested f2).1 = 0) /\
  (e = NoErr <-> 0 < nbytes (fw_read requested f2).1).
Proof.
  cbv zeta. unfold loadIntroBuffer, WavLoader.seek, WavLoader.read.
  cbn [WavLoader._file WavLoader.set_position WavLoader._position].
  destruct (is_null (WavLoader._file (_file s))); [discriminate|].
  destruct (fw_seek _ f) as [ok f2]. cbn [obind snd _file set_file].
  cbn [WavLoader._file WavLoader.set_position].
  destruct (is_null (WavLoader._file (_file s))); [discriminate|].
  change (WavLoader.filePositionForSample
            (WavLoader.set_position
               (WavLoader.filePositionForSample (_file s) 0) (_file s)) 0)
    with (WavLoader.filePositionForSample (_file s) 0).
  set (requested := u32 (introBufBytes sz
                           (WavLoader.filePositionForSample (_file s) 0))).
  pose proof (fw_read_le requested f2) as Hle.
  pose proof (u32_range (introBufBytes sz
                           (WavLoader.filePositionForSample (_file s) 0))) as Hreq.
  fold requested in Hreq.
  destruct (fw_read requested f2) as [data f3]. cbn [fst snd obind] in *.
  assert (0 <= nbytes data) by (unfold nbytes; lia).
  rewrite (u32_small (nbytes data)) by lia.
  destruct (Z.gtb_spec (nbytes data) 0); intros [= <- _ _];
    split; split; (congruence || lia).
Qed.
End Sampler.

(** *** The cursor setters *)

(** C10.  No call of [set_sample_index] has a result: for every stream and
    every index the call reaches the end of the function, which is declared
    [bool], without a [return].  The statements it runs before that are the
    ones the claim describes: they move the cursor to an index below the
    sample count and leave the stream as it is for any other index, where
    [setSampleIndex] clips the index to the sample count. *)
Theorem set_sample_index_reaches_end_without_return (s : t) (i : Z) :
  set_sample_index i s = NoReturn /\
  sample_index (set_sample_index_body i s) =
    (if i <? WavLoader.numSamples (_file s) then i else sample_index s) /\
  (if i <? WavLoader.numSamples (_file s)
   then set_sample_index_body i s = set_sampleIdx i s
   else set_sample_index_body i s = s) /\
  sampleIndex (setSampleIndex i s) =
    (if i <? WavLoader.numSamples (_file s)
     then i else WavLoader.numSamples (_file s)).
Proof.
  split; [reflexivity|].
  unfold set_sample_index_body, setSampleIndex, sample_index, sampleIndex.
  destruct (Z.ltb_spec i (WavLoader.numSamples (_file s))) as [Hlt|Hge];
    cbn [_sampleIdx set_sampleIdx]; repeat split; lia.
Qed.

(** *** The scenarios *)

Lemma typed_blank_stream : typed blank_stream.
Proof. constructor; vm_compute; split; congruence. Qed.

Lemma load_mono8_8158 :
  load 1 2 blank_stream wrapper_ptr (MemFile.of_bytes (mono8 8158))
  = Ok (NoErr, loaded_mono8 8158, storage_mono8 8158).
Proof. vm_compute. reflexivity. Qed.

Lemma loaded_mono8_8158 : loaded (loaded_mono8 8158).
Proof.
  destruct (load_loaded 1 ltac:(lia) 2 blank_stream wrapper_ptr
              (MemFile.of_bytes (mono8 8158)) _ _
              typed_blank_stream load_mono8_8158) as [Hl _].
  exact Hl.
Qed.

(** The one call of [prime] on [at_block_boundary], pass by pass. *)

Lemma at_block_boundary_readHeadBlock :
  readHeadBlock 1 at_block_boundary.1 = 0.
Proof. vm_compute. reflexivity. Qed.

Lemma at_block_boundary_map :
  _bufBlockMap at_block_boundary.1 = [2147483647; 2147483647; 2147483647].
Proof. vm_compute. reflexivity. Qed.

Lemma at_block_boundary_distance_0 :
  try_distance 1 0 0 0 (at_block_boundary.1, at_block_boundary.2)
  = inl after_distance_0.
Proof. vm_compute. reflexivity. Qed.

Lemma after_distance_0_end :
  WavLoader.numSamples (_file after_distance_0.1)
  - _introBufSize after_distance_0.1 = 0.
Proof. vm_compute. reflexivity. Qed.

Lemma at_block_boundary_prime :
  prime 1 at_block_boundary.1 at_block_boundary.2 =
  match for_nat (try_distance 1 0 0) (S (Z.to_nat 2147483646)) 0
                (at_block_boundary.1, at_block_boundary.2) with
  | inl (s, f) => Ok (false, s, f)
  | inr r => let* (s, f) := r in Ok (true, s, f)
  end.
Proof.
  unfold prime.
  rewrite at_block_boundary_readHeadBlock, at_block_boundary_map.
  change (furthest 0 [2147483647; 2147483647; 2147483647])
    with (0%nat, 2147483647).
  change (2147483647 >? 0) with true. cbv iota.
  rewrite for_loop_nat.
  assert (HS : Z.to_nat (2147483647 - 0) = S (Z.to_nat 2147483646)).
  { change (2147483647 - 0) with (Z.succ 2147483646).
    apply Z2Nat.inj_succ. lia. }
  rewrite HS. reflexivity.
Qed.

Lemma after_distance_0_stationary :
  for_nat (try_distance 1 0 0) (Z.to_nat 2147483646) (0 + 1) after_distance_0
  = inl after_distance_0.
Proof.
  apply for_nat_stationary. intros i Hi.
  rewrite (surjective_pairing after_distance_0) at 1 2.
  apply try_distance_out_of_range; [lia|].
  rewrite after_distance_0_end.
  change (usize 0) with 0. change (SamplesPerBlock 1) with 4096.
  rewrite usize_small; lia.
Qed.

(** C1.  Two streams on which one call of [prime] makes two storage reads
    and two seeks.  On a healthy storage, over a container whose data ends
    where the lead-in ends, block 0 is in range and its read comes back
    empty: [prime] tries it at offset +0, tries it again at offset -0, and
    reports no fill.  On a storage that transfers nothing on one read (the
    seventh since the file was opened, the first that [prime] makes) the
    second try of block 0 succeeds and [prime] reports a fill, after two
    reads. *)
Theorem prime_reads_again_after_empty_read :
  (exists s' f',
     prime 1 at_block_boundary.1 at_block_boundary.2 = Ok (false, s', f') /\
     FlakyFile.reads at_block_boundary.2 = 6%nat /\
     FlakyFile.seeks at_block_boundary.2 = 3%nat /\
     FlakyFile.reads f' = 8%nat /\
     FlakyFile.seeks f' = 5%nat) /\
  (let* (e, s, f) :=
     load 1 2 blank_stream wrapper_ptr
          (FlakyFile.of_bytes (mono8 20000) [6%nat]) in
   let* (filled, s1, f1) := prime 1 s f in
   Ok (e, FlakyFile.reads f, FlakyFile.seeks f,
       filled, FlakyFile.reads f1, FlakyFile.seeks f1, _bufBlockMap s1))
  = Ok (NoErr, 6%nat, 3%nat, true, 8%nat, 5%nat,
        [0; UnmappedBlock; UnmappedBlock]).
Proof.
  split; [|vm_compute; reflexivity].
  exists after_distance_0.1, after_distance_0.2.
  split; [|repeat split; vm_compute; reflexivity].
  rewrite at_block_boundary_prime, for_nat_S, at_block_boundary_distance_0.
  cbv iota. rewrite after_distance_0_stationary.
  rewrite (surjective_pairing after_distance_0) at 1. reflexivity.
Qed.

(** C5.  A stream of 8 blocks behind the lead-in holds blocks 0, 1 and 7
    with the read head in block 7, the last one.  Slot 0 is the furthest,
    at distance 7, and block 6, behind the read head at distance 1, is in
    range and in no slot; yet [prime] reports no fill: at every distance
    the block ahead is out of range, and the loop over the signs is left
    before the block behind is looked at. *)
Theorem prime_gives_up_on_blocks_behind :
  (let* (_, s, f) :=
     load 1 2 blank_stream wrapper_ptr (MemFile.of_bytes (mono8 36830)) in
   let* (s, f) := run 1 [Prime; Prime; SetSampleIndex 36820; Prime] s f in
   let* (filled, s', _) := prime 1 s f in
   Ok (_bufBlockMap s, readHeadBlock 1 s,
       furthest (readHeadBlock 1 s) (_bufBlockMap s),
       block_mapped (_bufBlockMap s) 6,
       6 * SamplesPerBlock 1
         <=? WavLoader.numSamples (_file s) - _introBufSize s,
       filled, _bufBlockMap s'))
  = Ok ([0; 1; 7], 7, (0%nat, 7), false, true, false, [0; 1; 7]).
Proof. vm_compute. reflexivity. Qed.

(** C2: a container of 20 samples.  The read that fills the lead-in asks
    for 8148 bytes and transfers 20, and [load] answers [NoErr] with a
    lead-in of 20 samples. *)
Lemma load_short_read_is_NoErr :
  exists w f1 s' f',
    WavLoader.open 2 (_file blank_stream) wrapper_ptr
      (MemFile.of_bytes (mono8 20)) = Ok (true, w, f1) /\
    u32 (introBufBytes 1 (WavLoader.filePositionForSample w 0)) = 8148 /\
    nbytes (fw_read 8148 (fw_seek (WavLoader.filePositionForSample w 0) f1).2).1
      = 20 /\
    load 1 2 blank_stream wrapper_ptr (MemFile.of_bytes (mono8 20))
      = Ok (NoErr, s', f') /\
    _introBufSize s' = 20.
Proof.
  do 4 eexists. split; [vm_compute; reflexivity|].
  split; [vm_compute; reflexivity|].
  split; [vm_compute; reflexivity|].
  split; vm_compute; reflexivity.
Qed.

(** The theorem at that container. *)
Lemma load_keeps_short_lead_in_witness :
  exists s' f',
    load 1 2 blank_stream wrapper_ptr (MemFile.of_bytes (mono8 20))
      = Ok (NoErr, s', f') /\
    _introBufSize s' = 20 / 1.
Proof.
  destruct (load_keeps_short_lead_in (F := MemFile.t) 1 2 blank_stream
              wrapper_ptr (MemFile.of_bytes (mono8 20))
              (WavLoader.mk (format_bytes (pcm 1 8000 1)) wrapper_ptr 0 20 44 64)
              (MemFile.mk (mono8 20) 44 true))
    as (s' & Hload & Hsize & _).
  - vm_compute. reflexivity.
  - vm_compute. reflexivity.
  - vm_compute. reflexivity.
  - exists s'. eexists. split; [exact Hload|].
    rewrite Hsize. vm_compute. reflexivity.
Defined.

(** C3.  A container of 8158 one-byte samples, all of value 1, of which the
    lead-in holds 8148.  One call of [prime] caches block 0: it asks the
    storage for a block and the storage, now at the end of the file (byte
    8202), has transferred the last 10 samples.  With the cursor then set to
    9000, which clips to the sample count 8158, a [read] of 5 samples
    delivers 5 samples, not 0: they are the 5 bytes of the ring buffer behind
    the 10 that [prime] wrote, bytes of value 0 that never came from the
    file, and the cursor ends at 8163, behind the sample count. *)
Theorem read_at_end_delivers_stale_samples :
  (let* (filled, s, f) := prime 1 (loaded_mono8 8158) (storage_mono8 8158) in
   let s1 := setSampleIndex 9000 s in
   Ok (filled, WavLoader.numSamples (_file s), _introBufSize s,
       _bufBlockMap s, MemFile.pos f, sampleIndex s1,
       (read 1 s1 5).1, sampleIndex (read 1 s1 5).2))
  = Ok (true, 8158, 8148, [0; UnmappedBlock; UnmappedBlock], 8202, 8158,
        (5, replicate 5 "000"%byte), 8163).
Proof. vm_compute. reflexivity. Qed.

(** [read_at_end_of_stream] at the same stream before any call of [prime]:
    nothing is delivered. *)
Lemma read_at_end_of_stream_witness :
  sampleIndex (setSampleIndex 9000 (loaded_mono8 8158)) = 8158 /\
  (read 1 (setSampleIndex 9000 (loaded_mono8 8158)) 5).1.1 = 0.
Proof.
  pose proof (read_at_end_of_stream 1 ltac:(lia) (loaded_mono8 8158) 9000 5
                (loaded_typed _ loaded_mono8_8158)
                ltac:(vm_compute; congruence) ltac:(lia)) as [Hidx Hread].
  split; [exact Hidx|].
  apply Hread. split; vm_compute; [congruence | reflexivity].
Defined.

(** The theorem at a container of 8158 samples and five calls. *)
Lemma blocks_stay_distinct_witness :
  exists s' f',
    run 1 [Prime; Read 100; SetSampleIndex 8150; Prime; Read 4]
        (loaded_mono8 8158) (storage_mono8 8158) = Ok (s', f') /\
    distinct_blocks (_bufBlockMap s').
Proof.
  apply (blocks_stay_distinct (F := MemFile.t) 1 ltac:(lia) 2 blank_stream
           wrapper_ptr (MemFile.of_bytes (mono8 8158))
           (loaded_mono8 8158) (storage_mono8 8158)
           [Prime; Read 100; SetSampleIndex 8150; Prime; Read 4]
           typed_blank_stream load_mono8_8158).
Defined.

(** The theorem at the stream loaded from a container of 8158 samples. *)
Lemma prime_reaches_fixed_point_witness :
  exists (N : nat) (m : list Z),
    forall n, (N <= n)%nat ->
      exists s' f',
        prime_after 1 n (loaded_mono8 8158) (storage_mono8 8158)
          = Ok (false, s', f') /\
        sampleIndex s' = sampleIndex (loaded_mono8 8158) /\
        _bufBlockMap s' = m.
Proof.
  apply (prime_reaches_fixed_point (F := MemFile.t) 1 ltac:(lia)
           (loaded_mono8 8158) (storage_mono8 8158) loaded_mono8_8158).
Defined.
End AudioSamplerStreamFacts.

(** * Further properties of the code

    Properties read off the source: what the error paths leave behind,
    what each call keeps, round trips through the container, and the
    coherence of the cache with the file. *)

(** ** The container reader *)

Module WavLoaderMore.
Import WavLoader WavLoaderFacts.

(** X1.  [filePositionForSample] is monotone in the sample index and
    constant from the sample count on, as long as the byte offset of the end
    of the data fits [uint32_t]. *)
Theorem filePositionForSample_monotone (w : t) (i j : Z) :
  0 <= _data_offset w -> 0 <= numSamples w ->
  _data_offset w + numSamples w * frameAlignment w < 2 ^ 32 ->
  0 <= i <= j ->
  filePositionForSample w i <= filePositionForSample w j /\
  (numSamples w <= i ->
   filePositionForSample w i = _data_offset w + numSamples w * frameAlignment w).
Proof.
  intros Hoff Hn Hfit Hij. unfold filePositionForSample.
  rewrite !MIN_spec. pose proof (frameAlignment_nonneg w) as Hfa.
  assert (Hb : forall k, 0 <= k ->
               0 <= _data_offset w + Z.min k (numSamples w) * frameAlignment w
               < 2 ^ 32) by (intros k Hk; nia).
  rewrite !u32_small by (apply Hb; lia).
  split; [nia|]. intros Hge. rewrite Z.min_r by lia. reflexivity.
Qed.

Lemma filePositionForSample_monotone_witness :
  filePositionForSample (mk (format_bytes (pcm 1 8000 2)) wrapper_ptr 0 100 44 244) 10
  <= filePositionForSample (mk (format_bytes (pcm 1 8000 2)) wrapper_ptr 0 100 44 244) 250.
Proof.
  apply (filePositionForSample_monotone
           (mk (format_bytes (pcm 1 8000 2)) wrapper_ptr 0 100 44 244) 10 250);
    vm_compute; intuition congruence.
Defined.


Section Storage.
Context {F : Type} `{FileWrapper F}.

Lemma scan_chunk_failed_closed (w : t) (f : F) w1 f1 :
  scan_chunk w f = Ok (Failed w1 f1) -> exists f2, f1 = fw_close f2.
Proof.
  unfold scan_chunk.
  destruct (fw_read sizeof_header f) as [hdr f0].
  destruct (negb _); [intros [= _ <-]; eauto|].
  destruct (bytes_eqb (chunk_tag hdr) FMT_TAG).
  - destruct (fw_read sizeof_format f0) as [payload f2].
    destruct (negb _); cbn [obind]; [intros [= _ <-]; eauto|].
    destruct (_ <=? _); [discriminate|].
    destruct (fw_seek _ f2) as [[] f3]; [discriminate|intros [= _ <-]; eauto].
  - destruct (bytes_eqb (chunk_tag hdr) DATA_TAG).
    + destruct (frameAlignment w =? 0); [discriminate|]. cbn [obind].
      destruct (_ <=? _); [discriminate|].
      destruct (fw_seek _ f0) as [[] f3]; [discriminate|intros [= _ <-]; eauto].
    + cbn [obind]. destruct (_ <=? _); [discriminate|].
      destruct (fw_seek _ f0) as [[] f3]; [discriminate|intros [= _ <-]; eauto].
Qed.

Lemma scan_chunks_false_closed fuel (w : t) (f : F) w' f' :
  scan_chunks fuel w f = Ok (false, w', f') -> exists f2, f' = fw_close f2.
Proof.
  revert w f. induction fuel as [|fuel IH]; intros w f; [discriminate|].
  cbn [scan_chunks].
  destruct (scan_chunk w f) as [r| | | |] eqn:Er; try discriminate.
  cbn [obind]. destruct r as [w1 f1|w1 f1|w1 f1].
  - intros [= _ <-]. eapply scan_chunk_failed_closed. exact Er.
  - discriminate.
  - apply IH.
Qed.

Lemma scan_chunk_file_size (w : t) (f : F) (r : chunk_step F) :
  scan_chunk w f = Ok r -> _file_size (loader_of r) = _file_size w.
Proof.
  unfold scan_chunk.
  destruct (fw_read sizeof_header f) as [hdr f1].
  destruct (negb _); [intros [= <-]; reflexivity|].
  destruct (bytes_eqb (chunk_tag hdr) FMT_TAG).
  - destruct (fw_read sizeof_format f1) as [payload f2].
    destruct (negb _); cbn [obind]; [intros [= <-]; reflexivity|].
    destruct (_ <=? _); [intros [= <-]; reflexivity|].
    destruct (fw_seek _ f2) as [[] f3]; intros [= <-]; reflexivity.
  - destruct (bytes_eqb (chunk_tag hdr) DATA_TAG).
    + destruct (frameAlignment w =? 0); [discriminate|]. cbn [obind].
      destruct (_ <=? _); [intros [= <-]; reflexivity|].
      destruct (fw_seek _ f1) as [[] f3]; intros [= <-]; reflexivity.
    + cbn [obind].
      destruct (_ <=? _); [intros [= <-]; reflexivity|].
      destruct (fw_seek _ f1) as [[] f3]; intros [= <-]; reflexivity.
Qed.

Lemma scan_chunks_file_size fuel (w : t) (f : F) ok w' f' :
  scan_chunks fuel w f = Ok (ok, w', f') -> _file_size w' = _file_size w.
Proof.
  revert w f. induction fuel as [|fuel IH]; intros w f; [discriminate|].
  cbn [scan_chunks].
  destruct (scan_chunk w f) as [r| | | |] eqn:Er; try discriminate.
  apply scan_chunk_file_size in Er. cbn [obind].
  destruct r as [w1 f1|w1 f1|w1 f1]; cbn [loader_of] in Er.
  - intros [= _ <- _]. exact Er.
  - intros [= _ <- _]. exact Er.
  - intros Hr. apply IH in Hr. congruence.
Qed.

(** X2.  What a refused [open] leaves behind.  When the storage could not
    be opened or rewound, the loader is unbound again and the storage is not
    closed by the loader; in every other case the loader stays bound to the
    storage and closing the storage was the last thing done to it. *)
Theorem open_refused (fuel : nat) (w : t) (f : F) w' f' :
  open fuel w wrapper_ptr f = Ok (false, w', f') ->
  (_file w' = nullptr /\
   ((fw_open f).1 = false /\ f' = (fw_open f).2 \/
    (fw_open f).1 = true /\ (fw_seek 0 (fw_open f).2).1 = false /\
    f' = (fw_seek 0 (fw_open f).2).2)) \/
  (_file w' = wrapper_ptr /\ exists f2, f' = fw_close f2).
Proof.
  unfold open. cbn [is_null].
  destruct (fw_open f) as [didOpen f1]. cbn [fst snd].
  destruct didOpen; cbn [negb]; [|intros [= <- <-]; left; auto].
  destruct (fw_seek 0 f1) as [ok f2]. cbn [fst snd].
  destruct ok; cbn [negb]; [|intros [= <- <-]; left; split; [reflexivity|]; right; auto].
  destruct (fw_read sizeof_header f2) as [header f3].
  destruct (negb (nbytes header =? sizeof_header));
    [intros [= <- <-]; right; eauto|].
  destruct (negb (bytes_eqb (chunk_tag header) RIFF_TAG));
    [intros [= <- <-]; right; eauto|].
  destruct (fw_read sizeof_tag f3) as [format_tag f4].
  destruct (negb (nbytes format_tag =? sizeof_tag));
    [intros [= <- <-]; right; eauto|].
  destruct (negb (bytes_eqb format_tag WAVE_TAG));
    [intros [= <- <-]; right; eauto|].
  destruct (scan_chunks fuel _ f4) as [[[ok w1] f5]| | | |] eqn:Escan;
    try discriminate.
  cbn [obind]. destruct ok; [discriminate|]. intros [= <- <-]. right.
  split.
  - apply scan_chunks_file in Escan. rewrite Escan. reflexivity.
  - eapply scan_chunks_false_closed. exact Escan.
Qed.

End Storage.

(** The theorem at a file that does not start with a RIFF header. *)
Lemma open_refused_witness :
  exists f2,
    MemFile.mk (replicate 20 "001"%byte) 8 false = fw_close (F := MemFile.t) f2.
Proof.
  destruct (open_refused 3 (construct 0) (MemFile.of_bytes (replicate 20 "001"%byte))
              (mk (replicate 16 "000"%byte) wrapper_ptr 0 0 0 0)
              (MemFile.mk (replicate 20 "001"%byte) 8 false))
    as [[Hnull _]|[_ Hclosed]].
  - vm_compute. reflexivity.
  - discriminate Hnull.
  - exact Hclosed.
Defined.


(** *** Files in memory *)

Lemma sub_sub_prefix (content : list byte) (a b n : nat) :
  (a + b <= n)%nat -> sub a b (sub 0 n content) = sub a b content.
Proof.
  intros Hab. unfold sub. rewrite drop_0.
  rewrite take_drop_commute, take_take, Nat.min_l by lia.
  rewrite <- take_drop_commute. reflexivity.
Qed.

Lemma bytes_eqb_false (a b : list byte) : bytes_eqb a b = false <-> a <> b.
Proof.
  rewrite <- bytes_eqb_eq. destruct (bytes_eqb a b); split; congruence.
Qed.

(** X3.  A file in memory that [open] accepts starts with the tag RIFF, has
    the tag WAVE at byte 8, and leaves the loader with the file size the RIFF
    header declares (its length field plus the 8 bytes of the header) and
    with the read cursor at 0. *)
Theorem open_accepts_riff_wave
        (fuel : nat) (w : t) (wrapper : FileWrapperPtr) (content : list byte) w' f' :
  open fuel w wrapper (MemFile.of_bytes content) = Ok (true, w', f') ->
  sub 0 4 content = RIFF_TAG /\ sub 8 4 content = WAVE_TAG /\
  fileSize w' = u32 (8 + le_decode (sub 4 4 content)) /\
  position w' = 0.
Proof.
  unfold open. destruct wrapper; cbn [is_null]; [discriminate|].
  change (fw_open (MemFile.of_bytes content))
    with (true, MemFile.mk content 0 true).
  cbv iota. cbn [negb].
  change (fw_seek 0 (MemFile.mk content 0 true))
    with (true, MemFile.mk content 0 true).
  cbv iota. cbn [negb].
  change (fw_read sizeof_header (MemFile.mk content 0 true))
    with (sub 0 8 content,
          MemFile.mk content (0 + nbytes (sub 0 8 content)) true).
  cbv iota.
  destruct (nbytes (sub 0 8 content) =? sizeof_header) eqn:Elen;
    cbn [negb]; [|discriminate].
  apply Z.eqb_eq in Elen. rewrite Elen.
  destruct (bytes_eqb (chunk_tag (sub 0 8 content)) RIFF_TAG) eqn:Eriff;
    cbn [negb]; [|discriminate].
  apply bytes_eqb_eq in Eriff.
  change (fw_read sizeof_tag (MemFile.mk content (0 + sizeof_header) true))
    with (sub 8 4 content,
          MemFile.mk content (0 + sizeof_header + nbytes (sub 8 4 content)) true).
  cbv iota.
  destruct (negb (nbytes (sub 8 4 content) =? sizeof_tag)); [discriminate|].
  destruct (bytes_eqb (sub 8 4 content) WAVE_TAG) eqn:Ewave;
    cbn [negb]; [|discriminate].
  apply bytes_eqb_eq in Ewave.
  destruct (scan_chunks fuel _ _) as [[[ok w1] f5]| | | |] eqn:Escan;
    try discriminate.
  cbn [obind]. destruct ok; [|discriminate]. intros [= <- <-].
  apply scan_chunks_file_size in Escan.
  unfold chunk_tag in Eriff. rewrite sub_sub_prefix in Eriff by lia.
  unfold fileSize, position. cbn [set_position _file_size _position].
  rewrite Escan. cbn [set_file_size _file_size].
  unfold chunk_size. rewrite sub_sub_prefix by lia.
  auto.
Qed.

Lemma open_accepts_riff_wave_witness :
  sub 0 4 (mono16 100) = RIFF_TAG /\ sub 8 4 (mono16 100) = WAVE_TAG.
Proof.
  destruct (open_accepts_riff_wave 2 (construct 0) wrapper_ptr (mono16 100)
              (mk (format_bytes (pcm 1 8000 2)) wrapper_ptr 0 100 44 244)
              (MemFile.mk (mono16 100) 44 true))
    as (Hriff & Hwave & _).
  - vm_compute. reflexivity.
  - split; assumption.
Defined.

(** X4.  A file in memory that is shorter than the 12 bytes of the RIFF
    header and type tag, or does not carry the tags RIFF and WAVE there, is
    refused whatever the fuel: [open] answers false, without a fault, with
    the loader's sample count and format as they were, and the file closed;
    a read through the loader then transfers nothing. *)
Theorem open_refuses_bad_magic (fuel : nat) (w : t) (content : list byte) :
  (length content < 12)%nat \/ sub 0 4 content <> RIFF_TAG \/
  sub 8 4 content <> WAVE_TAG ->
  exists w' f',
    open fuel w wrapper_ptr (MemFile.of_bytes content) = Ok (false, w', f') /\
    MemFile.opened f' = false /\
    _length w' = _length w /\ _format w' = _format w /\
    forall bufSize, read w' bufSize f' = Ok (0, [], f').
Proof.
  intros Hbad. unfold open. cbn [is_null].
  change (fw_open (MemFile.of_bytes content))
    with (true, MemFile.mk content 0 true).
  cbv iota. cbn [negb].
  change (fw_seek 0 (MemFile.mk content 0 true))
    with (true, MemFile.mk content 0 true).
  cbv iota. cbn [negb].
  change (fw_read sizeof_header (MemFile.mk content 0 true))
    with (sub 0 8 content,
          MemFile.mk content (0 + nbytes (sub 0 8 content)) true).
  cbv iota.
  destruct (nbytes (sub 0 8 content) =? sizeof_header) eqn:Elen; cbn [negb].
  2:{ do 2 eexists. split; [reflexivity|]. repeat split. }
  apply Z.eqb_eq in Elen. rewrite Elen.
  destruct (bytes_eqb (chunk_tag (sub 0 8 content)) RIFF_TAG) eqn:Eriff;
    cbn [negb].
  2:{ do 2 eexists. split; [reflexivity|]. repeat split. }
  apply bytes_eqb_eq in Eriff.
  unfold chunk_tag in Eriff. rewrite sub_sub_prefix in Eriff by lia.
  change (fw_read sizeof_tag (MemFile.mk content (0 + sizeof_header) true))
    with (sub 8 4 content,
          MemFile.mk content (0 + sizeof_header + nbytes (sub 8 4 content)) true).
  cbv iota.
  destruct (nbytes (sub 8 4 content) =? sizeof_tag) eqn:Elen2; cbn [negb].
  2:{ do 2 eexists. split; [reflexivity|]. repeat split. }
  destruct (bytes_eqb (sub 8 4 content) WAVE_TAG) eqn:Ewave; cbn [negb].
  2:{ do 2 eexists. split; [reflexivity|]. repeat split. }
  exfalso. apply bytes_eqb_eq in Ewave. apply Z.eqb_eq in Elen2.
  destruct Hbad as [Hshort|[Hr|Hw]]; try contradiction.
  unfold nbytes, sub in Elen2. rewrite length_take, length_drop in Elen2.
  unfold sizeof_tag in Elen2. lia.
Qed.

Lemma open_refuses_bad_magic_witness :
  exists w' f',
    open 0 (construct 0) wrapper_ptr (MemFile.of_bytes (replicate 20 "001"%byte))
      = Ok (false, w', f') /\ MemFile.opened f' = false.
Proof.
  destruct (open_refuses_bad_magic 0 (construct 0) (replicate 20 "001"%byte))
    as (w' & f' & Ho & Hc & _).
  - right. left. vm_compute. congruence.
  - exists w', f'. split; assumption.
Defined.


(** A pass of the chunk loop that goes on to a next chunk has read a whole
    header and leaves the file positioned behind it. *)
Lemma scan_chunk_advances (w : t) (content : list byte) (p : Z) w1 f1 :
  0 <= p -> nbytes content < 2 ^ 32 ->
  scan_chunk w (MemFile.mk content p true) = Ok (Continue w1 f1) ->
  exists p', f1 = MemFile.mk content p' true /\ p + 8 <= p' /\
             p + 8 <= nbytes content.
Proof.
  intros Hp Hsmall. unfold scan_chunk.
  change (fw_read sizeof_header (MemFile.mk content p true))
    with (sub (Z.to_nat p) 8 content,
          MemFile.mk content (p + nbytes (sub (Z.to_nat p) 8 content)) true).
  cbv iota. set (hdr := sub (Z.to_nat p) 8 content).
  destruct (nbytes hdr =? sizeof_header) eqn:Elen; cbn [negb]; [|discriminate].
  apply Z.eqb_eq in Elen. rewrite Elen. unfold sizeof_header in *.
  assert (Hroom : p + 8 <= nbytes content).
  { unfold hdr, nbytes, sub in *. rewrite length_take, length_drop in Elen. lia. }
  change (fw_position (MemFile.mk content (p + 8) true)) with (p + 8).
  pose proof (chunk_size_range hdr) as Hsize.
  rewrite to_long_small by lia.
  assert (Hseek : forall q,
             fw_seek (usize (p + 8 + chunk_size hdr)) (MemFile.mk content q true)
             = (true, MemFile.mk content (p + 8 + chunk_size hdr) true)).
  { intros q. rewrite usize_small by lia. reflexivity. }
  destruct (bytes_eqb (chunk_tag hdr) FMT_TAG).
  - change (fw_read sizeof_format (MemFile.mk content (p + 8) true))
      with (sub (Z.to_nat (p + 8)) 16 content,
            MemFile.mk content
              (p + 8 + nbytes (sub (Z.to_nat (p + 8)) 16 content)) true).
    cbv iota. destruct (negb _); cbn [obind]; [discriminate|].
    destruct (_ <=? _); [discriminate|]. rewrite Hseek.
    intros [= _ <-]. exists (p + 8 + chunk_size hdr). repeat split; lia.
  - destruct (bytes_eqb (chunk_tag hdr) DATA_TAG).
    + destruct (frameAlignment w =? 0); [discriminate|]. cbn [obind].
      destruct (_ <=? _); [discriminate|]. rewrite Hseek.
      intros [= _ <-]. exists (p + 8 + chunk_size hdr). repeat split; lia.
    + cbn [obind]. destruct (_ <=? _); [discriminate|]. rewrite Hseek.
      intros [= _ <-]. exists (p + 8 + chunk_size hdr). repeat split; lia.
Qed.

Lemma scan_chunk_fuel `{FileWrapper F} (w : t) (f : F) :
  scan_chunk w f <> OutOfFuel.
Proof.
  unfold scan_chunk. destruct (fw_read sizeof_header f) as [hdr f1].
  destruct (negb _); [discriminate|].
  destruct (bytes_eqb (chunk_tag hdr) FMT_TAG).
  - destruct (fw_read sizeof_format f1) as [payload f2].
    destruct (negb _); cbn [obind]; [discriminate|].
    destruct (_ <=? _); [discriminate|].
    destruct (fw_seek _ _) as [[] ?]; discriminate.
  - destruct (bytes_eqb (chunk_tag hdr) DATA_TAG).
    + destruct (frameAlignment w =? 0); cbn [obind]; [discriminate|].
      destruct (_ <=? _); [discriminate|].
      destruct (fw_seek _ _) as [[] ?]; discriminate.
    + cbn [obind]. destruct (_ <=? _); [discriminate|].
      destruct (fw_seek _ _) as [[] ?]; discriminate.
Qed.

Lemma scan_chunks_unfold `{FileWrapper F} (k : nat) (w : t) (f : F) :
  scan_chunks (S k) w f
  = let* r := scan_chunk w f in
    match r with
    | Failed w f => Ok (false, w, f)
    | Finished w f => Ok (true, w, f)
    | Continue w f => scan_chunks k w f
    end.
Proof. reflexivity. Qed.

Lemma scan_chunks_terminates (content : list byte) (fuel : nat) :
  nbytes content < 2 ^ 32 ->
  forall (w : t) (p : Z),
    0 <= p -> nbytes content - p < 8 * Z.of_nat fuel ->
    scan_chunks (S fuel) w (MemFile.mk content p true) <> OutOfFuel.
Proof.
  intros Hsmall. induction fuel as [|fuel IH]; intros w p Hp Hleft.
  - rewrite scan_chunks_unfold.
    pose proof (scan_chunk_fuel w (MemFile.mk content p true)) as Hfuel.
    destruct (scan_chunk w (MemFile.mk content p true)) as [r| | | |] eqn:Er;
      cbn [obind]; try discriminate; try contradiction.
    destruct r as [w1 f1|w1 f1|w1 f1]; cbv iota; try discriminate.
    apply scan_chunk_advances in Er; [|lia|lia].
    destruct Er as (p' & _ & _ & Hroom). lia.
  - rewrite scan_chunks_unfold.
    pose proof (scan_chunk_fuel w (MemFile.mk content p true)) as Hfuel.
    destruct (scan_chunk w (MemFile.mk content p true)) as [r| | | |] eqn:Er;
      cbn [obind]; try discriminate; try contradiction.
    destruct r as [w1 f1|w1 f1|w1 f1]; cbv iota; try discriminate.
    apply scan_chunk_advances in Er; [|lia|lia].
    destruct Er as (p' & -> & Hadv & Hroom). apply IH; lia.
Qed.

(** X5.  [open] terminates on every file in memory of less than 4 GiB: with
    more fuel than an eighth of the length of the file, it does not run out
    of fuel.  Every chunk visited costs the 8 bytes of its header. *)
Theorem open_terminates
        (fuel : nat) (w : t) (wrapper : FileWrapperPtr) (content : list byte) :
  nbytes content < 2 ^ 32 ->
  (length content / 8 < fuel)%nat ->
  open fuel w wrapper (MemFile.of_bytes content) <> OutOfFuel.
Proof.
  intros Hsmall Hfuel. unfold open.
  destruct wrapper; cbn [is_null]; [discriminate|].
  change (fw_open (MemFile.of_bytes content))
    with (true, MemFile.mk content 0 true).
  cbv iota. cbn [negb].
  change (fw_seek 0 (MemFile.mk content 0 true))
    with (true, MemFile.mk content 0 true).
  cbv iota. cbn [negb].
  change (fw_read sizeof_header (MemFile.mk content 0 true))
    with (sub 0 8 content,
          MemFile.mk content (0 + nbytes (sub 0 8 content)) true).
  cbv iota.
  destruct (nbytes (sub 0 8 content) =? sizeof_header) eqn:E8; cbn [negb];
    [|discriminate].
  apply Z.eqb_eq in E8. rewrite E8. unfold sizeof_header in *.
  destruct (negb (bytes_eqb _ RIFF_TAG)); [discriminate|].
  change (fw_read sizeof_tag (MemFile.mk content (0 + 8) true))
    with (sub 8 4 content,
          MemFile.mk content (0 + 8 + nbytes (sub 8 4 content)) true).
  cbv iota.
  destruct (nbytes (sub 8 4 content) =? sizeof_tag) eqn:E4; cbn [negb];
    [|discriminate].
  apply Z.eqb_eq in E4. rewrite E4. unfold sizeof_tag in *.
  destruct (negb (bytes_eqb _ WAVE_TAG)); [discriminate|].
  destruct fuel as [|fuel]; [lia|].
  set (w1 := set_file_size _ _).
  pose proof (scan_chunks_terminates content fuel Hsmall w1 (0 + 8 + 4))
    as Hterm.
  destruct (scan_chunks (S fuel) w1 (MemFile.mk content (0 + 8 + 4) true))
    as [[[ok w2] f2]| | | |]; cbn [obind]; try discriminate.
  - destruct ok; discriminate.
  - exfalso. apply Hterm; [lia| |reflexivity].
    pose proof (Nat.div_mod_eq (length content) 8).
    pose proof (Nat.mod_upper_bound (length content) 8).
    unfold nbytes in *. lia.
Qed.

Lemma open_terminates_witness :
  open 31 (construct 0) wrapper_ptr (MemFile.of_bytes (mono16 100)) <> OutOfFuel.
Proof.
  apply (open_terminates 31 (construct 0) wrapper_ptr (mono16 100));
    vm_compute; [reflexivity | lia].
Defined.


Lemma SimpleWavHeader_length (fm : WavFormat) (n : Z) :
  length (SimpleWavHeader fm n) = 44%nat.
Proof. reflexivity. Qed.

(** X6.  [open] on a container in the layout of [SimpleWavHeader] accepts it,
    and the accessors then give the fields of its format chunk, each cut to
    the width of its field; the number of samples is the size of the data
    chunk divided by the frame alignment, the file size is the 8 bytes of the
    RIFF header more than the size it declares, and the first sample lies
    behind the 44 bytes of the header. *)
Theorem open_reads_format_fields
        (p : Z) (fuel : nat) (fm : WavFormat) (n : Z) (payload : list byte) :
  0 <= n -> n + 44 < 2 ^ 32 -> block_align fm mod 2 ^ 16 <> 0 ->
  exists w' f',
    open (S (S fuel)) (construct p) wrapper_ptr
      (MemFile.of_bytes (SimpleWavHeader fm n ++ payload)) = Ok (true, w', f') /\
    numChannels w' = num_channels fm mod 2 ^ 16 /\
    sampleRate w' = sample_rate fm mod 2 ^ 32 /\
    frameAlignment w' = block_align fm mod 2 ^ 16 /\
    bitsPerSample w' = bits_per_sample fm mod 2 ^ 16 /\
    numSamples w' = n / (block_align fm mod 2 ^ 16) /\
    fileSize w' = 44 + n /\
    position w' = 0 /\
    filePositionForSample w' 0 = 44.
Proof.
  intros Hn0 Hn Hba. rewrite open_SimpleWavHeader by assumption.
  eexists. eexists. split; [reflexivity|].
  assert (Hfa : frameAlignment
                  (mk (format_bytes fm) wrapper_ptr 0
                      (n / (block_align fm mod 2 ^ 16)) 44 (44 + n))
                = block_align fm mod 2 ^ 16).
  { unfold frameAlignment. cbn [_format].
    change (sub 12 2 (format_bytes fm)) with (le_encode 2 (block_align fm)).
    apply le_decode_encode. }
  repeat split.
  - unfold numChannels. cbn [_format].
    change (sub 2 2 (format_bytes fm)) with (le_encode 2 (num_channels fm)).
    apply le_decode_encode.
  - unfold sampleRate. cbn [_format].
    change (sub 4 4 (format_bytes fm)) with (le_encode 4 (sample_rate fm)).
    apply le_decode_encode.
  - exact Hfa.
  - unfold bitsPerSample. cbn [_format].
    change (sub 14 2 (format_bytes fm)) with (le_encode 2 (bits_per_sample fm)).
    apply le_decode_encode.
  - unfold filePositionForSample. rewrite MIN_spec, Hfa.
    unfold numSamples. cbn [_length _data_offset].
    assert (0 <= n / (block_align fm mod 2 ^ 16))
      by (apply Z.div_pos; [lia|]; pose proof (Z.mod_pos_bound (block_align fm) (2 ^ 16)); lia).
    rewrite Z.min_l by lia. apply u32_small. lia.
Qed.

Lemma open_reads_format_fields_witness :
  exists w' f',
    open 2 (construct 0) wrapper_ptr (MemFile.of_bytes (mono16 100))
      = Ok (true, w', f') /\
    numChannels w' = 1 /\ sampleRate w' = 8000 /\ frameAlignment w' = 2 /\
    bitsPerSample w' = 16 /\ numSamples w' = 100 /\ fileSize w' = 244 /\
    position w' = 0 /\ filePositionForSample w' 0 = 44.
Proof.
  apply (open_reads_format_fields 0 0 (pcm 1 8000 2) 200
           (replicate 200 "001"%byte)); vm_compute; congruence.
Defined.

(** X7.  Opening a container in the layout of [SimpleWavHeader], seeking to
    sample [i] and reading [b] bytes gives the bytes of the payload from the
    frame of that sample on; a sample index behind the end of the data is
    clipped to the end, where nothing is left to read. *)
Theorem seek_then_read_gives_payload
        (p : Z) (fuel : nat) (fm : WavFormat) (payload : list byte) (i b : Z) :
  nbytes payload + 44 < 2 ^ 32 -> block_align fm mod 2 ^ 16 <> 0 ->
  0 <= i -> 0 <= b ->
  exists w1 f1 w2 f2 f3,
    open (S (S fuel)) (construct p) wrapper_ptr
      (MemFile.of_bytes (SimpleWavHeader fm (nbytes payload) ++ payload))
      = Ok (true, w1, f1) /\
    seek w1 i f1 = Ok (true, w2, f2) /\
    let first := Z.min i (numSamples w1) * frameAlignment w1 in
    let data := sub (Z.to_nat first) (Z.to_nat b) payload in
    read w2 b f2 = Ok (nbytes data, data, f3) /\
    position w2 = 44 + first /\
    (numSamples w1 <= i -> nbytes data < frameAlignment w1).
Proof.
  intros Hn Hba Hi Hb.
  assert (Hn0 : 0 <= nbytes payload) by (unfold nbytes; lia).
  rewrite open_SimpleWavHeader by assumption.
  set (fa := block_align fm mod 2 ^ 16) in *.
  set (content := SimpleWavHeader fm (nbytes payload) ++ payload).
  set (w1 := mk (format_bytes fm) wrapper_ptr 0 (nbytes payload / fa) 44
                (44 + nbytes payload)).
  assert (Hfa : frameAlignment w1 = fa).
  { unfold frameAlignment, w1. cbn [_format].
    change (sub 12 2 (format_bytes fm)) with (le_encode 2 (block_align fm)).
    apply le_decode_encode. }
  assert (Hfapos : 0 < fa)
    by (pose proof (Z.mod_pos_bound (block_align fm) (2 ^ 16)); lia).
  assert (Hq : 0 <= nbytes payload / fa) by (apply Z.div_pos; lia).
  assert (Hqfa : nbytes payload / fa * fa <= nbytes payload)
    by (pose proof (Z.mul_div_le (nbytes payload) fa Hfapos); lia).
  set (first := Z.min i (nbytes payload / fa) * fa).
  assert (Hfirst : 0 <= first <= nbytes payload) by (unfold first; nia).
  assert (Hpos : filePositionForSample w1 i = 44 + first).
  { unfold filePositionForSample. rewrite MIN_spec, Hfa.
    unfold numSamples, w1. cbn [_length _data_offset]. fold first.
    apply u32_small. lia. }
  exists w1, (MemFile.mk content 44 true),
    (set_position (44 + first) w1), (MemFile.mk content (44 + first) true).
  set (data := sub (Z.to_nat first) (Z.to_nat b) payload).
  exists (MemFile.mk content (44 + first + nbytes data) true).
  split; [reflexivity|]. split.
  { rewrite seek_spec by reflexivity. rewrite Hpos. reflexivity. }
  rewrite Hfa. change (numSamples w1) with (nbytes payload / fa). fold first.
  cbv zeta. fold data.
  assert (Hdata : sub (Z.to_nat (44 + first)) (Z.to_nat b) content = data).
  { unfold data, sub, content. f_equal.
    replace (Z.to_nat (44 + first)) with
      (length (SimpleWavHeader fm (nbytes payload)) + Z.to_nat first)%nat
      by (rewrite SimpleWavHeader_length; lia).
    apply drop_app_add. }
  assert (Hlen : 0 <= nbytes data <= nbytes payload - first).
  { unfold data, nbytes, sub. rewrite length_take, length_drop.
    unfold nbytes in Hfirst. lia. }
  split; [|split].
  - unfold read. cbn [set_position _file w1 is_null].
    change (fw_read b (MemFile.mk content (44 + first) true))
      with (sub (Z.to_nat (44 + first)) (Z.to_nat b) content,
            MemFile.mk content
              (44 + first
               + nbytes (sub (Z.to_nat (44 + first)) (Z.to_nat b) content))
              true).
    cbv iota. rewrite Hdata, u32_small by lia. reflexivity.
  - reflexivity.
  - intros Hend. unfold first in Hlen. rewrite Z.min_r in Hlen by lia.
    pose proof (Z.mod_pos_bound (nbytes payload) fa Hfapos).
    pose proof (Z.div_mod (nbytes payload) fa). lia.
Qed.

Lemma seek_then_read_gives_payload_witness :
  exists w1 f1 w2 f2 f3,
    open 2 (construct 0) wrapper_ptr (MemFile.of_bytes (mono16 100))
      = Ok (true, w1, f1) /\
    seek w1 10 f1 = Ok (true, w2, f2) /\
    let first := Z.min 10 (numSamples w1) * frameAlignment w1 in
    let data := sub (Z.to_nat first) (Z.to_nat 6) (replicate 200 "001"%byte) in
    read w2 6 f2 = Ok (nbytes data, data, f3) /\
    position w2 = 44 + first /\
    (numSamples w1 <= 10 -> nbytes data < frameAlignment w1).
Proof.
  apply (seek_then_read_gives_payload 0 0 (pcm 1 8000 2)
           (replicate 200 "001"%byte) 10 6); vm_compute; congruence.
Defined.


(** What the chunk loop does at a chunk that is neither format nor data. *)
Lemma scan_chunk_other `{FileWrapper F} (w : t) (f f1 : F) (hdr : list byte) :
  fw_read sizeof_header f = (hdr, f1) ->
  nbytes hdr = sizeof_header ->
  chunk_tag hdr <> FMT_TAG -> chunk_tag hdr <> DATA_TAG ->
  scan_chunk w f =
  let next_chunk_pos := to_long (fw_position f1 + chunk_size hdr) in
  if _file_size w <=? next_chunk_pos then Ok (Finished w f1)
  else if (fw_seek (usize next_chunk_pos) f1).1
       then Ok (Continue w (fw_seek (usize next_chunk_pos) f1).2)
       else Ok (Failed w (fw_close (fw_seek (usize next_chunk_pos) f1).2)).
Proof.
  intros Hread Hlen Hfmt Hdata. unfold scan_chunk. rewrite Hread, Hlen.
  rewrite Z.eqb_refl. cbn [negb].
  apply bytes_eqb_false in Hfmt. apply bytes_eqb_false in Hdata.
  rewrite Hfmt, Hdata. cbn [obind]. cbv zeta.
  destruct (_ <=? _); [reflexivity|].
  destruct (fw_seek _ f1) as [[] f2]; reflexivity.
Qed.

(** X8.  A chunk that is neither the format nor the data chunk is skipped by
    the size it declares: on a container with such a chunk between the
    format chunk and the data chunk, [open] answers true with the format,
    the sample count and the file size of the container, and with the data
    offset behind the skipped chunk, whatever the chunk holds. *)
Theorem open_skips_unknown_chunk
        (p : Z) (fuel : nat) (fm : WavFormat) (tag junk : list byte) (n : Z)
        (payload : list byte) :
  length tag = 4%nat -> tag <> FMT_TAG -> tag <> DATA_TAG ->
  0 <= n -> n + nbytes junk + 52 < 2 ^ 32 ->
  block_align fm mod 2 ^ 16 <> 0 ->
  let content :=
    RIFF_TAG ++ le_encode 4 (44 + nbytes junk + n) ++ WAVE_TAG ++
    FMT_TAG ++ le_encode 4 16 ++ format_bytes fm ++
    tag ++ le_encode 4 (nbytes junk) ++ junk ++
    DATA_TAG ++ le_encode 4 n ++ payload in
  open (S (S (S fuel))) (construct p) wrapper_ptr (MemFile.of_bytes content) =
  Ok (true,
      mk (format_bytes fm) wrapper_ptr 0 (n / (block_align fm mod 2 ^ 16))
         (52 + nbytes junk) (52 + nbytes junk + n),
      MemFile.mk content (52 + nbytes junk) true).
Proof.
  intros Htag Hfmt Hdata Hn0 Hn Hba content.
  assert (Hj0 : 0 <= nbytes junk) by (unfold nbytes; lia).
  destruct tag as [|t1 [|t2 [|t3 [|t4 [|t5 tag]]]]]; try discriminate Htag.
  assert (E1 : fw_read sizeof_header (MemFile.mk content 0 true) =
               (RIFF_TAG ++ le_encode 4 (44 + nbytes junk + n),
                MemFile.mk content 8 true)) by reflexivity.
  assert (E2 : fw_read sizeof_tag (MemFile.mk content 8 true) =
               (WAVE_TAG, MemFile.mk content 12 true)) by reflexivity.
  assert (E3 : fw_read sizeof_header (MemFile.mk content 12 true) =
               (FMT_TAG ++ le_encode 4 16, MemFile.mk content 20 true))
    by reflexivity.
  assert (E4 : fw_read sizeof_format (MemFile.mk content 20 true) =
               (format_bytes fm, MemFile.mk content 36 true)) by reflexivity.
  assert (E5 : fw_read sizeof_header (MemFile.mk content 36 true) =
               ([t1; t2; t3; t4] ++ le_encode 4 (nbytes junk),
                MemFile.mk content 44 true)) by reflexivity.
  assert (E6 : fw_read sizeof_header
                 (MemFile.mk content (44 + nbytes junk) true) =
               (DATA_TAG ++ le_encode 4 n,
                MemFile.mk content (52 + nbytes junk) true)).
  { assert (Hsub : sub (Z.to_nat (44 + nbytes junk)) (Z.to_nat sizeof_header)
                       content = DATA_TAG ++ le_encode 4 n).
    { unfold sub, content.
      change (RIFF_TAG ++ le_encode 4 (44 + nbytes junk + n) ++ WAVE_TAG ++
              FMT_TAG ++ le_encode 4 16 ++ format_bytes fm ++
              [t1; t2; t3; t4] ++ le_encode 4 (nbytes junk) ++ junk ++
              DATA_TAG ++ le_encode 4 n ++ payload)
        with ((RIFF_TAG ++ le_encode 4 (44 + nbytes junk + n) ++ WAVE_TAG ++
               FMT_TAG ++ le_encode 4 16 ++ format_bytes fm ++
               [t1; t2; t3; t4] ++ le_encode 4 (nbytes junk)) ++
              junk ++ DATA_TAG ++ le_encode 4 n ++ payload).
      rewrite app_assoc.
      rewrite drop_app_length'.
      2:{ rewrite length_app. unfold nbytes.
          match goal with
          | |- _ = (length ?pre + _)%nat => change (length pre) with 44%nat
          end.
          lia. }
      reflexivity. }
    change (fw_read sizeof_header (MemFile.mk content (44 + nbytes junk) true))
      with (sub (Z.to_nat (44 + nbytes junk)) (Z.to_nat sizeof_header) content,
            MemFile.mk content
              (44 + nbytes junk
               + nbytes (sub (Z.to_nat (44 + nbytes junk))
                             (Z.to_nat sizeof_header) content)) true).
    rewrite Hsub. f_equal. f_equal.
    change (nbytes (DATA_TAG ++ le_encode 4 n)) with 8. lia. }
  unfold open. cbn [is_null].
  change (fw_open (MemFile.of_bytes content))
    with (true, MemFile.mk content 0 true).
  cbv iota. cbn [negb].
  change (fw_seek 0 (MemFile.mk content 0 true))
    with (true, MemFile.mk content 0 true).
  cbv iota. cbn [negb].
  rewrite E1, E2.
  change (nbytes (RIFF_TAG ++ le_encode 4 (44 + nbytes junk + n)) =? sizeof_header)
    with true.
  change (bytes_eqb (chunk_tag (RIFF_TAG ++ le_encode 4 (44 + nbytes junk + n)))
                    RIFF_TAG) with true.
  change (nbytes WAVE_TAG =? sizeof_tag) with true.
  change (bytes_eqb WAVE_TAG WAVE_TAG) with true.
  cbn [negb]. cbv iota.
  rewrite chunk_size_encode by reflexivity.
  change (nbytes (RIFF_TAG ++ le_encode 4 (44 + nbytes junk + n))) with 8.
  rewrite (Z.mod_small (44 + nbytes junk + n)) by lia.
  rewrite u32_small by lia.
  rewrite scan_chunks_unfold.
  rewrite (scan_chunk_fmt _ _ _ _ _ _ E3 eq_refl eq_refl E4 eq_refl).
  cbv zeta.
  change (fw_position (MemFile.mk content 20 true)) with 20.
  rewrite chunk_size_encode by reflexivity.
  change (16 mod 2 ^ 32) with 16. change (to_long (20 + 16)) with 36.
  change (usize 36) with 36.
  cbn [_file_size set_file_size set_format].
  replace (8 + (44 + nbytes junk + n) <=? 36) with false
    by (symmetry; apply Z.leb_gt; lia).
  change (fw_seek 36 (MemFile.mk content 36 true))
    with (true, MemFile.mk content 36 true).
  cbn [fst snd obind].
  rewrite scan_chunks_unfold.
  rewrite (scan_chunk_other _ _ _ _ E5 eq_refl Hfmt Hdata).
  cbv zeta.
  change (fw_position (MemFile.mk content 44 true)) with 44.
  rewrite chunk_size_encode by reflexivity.
  rewrite (Z.mod_small (nbytes junk)) by lia.
  rewrite to_long_small by lia. rewrite usize_small by lia.
  cbn [_file_size set_file_size set_format].
  replace (8 + (44 + nbytes junk + n) <=? 44 + nbytes junk) with false
    by (symmetry; apply Z.leb_gt; lia).
  change (fw_seek (44 + nbytes junk) (MemFile.mk content 44 true))
    with (true, MemFile.mk content (44 + nbytes junk) true).
  cbn [fst snd obind].
  rewrite scan_chunks_unfold.
  rewrite (scan_chunk_data _ _ _ _ E6 eq_refl eq_refl).
  rewrite frameAlignment_format.
  destruct (block_align fm mod 2 ^ 16 =? 0) eqn:Ez;
    [apply Z.eqb_eq in Ez; contradiction|].
  cbv zeta.
  change (fw_position (MemFile.mk content (52 + nbytes junk) true))
    with (52 + nbytes junk).
  rewrite chunk_size_encode by reflexivity.
  rewrite (Z.mod_small n) by lia.
  rewrite to_long_small by lia.
  cbn [_file_size set_file_size set_format set_data].
  replace (8 + (44 + nbytes junk + n) <=? 52 + nbytes junk + n) with true
    by (symmetry; apply Z.leb_le; lia).
  cbn [obind]. f_equal. f_equal. f_equal.
  unfold set_position, set_data, set_format, set_file_size, set_file, construct.
  cbn [_format _file _position _length _data_offset _file_size].
  rewrite u32_small by lia.
  f_equal. lia.
Qed.

Lemma open_skips_unknown_chunk_witness :
  exists w f,
    open 3 (construct 0) wrapper_ptr
      (MemFile.of_bytes
         (RIFF_TAG ++ le_encode 4 (44 + 6 + 200) ++ WAVE_TAG ++
          FMT_TAG ++ le_encode 4 16 ++ format_bytes (pcm 1 8000 2) ++
          ["L"; "I"; "S"; "T"]%byte ++ le_encode 4 6 ++
          replicate 6 "007"%byte ++
          DATA_TAG ++ le_encode 4 200 ++ replicate 200 "001"%byte))
    = Ok (true, w, f) /\
    numSamples w = 100 /\ filePositionForSample w 0 = 58.
Proof.
  eexists. eexists. split.
  - apply (open_skips_unknown_chunk 0 0 (pcm 1 8000 2)
             ["L"; "I"; "S"; "T"]%byte (replicate 6 "007"%byte) 200
             (replicate 200 "001"%byte));
      vm_compute; congruence.
  - vm_compute. split; reflexivity.
Defined.

End WavLoaderMore.

(** ** The sampler stream *)

Module AudioSamplerStreamMore.
Import AudioSamplerStream AudioSamplerStreamFacts.

(** X9.  The size [loadIntroBuffer] asks for puts the end of the lead-in on
    a block boundary of the file: for a sample size that divides two blocks,
    the lead-in is longer than one block, fits [_introBuf], and the byte
    behind it is at a multiple of [BlockSize]. *)
Theorem introBufBytes_ends_on_block_boundary (sz fileOffset : Z) :
  1 <= sz -> (BlockSize * 2) mod sz = 0 -> 0 <= fileOffset < 2 ^ 32 ->
  BlockSize < introBufBytes sz fileOffset <= IntroBufCapacity sz * sz /\
  (fileOffset + introBufBytes sz fileOffset) mod BlockSize = 0.
Proof.
  intros Hsz Hdiv Hoff.
  assert (Hcap : IntroBufCapacity sz * sz = 8192).
  { unfold IntroBufCapacity. unfold BlockSize in *.
    pose proof (Z.div_mod (4096 * 2) sz). lia. }
  rewrite Hcap. unfold introBufBytes, BlockSize in *.
  destruct (Z.ltb_spec fileOffset 4096) as [Hlt|Hge].
  - rewrite (usize_small (4096 - fileOffset)) by lia.
    rewrite usize_small by lia.
    split; [lia|]. replace (fileOffset + (4096 - fileOffset + 4096))
      with (0 + 2 * 4096) by lia.
    apply Z.mod_add. lia.
  - pose proof (Z.div_mod fileOffset 4096 ltac:(lia)) as Hdm.
    pose proof (Z.mod_pos_bound fileOffset 4096 ltac:(lia)) as Hm.
    destruct (Z.eqb_spec (fileOffset mod 4096) 0) as [Hz|Hnz]; cbn [negb].
    + rewrite Hcap, usize_small by lia. split; [lia|].
      replace (fileOffset + 8192) with (fileOffset + 2 * 4096) by lia.
      rewrite Z.mod_add by lia. exact Hz.
    + assert (Hq : 0 <= fileOffset / 4096) by (apply Z.div_pos; lia).
      rewrite (usize_small (fileOffset / 4096 * 4096)) by lia.
      rewrite (usize_small (fileOffset / 4096 * 4096 + 4096)) by lia.
      rewrite (usize_small (fileOffset / 4096 * 4096 + 4096 - fileOffset)) by lia.
      rewrite usize_small by lia.
      split; [lia|].
      replace (fileOffset + (fileOffset / 4096 * 4096 + 4096 - fileOffset + 4096))
        with (0 + (fileOffset / 4096 + 2) * 4096) by lia.
      apply Z.mod_add. lia.
Qed.

Lemma introBufBytes_ends_on_block_boundary_witness :
  BlockSize < introBufBytes 2 44 <= IntroBufCapacity 2 * 2 /\
  (44 + introBufBytes 2 44) mod BlockSize = 0.
Proof.
  apply (introBufBytes_ends_on_block_boundary 2 44); vm_compute;
    try split; congruence.
Defined.

Lemma read_block_frame sz (s : t) (left' : Z) (out : list byte) s1 left1 out1 :
  read_block sz (s, left', out) = Some (s1, left1, out1) ->
  _file s1 = _file s /\ _introBufSize s1 = _introBufSize s /\
  _introBuf s1 = _introBuf s /\ _ringBuf s1 = _ringBuf s /\
  _bufBlockMap s1 = _bufBlockMap s.
Proof.
  unfold read_block. destruct (find_block _ _); [|discriminate].
  intros [= <- _ _]. cbn. auto.
Qed.

Lemma read_cache_frame sz fuel (r : reading) :
  let s1 := (read_cache sz fuel r).1.1 in
  _file s1 = _file r.1.1 /\ _introBufSize s1 = _introBufSize r.1.1 /\
  _introBuf s1 = _introBuf r.1.1 /\ _ringBuf s1 = _ringBuf r.1.1 /\
  _bufBlockMap s1 = _bufBlockMap r.1.1.
Proof.
  revert r. induction fuel as [|fuel IH]; intros r; cbn [read_cache].
  - cbv zeta. auto.
  - destruct (r.1.2 >? 0); [|cbv zeta; auto].
    destruct (read_block sz r) as [r1|] eqn:Eb; [|cbv zeta; auto].
    destruct r as [[s left'] out], r1 as [[s1 left1] out1].
    apply read_block_frame in Eb. specialize (IH (s1, left1, out1)).
    cbv zeta in *. cbn [fst snd] in *.
    destruct IH as (-> & -> & -> & -> & ->). exact Eb.
Qed.

Lemma read_intro_frame sz (s : t) (n : Z) :
  let s1 := (read_intro sz s n).1.1 in
  _file s1 = _file s /\ _introBufSize s1 = _introBufSize s /\
  _introBuf s1 = _introBuf s /\ _ringBuf s1 = _ringBuf s /\
  _bufBlockMap s1 = _bufBlockMap s.
Proof.
  unfold read_intro. destruct (_sampleIdx s <? _introBufSize s); cbn; auto.
Qed.

Lemma read_frame (sz : Z) (s : t) (n : Z) :
  let s' := (read sz s n).2 in
  _file s' = _file s /\ _introBufSize s' = _introBufSize s /\
  _introBuf s' = _introBuf s /\ _ringBuf s' = _ringBuf s /\
  _bufBlockMap s' = _bufBlockMap s.
Proof.
  unfold read.
  pose proof (read_cache_frame sz (Z.to_nat n) (read_intro sz s n)) as Hc.
  pose proof (read_intro_frame sz s n) as Hi.
  destruct (read_cache sz (Z.to_nat n) (read_intro sz s n)) as [[s2 left2] out2].
  cbv zeta in *. cbn [fst snd] in *.
  destruct Hc as (-> & -> & -> & -> & ->). exact Hi.
Qed.

(** X10.  [read] writes the cursor and the read head only: the storage
    binding, the lead-in and its size, the ring buffer and the block map are
    after the call what they were before it, whatever is asked for. *)
Theorem read_moves_cursor_only (sz : Z) (s : t) (n : Z) :
  let s' := (read sz s n).2 in
  _file s' = _file s /\ _introBufSize s' = _introBufSize s /\
  _introBuf s' = _introBuf s /\ _ringBuf s' = _ringBuf s /\
  _bufBlockMap s' = _bufBlockMap s.
Proof.
  cbv zeta. unfold read.
  pose proof (read_cache_frame sz (Z.to_nat n) (read_intro sz s n)) as Hcache.
  pose proof (read_intro_frame sz s n) as Hintro.
  destruct (read_cache sz (Z.to_nat n) (read_intro sz s n)) as [[s2 left2] out2].
  cbv zeta in Hcache, Hintro. cbn [fst snd] in *.
  destruct Hcache as (Hf & Hn & Hb & Hr & Hm).
  destruct Hintro as (Hf' & Hn' & Hb' & Hr' & Hm').
  repeat split; congruence.
Qed.

Section Sampler.
Context {F : Type} `{FileWrapper F}.
Variable sz : Z.
Hypothesis Hsz : 1 <= sz <= 8.

Lemma samples_at_length (buf : list byte) (off n : Z) :
  0 <= off -> 0 <= n -> (off + n) * sz <= nbytes buf ->
  nbytes (samples_at sz buf off n) = n * sz.
Proof using Hsz.
  intros Hoff Hn Hfit. unfold samples_at, sub, nbytes in *.
  rewrite length_take, length_drop. nia.
Qed.

(** A request that the lead-in holds from the cursor on is served from it
    alone. *)
Lemma read_lead_in (s : t) (n : Z) :
  0 <= _sampleIdx s -> 0 < n < 2 ^ 31 ->
  _sampleIdx s + n <= _introBufSize s ->
  read sz s n =
  (n, samples_at sz (_introBuf s) (_sampleIdx s) n,
   set_sampleIdx (u32 (_sampleIdx s + n))
     (set_readHead (IntroBuf (_sampleIdx s + n)) s)).
Proof.
  intros Hi Hn Hfit. unfold read, read_intro.
  replace (_sampleIdx s <? _introBufSize s) with true
    by (symmetry; apply Z.ltb_lt; lia).
  replace (_sampleIdx s + n >? _introBufSize s) with false
    by (symmetry; rewrite Z.gtb_ltb; apply Z.ltb_ge; lia).
  rewrite Z.sub_diag. change (u32 0) with 0.
  cbn [set_readHead set_sampleIdx _sampleIdx].
  assert (Hc : forall fuel r, r.1.2 = 0 -> read_cache sz fuel r = r).
  { intros [|fuel] r Hr; cbn [read_cache]; [reflexivity|].
    rewrite Hr. reflexivity. }
  rewrite Hc by reflexivity.
  rewrite Z.sub_0_r, (u32_small n), (to_int_small n) by lia.
  reflexivity.
Qed.


Lemma u32_add_l a b : u32 (u32 a + b) = u32 (a + b).
Proof. unfold u32, wrap. apply Zplus_mod_idemp_l. Qed.

Lemma read_intro_account (s : t) (n : Z) :
  typed s -> 0 <= n < 2 ^ 32 ->
  _introBufSize s * sz <= nbytes (_introBuf s) ->
  let '(s1, left1, out1) := read_intro sz s n in
  0 <= left1 <= n /\
  _sampleIdx s1 = u32 (_sampleIdx s + (n - left1)) /\
  nbytes out1 = (n - left1) * sz.
Proof using Hsz.
  intros [Hi Hb Hl] Hn Hbuf. unfold read_intro.
  destruct (Z.ltb_spec (_sampleIdx s) (_introBufSize s)) as [E|E].
  2:{ rewrite Z.sub_diag, Z.add_0_r, u32_small by lia.
      repeat split; try reflexivity; lia. }
  cbn [_sampleIdx set_sampleIdx set_readHead].
  destruct (Z.gtb_spec (_sampleIdx s + n) (_introBufSize s)) as [E2|E2].
  - rewrite (usize_small (_introBufSize s - _sampleIdx s)) by lia.
    rewrite (u32_small (_introBufSize s - _sampleIdx s)) by lia.
    rewrite (u32_small (n - _)) by lia.
    split; [lia|]. split; [f_equal; lia|].
    rewrite samples_at_length by lia. f_equal. lia.
  - rewrite Z.sub_diag. change (u32 0) with 0. rewrite Z.sub_0_r.
    split; [lia|]. split; [reflexivity|].
    apply samples_at_length; nia.
Qed.

Lemma read_block_account (s : t) (left' : Z) (out : list byte) s1 left1 out1 :
  0 < left' < 2 ^ 32 ->
  Z.of_nat NumBlocks * SamplesPerBlock sz * sz <= nbytes (_ringBuf s) ->
  read_block sz (s, left', out) = Some (s1, left1, out1) ->
  0 <= left1 < left' /\
  _sampleIdx s1 = u32 (_sampleIdx s + (left' - left1)) /\
  nbytes out1 = nbytes out + (left' - left1) * sz.
Proof using Hsz.
  intros Hleft Hring. unfold read_block.
  pose proof (SamplesPerBlock_range sz Hsz) as Hspb.
  destruct (find_block _ _) as [k|] eqn:Ek; [|discriminate].
  apply scan_slots_some in Ek. destruct Ek as [Hk _].
  set (x := usize (_sampleIdx s - _introBufSize s)).
  assert (Hoff : 0 <= x mod SamplesPerBlock sz < SamplesPerBlock sz)
    by (apply Z.mod_pos_bound; lia).
  rewrite (to_int_small (x mod SamplesPerBlock sz)) by lia.
  replace ((Z.of_nat k + 1) * SamplesPerBlock sz
           - (Z.of_nat k * SamplesPerBlock sz + x mod SamplesPerBlock sz))
    with (SamplesPerBlock sz - x mod SamplesPerBlock sz) by lia.
  intros [= <- <- <-]. cbn [_sampleIdx set_sampleIdx set_readHead].
  unfold NumBlocks in *.
  assert (Hlen : forall a b : list byte, nbytes (a ++ b) = nbytes a + nbytes b)
    by (intros a b; unfold nbytes; rewrite length_app; lia).
  rewrite Hlen.
  destruct (Z.leb_spec (SamplesPerBlock sz - x mod SamplesPerBlock sz) left')
    as [E|E].
  - rewrite (u32_small (SamplesPerBlock sz - x mod SamplesPerBlock sz)) by lia.
    rewrite (u32_small (left' - _)) by lia.
    split; [lia|]. split; [f_equal; lia|].
    rewrite samples_at_length by nia. f_equal. f_equal. lia.
  - rewrite Z.sub_diag. change (u32 0) with 0. rewrite Z.sub_0_r.
    split; [lia|]. split; [reflexivity|].
    rewrite samples_at_length by nia. reflexivity.
Qed.

Lemma read_cache_account fuel (s : t) (left' : Z) (out : list byte) :
  0 <= left' < 2 ^ 32 -> 0 <= _sampleIdx s < 2 ^ 32 ->
  Z.of_nat NumBlocks * SamplesPerBlock sz * sz <= nbytes (_ringBuf s) ->
  let '(s1, left1, out1) := read_cache sz fuel (s, left', out) in
  0 <= left1 <= left' /\
  _sampleIdx s1 = u32 (_sampleIdx s + (left' - left1)) /\
  nbytes out1 = nbytes out + (left' - left1) * sz.
Proof using Hsz.
  revert s left' out.
  induction fuel as [|fuel IH]; intros s left' out Hl Hi Hring.
  - cbn [read_cache]. rewrite Z.sub_diag, Z.add_0_r, u32_small by lia.
    repeat split; lia.
  - cbn [read_cache fst snd]. destruct (Z.gtb_spec left' 0) as [E|E].
    2:{ rewrite Z.sub_diag, Z.add_0_r, u32_small by lia. repeat split; lia. }
    destruct (read_block sz (s, left', out)) as [[[s1 left1] out1]|] eqn:Eb.
    2:{ rewrite Z.sub_diag, Z.add_0_r, u32_small by lia. repeat split; lia. }
    pose proof (read_block_frame _ _ _ _ _ _ _ Eb) as (_ & _ & _ & Hr1 & _).
    apply read_block_account in Eb; [|lia|exact Hring].
    destruct Eb as (Hl1 & Hi1 & Ho1).
    specialize (IH s1 left1 out1 ltac:(lia)
                   ltac:(rewrite Hi1; apply u32_range)
                   ltac:(rewrite Hr1; exact Hring)).
    destruct (read_cache sz fuel (s1, left1, out1)) as [[s2 left2] out2].
    destruct IH as (Hl2 & Hi2 & Ho2).
    split; [lia|]. split.
    + rewrite Hi2, Hi1, u32_add_l. f_equal. lia.
    + lia.
Qed.

(** X11.  What [read] returns is what it delivered: for a request of less
    than 2^31 samples on a stream whose buffers have their declared sizes,
    the count is between 0 and the request, the cursor has advanced by the
    count, and the count times the sample size is the number of bytes put
    into the buffer of the caller.  A count short of the request means that
    no slot of the ring buffer holds the block at the cursor. *)
Theorem read_count_cursor_and_bytes (s : t) (n : Z) :
  typed s -> 0 <= n < 2 ^ 31 ->
  _introBufSize s * sz <= nbytes (_introBuf s) ->
  Z.of_nat NumBlocks * SamplesPerBlock sz * sz <= nbytes (_ringBuf s) ->
  let '(count, out, s') := read sz s n in
  0 <= count <= n /\
  sampleIndex s' = u32 (sampleIndex s + count) /\
  nbytes out = count * sz /\
  (count < n ->
   find_block (_bufBlockMap s')
     (to_int (usize (_sampleIdx s' - _introBufSize s') / SamplesPerBlock sz))
   = None).
Proof using Hsz.
  intros Ht Hn Hintro Hring. unfold read, sampleIndex.
  pose proof (read_intro_account s n Ht ltac:(lia) Hintro) as H1.
  pose proof (read_intro_frame sz s n) as Hf1.
  destruct (read_intro sz s n) as [[s1 left1] out1].
  cbv zeta in Hf1. cbn [fst snd] in Hf1.
  destruct Hf1 as (_ & _ & _ & Hr1 & _).
  destruct H1 as (Hl1 & Hi1 & Ho1).
  pose proof (read_cache_account (Z.to_nat n) s1 left1 out1 ltac:(lia)
                ltac:(rewrite Hi1; apply u32_range)
                ltac:(rewrite Hr1; exact Hring)) as H2.
  pose proof (read_cache_enough sz Hsz (Z.to_nat n) s1 left1 out1
                ltac:(lia) ltac:(lia)) as Hstop.
  cbv zeta in Hstop.
  destruct (read_cache sz (Z.to_nat n) (s1, left1, out1)) as [[s2 left2] out2].
  destruct H2 as (Hl2 & Hi2 & Ho2). cbn [fst snd] in Hstop.
  rewrite (u32_small (n - left2)), (to_int_small (n - left2)) by lia.
  split; [lia|]. split; [|split].
  - rewrite Hi2, Hi1, u32_add_l. f_equal. lia.
  - lia.
  - intros Hshort. destruct Hstop as [Hz|Hnone]; [lia|].
    apply (read_block_none sz) in Hnone. exact Hnone.
Qed.


Lemma memcpy_into_nil (buf : list byte) (off : Z) : memcpy_into buf off [] = buf.
Proof.
  unfold memcpy_into. rewrite take_nil, app_nil_l, Nat.add_0_r.
  apply take_drop.
Qed.

Lemma memcpy_into_length (buf : list byte) (off : Z) (src : list byte) :
  length (memcpy_into buf off src) = length buf.
Proof.
  unfold memcpy_into. rewrite !length_app, !length_take, length_drop. lia.
Qed.

Lemma kept_by_prime_refl (s : t) : kept_by_prime s s.
Proof.
  repeat split. exists (WavLoader._position (_file s)).
  destruct (_file s); reflexivity.
Qed.

Lemma kept_by_prime_trans (s s1 s2 : t) :
  kept_by_prime s s1 -> kept_by_prime s1 s2 -> kept_by_prime s s2.
Proof.
  intros (Hi & Hr & Hb & Hn & Hl & p & Hp) (Hi' & Hr' & Hb' & Hn' & Hl' & p' & Hp').
  repeat split; try congruence. exists p'. rewrite Hp', Hp. reflexivity.
Qed.

(** What an attempt of [prime] on one candidate leaves of the stream; the
    ring buffer is written only when the read transferred bytes. *)
Lemma try_block_frame idx block (s : t) (f : F) :
  match try_block sz idx block s f with
  | Ok (Filled s' _) => kept_by_prime s s'
  | Ok (LeaveSigns s' _) | Ok (NextSign s' _) =>
      kept_by_prime s s' /\
      _ringBuf s' = _ringBuf s /\ _bufBlockMap s' = _bufBlockMap s
  | _ => True
  end.
Proof.
  pose proof (kept_by_prime_refl s) as Hsame.
  unfold try_block.
  destruct (block <? 0); [split; [exact Hsame | split; reflexivity]|].
  destruct (_ >? _); [split; [exact Hsame | split; reflexivity]|].
  destruct (block_mapped (_bufBlockMap s) block);
    [split; [exact Hsame | split; reflexivity]|].
  destruct (block >=? 0); [|split; [exact Hsame | split; reflexivity]].
  unfold WavLoader.seek.
  cbn [WavLoader._file WavLoader.set_position WavLoader._position].
  destruct (is_null (WavLoader._file (_file s))) eqn:Enull; cbn [obind];
    [exact I|].
  destruct (fw_seek _ f) as [ok f1]. cbn [obind].
  destruct ok; cbn [negb]; [|repeat split; cbn; eauto].
  unfold WavLoader.read. cbn [WavLoader._file WavLoader.set_position].
  rewrite Enull.
  pose proof (fw_read_le BlockSize f1) as Hle.
  destruct (fw_read BlockSize f1) as [data f2]. cbn [obind fst] in *.
  destruct (Z.gtb_spec (u32 (nbytes data)) 0) as [Hpos|Hzero].
  - repeat split; cbn; eauto. apply memcpy_into_length.
  - assert (Hnil : data = []).
    { unfold BlockSize in Hle. rewrite u32_small in Hzero by (unfold nbytes in *; lia).
      destruct data; [reflexivity|]. unfold nbytes in Hzero. cbn in Hzero. lia. }
    subst data. repeat split; cbn; eauto; rewrite memcpy_into_nil; reflexivity.
Qed.

Lemma try_distance_frame idx rhb absDiff (st : t * F) :
  match try_distance sz idx rhb absDiff st with
  | inl st' =>
      kept_by_prime st.1 st'.1 /\
      _ringBuf st'.1 = _ringBuf st.1 /\ _bufBlockMap st'.1 = _bufBlockMap st.1
  | inr (Ok (s', _)) => kept_by_prime st.1 s'
  | inr _ => True
  end.
Proof.
  unfold try_distance.
  pose proof (try_block_frame idx (rhb + absDiff) st.1 st.2) as H1.
  destruct (try_block sz idx (rhb + absDiff) st.1 st.2) as [[s1 f1|s1 f1|s1 f1]| | | |];
    cbn [fst]; auto.
  destruct H1 as (Hk1 & Hr1 & Hm1).
  pose proof (try_block_frame idx (rhb + - absDiff) s1 f1) as H2.
  destruct (try_block sz idx (rhb + - absDiff) s1 f1) as [[s2 f2|s2 f2|s2 f2]| | | |];
    cbn [fst]; auto.
  - eapply kept_by_prime_trans; eauto.
  - destruct H2 as (Hk2 & Hr2 & Hm2). split; [|split; congruence].
    eapply kept_by_prime_trans; eauto.
  - destruct H2 as (Hk2 & Hr2 & Hm2). split; [|split; congruence].
    eapply kept_by_prime_trans; eauto.
Qed.

Lemma prime_kept (s : t) (f : F) filled s' f' :
  prime sz s f = Ok (filled, s', f') ->
  kept_by_prime s s' /\
  (filled = false -> _ringBuf s' = _ringBuf s /\ _bufBlockMap s' = _bufBlockMap s).
Proof.
  unfold prime.
  destruct (furthest (readHeadBlock sz s) (_bufBlockMap s)) as [idx maxDiff].
  destruct (maxDiff >? 0).
  2:{ intros [= <- <- _]. split; [apply kept_by_prime_refl | auto]. }
  pose proof (for_loop_inv (try_distance sz idx (readHeadBlock sz s))
                (fun st => kept_by_prime s st.1 /\
                           _ringBuf st.1 = _ringBuf s /\
                           _bufBlockMap st.1 = _bufBlockMap s)
                0 maxDiff (s, f)
                (conj (kept_by_prime_refl s) (conj eq_refl eq_refl))) as Hloop.
  cbv beta in Hloop.
  assert (Hstep : forall i (st0 st1 : t * F),
             0 <= i < maxDiff ->
             kept_by_prime s st0.1 /\ _ringBuf st0.1 = _ringBuf s /\
             _bufBlockMap st0.1 = _bufBlockMap s ->
             try_distance sz idx (readHeadBlock sz s) i st0 = inl st1 ->
             kept_by_prime s st1.1 /\ _ringBuf st1.1 = _ringBuf s /\
             _bufBlockMap st1.1 = _bufBlockMap s).
  { intros i st0 st1 _ (Hk0 & Hr0 & Hm0) Hb.
    pose proof (try_distance_frame idx (readHeadBlock sz s) i st0) as Hd.
    rewrite Hb in Hd. destruct Hd as (Hk1 & Hr1 & Hm1).
    split; [|split; congruence]. eapply kept_by_prime_trans; eauto. }
  specialize (Hloop Hstep).
  destruct (for_loop _ 0 maxDiff (s, f)) as [[s1 f1]|r].
  - intros [= <- <- _]. cbn [fst] in Hloop. destruct Hloop as (Hk & Hr & Hm).
    auto.
  - destruct Hloop as (i & st0 & _ & (Hk0 & _) & Hb).
    pose proof (try_distance_frame idx (readHeadBlock sz s) i st0) as Hd.
    rewrite Hb in Hd. destruct r as [[s1 f1]| | | |]; cbn [obind]; try discriminate.
    intros [= <- <- _]. split; [|discriminate].
    eapply kept_by_prime_trans; eauto.
Qed.

(** X12.  [prime] leaves the cursor, the read head and the lead-in as they
    are, and of the loader it writes the position only; the ring buffer keeps
    its size.  A call that answers [false] has changed neither the ring
    buffer nor the block map. *)
Theorem prime_writes_cache_only (s : t) (f : F) filled s' f' :
  prime sz s f = Ok (filled, s', f') ->
  sampleIndex s' = sampleIndex s /\ _readHead s' = _readHead s /\
  _introBuf s' = _introBuf s /\ _introBufSize s' = _introBufSize s /\
  length (_ringBuf s') = length (_ringBuf s) /\
  (exists p, _file s' = WavLoader.set_position p (_file s)) /\
  (filled = false ->
   _ringBuf s' = _ringBuf s /\ _bufBlockMap s' = _bufBlockMap s).
Proof.
  intros Hp. apply prime_kept in Hp.
  destruct Hp as ((Hi & Hr & Hb & Hn & Hl & Hf) & Hfalse).
  unfold sampleIndex. auto 10.
Qed.

Lemma do_call_keeps_lead_in (c : call) (s : t) (f : F) s' f' :
  do_call sz c s f = Ok (s', f') ->
  _introBuf s' = _introBuf s /\ _introBufSize s' = _introBufSize s.
Proof.
  destruct c as [|n|i|]; cbn [do_call].
  - destruct (prime sz s f) as [[[filled s1] f1]| | | |] eqn:Ep; cbn [obind];
      try discriminate.
    intros [= <- _]. apply prime_kept in Ep.
    destruct Ep as ((_ & _ & Hb & Hn & _) & _). auto.
  - intros [= <- _]. pose proof (read_frame sz s (u32 n)) as Hr.
    cbv zeta in Hr. destruct Hr as (_ & Hn & Hb & _). auto.
  - intros [= <- _]. auto.
  - intros [= <- _]. auto.
Qed.

Lemma run_keeps_lead_in (calls : list call) (s : t) (f : F) s' f' :
  run sz calls s f = Ok (s', f') ->
  _introBuf s' = _introBuf s /\ _introBufSize s' = _introBufSize s.
Proof.
  revert s f. induction calls as [|c calls IH]; intros s f; cbn [run].
  - intros [= <- _]. auto.
  - destruct (do_call sz c s f) as [[s1 f1]| | | |] eqn:Ec; cbn [obind];
      try discriminate.
    intros Hr. apply IH in Hr. apply do_call_keeps_lead_in in Ec.
    destruct Hr as [-> ->]. exact Ec.
Qed.

(** X13.  The lead-in that [load] put into memory stays there: whatever
    calls of [prime], [read], [setSampleIndex] and [reset] were made on a
    loaded stream, [reset] followed by a [read] of up to the size of the
    lead-in delivers all of the request, and delivers the first samples of
    the lead-in as the stream held it before the calls.  ([set_sample_index]
    is not among the calls: a call of it has no defined behaviour.) *)
Theorem reset_replays_lead_in (calls : list call) (s : t) (f : F) (n : Z) :
  loaded s -> 0 < n < 2 ^ 31 -> n <= _introBufSize s ->
  exists s' f',
    run sz calls s f = Ok (s', f') /\
    (read sz (reset s') n).1 = (n, samples_at sz (_introBuf s) 0 n).
Proof using Hsz.
  intros Hl Hn Hfit.
  destruct (run_loaded sz Hsz calls s f Hl) as (s' & f' & Hr & Hl' & _).
  exists s', f'. split; [exact Hr|].
  apply run_keeps_lead_in in Hr. destruct Hr as [Hb Hs].
  destruct Hl' as [[_ _ Hlen] _ _ _].
  assert (Hidx : _sampleIdx (reset s') = 0).
  { unfold reset, setSampleIndex, WavLoader.numSamples. cbn [_sampleIdx set_sampleIdx].
    lia. }
  rewrite read_lead_in.
  - cbn [fst]. rewrite Hidx. change (_introBuf (reset s')) with (_introBuf s').
    rewrite Hb. reflexivity.
  - lia.
  - exact Hn.
  - rewrite Hidx. change (_introBufSize (reset s')) with (_introBufSize s'). lia.
Qed.

(** X14.  A request that the lead-in holds from the cursor on is served in
    full from the lead-in, whatever the block map says: the samples delivered
    are those of [_introBuf] from the cursor on, and the cursor and the read
    head move behind them. *)
Theorem read_served_by_lead_in (s : t) (n : Z) :
  0 <= sampleIndex s -> 0 < n < 2 ^ 31 ->
  sampleIndex s + n <= _introBufSize s ->
  read sz s n =
  (n, samples_at sz (_introBuf s) (sampleIndex s) n,
   set_sampleIdx (u32 (sampleIndex s + n))
     (set_readHead (IntroBuf (sampleIndex s + n)) s)).
Proof.
  unfold sampleIndex. intros Hidx Hn Hfit. unfold read, read_intro.
  replace (_sampleIdx s <? _introBufSize s) with true
    by (symmetry; apply Z.ltb_lt; lia).
  replace (_sampleIdx s + n >? _introBufSize s) with false
    by (symmetry; rewrite Z.gtb_ltb; apply Z.ltb_ge; lia).
  rewrite Z.sub_diag. change (u32 0) with 0.
  cbn [set_readHead set_sampleIdx _sampleIdx].
  assert (Hdone : forall fuel r, r.1.2 = 0 -> read_cache sz fuel r = r).
  { intros [|fuel] r Hr; cbn [read_cache]; [reflexivity|].
    rewrite Hr. reflexivity. }
  rewrite Hdone by reflexivity.
  rewrite Z.sub_0_r, (u32_small n), (to_int_small n) by lia.
  reflexivity.
Qed.



Lemma furthest_slot (s : t) :
  loaded s ->
  ((furthest (readHeadBlock sz s) (_bufBlockMap s)).1 < NumBlocks)%nat.
Proof.
  intros Hl. destruct (loaded_map s Hl) as (a & b & c & -> & _).
  unfold furthest, NumBlocks. cbn [furthest_from Nat.sub].
  destruct (_ >? _); destruct (_ >? _); cbn [fst]; lia.
Qed.

Lemma furthest_positive (s : t) :
  loaded s ->
  block_mapped (_bufBlockMap s) (readHeadBlock sz s) = false ->
  0 < (furthest (readHeadBlock sz s) (_bufBlockMap s)).2.
Proof using Hsz.
  intros Hl Hmiss. rewrite block_mapped_false in Hmiss.
  pose proof (Hmiss 0%nat ltac:(unfold NumBlocks; lia)) as H0.
  pose proof (Hmiss 1%nat ltac:(unfold NumBlocks; lia)) as H1.
  pose proof (Hmiss 2%nat ltac:(unfold NumBlocks; lia)) as H2.
  pose proof (readHeadBlock_range sz Hsz s (loaded_typed s Hl)) as Hr.
  destruct (loaded_map s Hl) as (a & b & c & Hmap & Ha & Hb & Hc).
  rewrite Hmap in *. set (r := readHeadBlock sz s) in *.
  unfold furthest, NumBlocks. cbn [furthest_from Nat.sub].
  cbn [lookup_total list_lookup_total] in *. unfold INT_MAX in *.
  rewrite !to_long_small by lia.
  destruct (_ >? _); destruct (_ >? _); cbn [snd]; lia.
Qed.

(** The first attempt of [prime] on a stream whose read-head block is in
    range and not in the cache, over a storage that seeks and transfers. *)
Lemma prime_miss_at_read_head (s : t) (f : F) :
  loaded s ->
  let rhb := readHeadBlock sz s in
  let idx := (furthest rhb (_bufBlockMap s)).1 in
  let pos := WavLoader.filePositionForSample (_file s)
               (u32 (usize (rhb * SamplesPerBlock sz + _introBufSize s))) in
  let transfer := fw_read BlockSize (fw_seek pos f).2 in
  block_mapped (_bufBlockMap s) rhb = false ->
  usize (rhb * SamplesPerBlock sz)
    <= usize (WavLoader.numSamples (_file s) - _introBufSize s) ->
  (fw_seek pos f).1 = true ->
  0 < nbytes transfer.1 ->
  prime sz s f =
  Ok (true,
      set_bufBlockMap (<[idx := rhb]> (_bufBlockMap s))
        (set_ringBuf
           (memcpy_into (_ringBuf s)
              (Z.of_nat idx * SamplesPerBlock sz * sz) transfer.1)
           (set_file (WavLoader.set_position pos (_file s)) s)),
      transfer.2).
Proof using Hsz.
  intros Hl rhb idx pos transfer Hmiss Hin Hseek Hread.
  pose proof (furthest_positive s Hl Hmiss) as Hmax.
  pose proof (readHeadBlock_range sz Hsz s (loaded_typed s Hl)) as Hr.
  fold rhb in Hmax, Hr.
  unfold prime. fold rhb.
  rewrite (surjective_pairing (furthest rhb (_bufBlockMap s))). fold idx.
  set (maxDiff := (furthest rhb (_bufBlockMap s)).2) in *.
  replace (maxDiff >? 0) with true by (symmetry; apply Z.gtb_lt; lia).
  rewrite for_loop_nat.
  replace (Z.to_nat (maxDiff - 0)) with (S (Z.to_nat (maxDiff - 1))) by lia.
  rewrite for_nat_S.
  assert (Htry : try_block sz idx (rhb + 0) s f =
                 Ok (Filled
                       (set_bufBlockMap (<[idx := rhb]> (_bufBlockMap s))
                          (set_ringBuf
                             (memcpy_into (_ringBuf s)
                                (Z.of_nat idx * SamplesPerBlock sz * sz) transfer.1)
                             (set_file (WavLoader.set_position pos (_file s)) s)))
                       transfer.2)).
  { rewrite Z.add_0_r. unfold try_block.
    replace (rhb <? 0) with false by (symmetry; apply Z.ltb_ge; lia).
    replace (_ >? _) with false by (symmetry; rewrite Z.gtb_ltb; apply Z.ltb_ge; exact Hin).
    rewrite Hmiss.
    replace (rhb >=? 0) with true by (symmetry; apply Z.geb_le; lia).
    rewrite WavLoaderFacts.seek_spec by (apply (loaded_file s Hl)).
    fold pos. cbn [obind]. rewrite Hseek. cbn [negb].
    unfold WavLoader.read.
    cbn [set_file _file WavLoader.set_position WavLoader._file].
    rewrite (loaded_file s Hl). cbn [is_null].
    fold transfer. rewrite (surjective_pairing transfer). cbn [obind fst snd].
    pose proof (fw_read_le BlockSize (fw_seek pos f).2) as Hle.
    fold transfer in Hle. unfold BlockSize in Hle.
    rewrite (u32_small (nbytes transfer.1)) by lia.
    replace (nbytes transfer.1 >? 0) with true by (symmetry; apply Z.gtb_lt; lia).
    rewrite (u32_small rhb) by lia.
    reflexivity. }
  unfold try_distance. cbn [fst snd]. rewrite Htry. reflexivity.
Qed.

(** X16.  A miss at the read head is repaired by one call of [prime]: when
    the block at the cursor is in range and in no slot, and the storage seeks
    and transfers at least one byte, the call answers [true], the slot
    furthest from the read head holds that block and the bytes transferred,
    and any [read] after it delivers at least one sample. *)
Theorem prime_repairs_miss_at_read_head (s : t) (f : F) :
  loaded s ->
  let rhb := readHeadBlock sz s in
  let idx := (furthest rhb (_bufBlockMap s)).1 in
  let pos := WavLoader.filePositionForSample (_file s)
               (u32 (usize (rhb * SamplesPerBlock sz + _introBufSize s))) in
  let transfer := fw_read BlockSize (fw_seek pos f).2 in
  block_mapped (_bufBlockMap s) rhb = false ->
  usize (rhb * SamplesPerBlock sz)
    <= usize (WavLoader.numSamples (_file s) - _introBufSize s) ->
  (fw_seek pos f).1 = true ->
  0 < nbytes transfer.1 ->
  exists s',
    prime sz s f = Ok (true, s', transfer.2) /\
    _bufBlockMap s' = <[idx := rhb]> (_bufBlockMap s) /\
    _ringBuf s' = memcpy_into (_ringBuf s)
                    (Z.of_nat idx * SamplesPerBlock sz * sz) transfer.1 /\
    forall n, 0 < n < 2 ^ 31 -> 0 < (read sz s' n).1.1.
Proof using Hsz.
  intros Hl rhb idx pos transfer Hmiss Hin Hseek Hread.
  pose proof (prime_miss_at_read_head s f Hl Hmiss Hin Hseek Hread) as Hp.
  cbv zeta in Hp. fold rhb idx pos transfer in Hp.
  eexists. split; [exact Hp|]. split; [reflexivity|]. split; [reflexivity|].
  set (s' := set_bufBlockMap _ _).
  pose proof (loaded_typed s Hl) as Ht.
  assert (Ht' : typed s') by (destruct Ht; constructor; assumption).
  pose proof (readHeadBlock_range sz Hsz s Ht) as Hr. fold rhb in Hr.
  pose proof (furthest_slot s Hl) as Hidx. fold rhb idx in Hidx.
  intros n Hn. unfold read.
  pose proof (read_intro_spec sz s' n ltac:(lia) Ht') as H1.
  destruct (read_intro sz s' n) as [[s1 left1] out1] eqn:Ei.
  destruct H1 as (Hl1 & Hi1 & Hm1 & Hb1 & Hf1 & Hcase).
  assert (Hless : forall s2 left2 out2,
             read_cache sz (Z.to_nat n) (s1, left1, out1) = (s2, left2, out2) ->
             left1 < n \/ left2 < n ->
             0 < to_int (u32 (n - left2))).
  { intros s2 left2 out2 Hc Hlt.
    pose proof (read_cache_spec sz Hsz (Z.to_nat n) s1 left1 out1
                  ltac:(lia) Hi1) as H2.
    rewrite Hc in H2. destruct H2 as (Hl2 & _).
    rewrite u32_small, to_int_small by lia. lia. }
  change (_sampleIdx s') with (_sampleIdx s) in Hcase.
  change (_introBufSize s') with (_introBufSize s) in Hcase.
  destruct (Z.ltb_spec (_sampleIdx s) (_introBufSize s)) as [Hlead|Hring].
  - destruct (read_cache sz (Z.to_nat n) (s1, left1, out1))
      as [[s2 left2] out2] eqn:Ec.
    cbn [fst]. apply (Hless s2 left2 out2 eq_refl). left. lia.
  - destruct Hcase as [-> Hsame].
    replace (Z.to_nat n) with (S (Z.to_nat (n - 1))) by lia.
    cbn [read_cache fst snd].
    replace (n >? 0) with true by (symmetry; apply Z.gtb_lt; lia).
    destruct (read_block sz (s1, n, out1)) as [[[s2 left2] out2]|] eqn:Eb.
    + pose proof (read_block_spec sz Hsz s1 n out1 s2 left2 out2
                    ltac:(lia) Eb) as (Hl2 & Hi2 & _).
      pose proof (read_cache_spec sz Hsz (Z.to_nat (n - 1)) s2 left2 out2
                    ltac:(lia) Hi2) as H3.
      destruct (read_cache sz (Z.to_nat (n - 1)) (s2, left2, out2))
        as [[s3 left3] out3].
      destruct H3 as (Hl3 & _). cbn [fst].
      rewrite u32_small, to_int_small by lia. lia.
    + exfalso. apply (read_block_none sz) in Eb.
      unfold find_block in Eb. rewrite scan_slots_none in Eb.
      specialize (Eb idx ltac:(lia)). cbv beta in Eb.
      rewrite Hm1, Hsame, Hb1 in Eb.
      change (_sampleIdx s') with (_sampleIdx s) in Eb.
      change (_introBufSize s') with (_introBufSize s) in Eb.
      unfold s' in Eb. cbn [_bufBlockMap set_bufBlockMap] in Eb.
      rewrite list_lookup_total_insert_eq in Eb
        by (rewrite (loaded_map_length s Hl); exact Hidx).
      assert (Hrhb : rhb = usize (_sampleIdx s - _introBufSize s)
                           / SamplesPerBlock sz).
      { unfold rhb, readHeadBlock.
        replace (_sampleIdx s >=? _introBufSize s) with true
          by (symmetry; apply Z.geb_le; lia).
        pose proof Hr as Hr'. unfold rhb, readHeadBlock in Hr'.
        replace (_sampleIdx s >=? _introBufSize s) with true in Hr'
          by (symmetry; apply Z.geb_le; lia).
        destruct Ht as [Hi Hb _].
        rewrite usize_small in * by lia.
        assert (0 <= (_sampleIdx s - _introBufSize s) / SamplesPerBlock sz
                < 2 ^ 32).
        { pose proof (SamplesPerBlock_range sz Hsz).
          split; [apply Z.div_pos; lia|].
          apply Z.div_lt_upper_bound; lia. }
        apply to_long_small. lia. }
      rewrite <- Hrhb, Z.eqb_refl in Eb. discriminate Eb.
Qed.

(** The slot that [prime] picks holds the entry furthest from the read
    head. *)
Lemma furthest_spec (s : t) :
  loaded s ->
  let rhb := readHeadBlock sz s in
  let idx := (furthest rhb (_bufBlockMap s)).1 in
  (furthest rhb (_bufBlockMap s)).2 = Z.abs (_bufBlockMap s !!! idx - rhb) /\
  forall j : nat, (j < NumBlocks)%nat ->
    Z.abs (_bufBlockMap s !!! j - rhb) <= Z.abs (_bufBlockMap s !!! idx - rhb).
Proof using Hsz.
  intros Hl. cbv zeta.
  pose proof (readHeadBlock_range sz Hsz s (loaded_typed s Hl)) as Hr.
  destruct (loaded_map s Hl) as (a & b & c & Hmap & Ha & Hb & Hc).
  rewrite Hmap. set (r := readHeadBlock sz s) in *.
  unfold furthest, NumBlocks. cbn [furthest_from Nat.sub].
  cbn [lookup_total list_lookup_total]. unfold INT_MAX in *.
  rewrite !to_long_small by lia.
  destruct (Z.gtb_spec (Z.abs (b - r)) (Z.abs (a - r))) as [E1|E1].
  - destruct (Z.gtb_spec (Z.abs (c - r)) (Z.abs (b - r))) as [E2|E2];
      cbn [fst snd lookup_total list_lookup_total]; (split; [reflexivity|]);
      intros [|[|[|j]]] Hj; cbn [lookup_total list_lookup_total]; lia.
  - destruct (Z.gtb_spec (Z.abs (c - r)) (Z.abs (a - r))) as [E2|E2];
      cbn [fst snd lookup_total list_lookup_total]; (split; [reflexivity|]);
      intros [|[|[|j]]] Hj; cbn [lookup_total list_lookup_total]; lia.
Qed.

(** X17.  The replacement policy of [prime]: a call that answers [true] on a
    loaded stream has replaced the entry of the block map that was furthest
    from the read-head block, and has replaced it by a block that no slot
    held and that is strictly nearer to the read-head block than the entry
    it evicted; the other slots of the block map are as before. *)
Theorem prime_evicts_furthest_for_nearer (s : t) (f : F) s' f' :
  loaded s ->
  prime sz s f = Ok (true, s', f') ->
  let rhb := readHeadBlock sz s in
  let idx := (furthest rhb (_bufBlockMap s)).1 in
  (idx < NumBlocks)%nat /\
  (forall j : nat, (j < NumBlocks)%nat ->
     Z.abs (_bufBlockMap s !!! j - rhb) <= Z.abs (_bufBlockMap s !!! idx - rhb)) /\
  exists block,
    0 <= block /\
    block_mapped (_bufBlockMap s) block = false /\
    Z.abs (block - rhb) < Z.abs (_bufBlockMap s !!! idx - rhb) /\
    _bufBlockMap s' = <[idx := block]> (_bufBlockMap s).
Proof using Hsz.
  intros Hl Hp. cbv zeta.
  pose proof (furthest_spec s Hl) as [Hmax Hall]. cbv zeta in Hmax, Hall.
  pose proof (furthest_slot s Hl) as Hidx.
  pose proof (readHeadBlock_range sz Hsz s (loaded_typed s Hl)) as Hr.
  pose proof (loaded_maxDiff_range sz Hsz s Hl) as Hrange.
  destruct (prime_spec sz s f (loaded_file s Hl))
    as (filled & s1 & f1 & Hp1 & _ & Hfill).
  rewrite Hp in Hp1. injection Hp1 as <- <- <-.
  destruct Hfill as (block & absDiff & Hd & Hblock & H0 & Hnew & Hmap).
  split; [exact Hidx|]. split; [exact Hall|].
  exists block. unfold INT_MAX in Hrange.
  rewrite u32_small in Hmap by lia.
  repeat split; auto. rewrite <- Hmax. lia.
Qed.

(** What a successful attempt on a candidate has done. *)
Lemma try_block_filled idx block (s : t) (f : F) s' f' :
  try_block sz idx block s f = Ok (Filled s' f') ->
  0 <= block /\
  usize (block * SamplesPerBlock sz)
    <= usize (WavLoader.numSamples (_file s) - _introBufSize s) /\
  WavLoader.position (_file s')
  = WavLoader.filePositionForSample (_file s)
      (u32 (usize (block * SamplesPerBlock sz + _introBufSize s))).
Proof.
  unfold try_block.
  destruct (Z.ltb_spec block 0) as [Hneg|Hnn]; [discriminate|].
  destruct (Z.gtb_spec (usize (block * SamplesPerBlock sz))
              (usize (WavLoader.numSamples (_file s) - _introBufSize s)))
    as [Hout|Hin]; [discriminate|].
  destruct (block_mapped (_bufBlockMap s) block); [discriminate|].
  replace (block >=? 0) with true by (symmetry; apply Z.geb_le; lia).
  unfold WavLoader.seek.
  cbn [WavLoader._file WavLoader.set_position WavLoader._position].
  destruct (is_null (WavLoader._file (_file s))) eqn:Enull; cbn [obind];
    [discriminate|].
  destruct (fw_seek _ f) as [ok f1]. cbn [obind].
  destruct ok; cbn [negb]; [|discriminate].
  unfold WavLoader.read. cbn [WavLoader._file WavLoader.set_position].
  rewrite Enull. destruct (fw_read BlockSize f1) as [data f2]. cbn [obind].
  destruct (_ >? 0); [|discriminate].
  intros [= <- _]. cbn. auto.
Qed.

(** X18.  The blocks of the ring buffer are read from block boundaries of
    the file: on a loaded stream over a mono file whose lead-in ends on a
    block boundary, as [loadIntroBuffer] sizes it, and holds no more samples
    than the data chunk ([_introBufSize <= numSamples]), a call of [prime]
    that answers [true] has left the loader at a byte offset that is a
    multiple of [BlockSize] and not before the end of the lead-in; that
    offset is the one its seek went to.  A lead-in that holds more samples
    than the data chunk, as after a short data chunk followed by another
    chunk, is outside this statement. *)
Theorem prime_seeks_block_boundary (s : t) (f : F) s' f' :
  loaded s ->
  BlockSize mod sz = 0 ->
  WavLoader.frameAlignment (_file s) = sz ->
  0 <= WavLoader._data_offset (_file s) ->
  (WavLoader._data_offset (_file s) + _introBufSize s * sz) mod BlockSize = 0 ->
  _introBufSize s <= WavLoader.numSamples (_file s) ->
  WavLoader._data_offset (_file s) + WavLoader.numSamples (_file s) * sz < 2 ^ 32 ->
  prime sz s f = Ok (true, s', f') ->
  WavLoader.position (_file s') mod BlockSize = 0 /\
  WavLoader._data_offset (_file s) + _introBufSize s * sz
    <= WavLoader.position (_file s').
Proof using Hsz.
  intros Hl Hdiv Hfa Hoff Halign Hlead Hend.
  pose proof (loaded_typed s Hl) as [Hi Hibs Hlen].
  pose proof (SamplesPerBlock_range sz Hsz) as Hspb.
  assert (Hbb : SamplesPerBlock sz * sz = 4096).
  { unfold SamplesPerBlock, BlockSize in *.
    pose proof (Z.div_mod 4096 sz). lia. }
  pose proof (readHeadBlock_range sz Hsz s (loaded_typed s Hl)) as Hrhb.
  pose proof (loaded_maxDiff_range sz Hsz s Hl) as Hmax.
  unfold WavLoader.numSamples in *.
  assert (Hfill : forall idx block (s1 : t) (f1 : F) s2 f2,
             kept_by_prime s s1 -> - 2 ^ 32 < block < 2 ^ 32 ->
             try_block sz idx block s1 f1 = Ok (Filled s2 f2) ->
             WavLoader.position (_file s2) mod BlockSize = 0 /\
             WavLoader._data_offset (_file s) + _introBufSize s * sz
               <= WavLoader.position (_file s2)).
  { intros idx block s1 f1 s2 f2 (_ & _ & _ & Hn1 & _ & p & Hf1) Hb Ht.
    apply try_block_filled in Ht. destruct Ht as (Hb0 & Hin & ->).
    rewrite Hn1, Hf1 in *.
    unfold WavLoader.numSamples in Hin.
    cbn [WavLoader._length WavLoader.set_position] in Hin.
    rewrite (usize_small (block * SamplesPerBlock sz)) in Hin by nia.
    rewrite (usize_small (WavLoader._length (_file s) - _introBufSize s))
      in Hin by lia.
    rewrite (usize_small (block * SamplesPerBlock sz + _introBufSize s)) by nia.
    rewrite (u32_small (block * SamplesPerBlock sz + _introBufSize s)) by nia.
    unfold WavLoader.filePositionForSample, WavLoader.frameAlignment,
      WavLoader.numSamples.
    cbn [WavLoader._length WavLoader._data_offset WavLoader._format
         WavLoader.set_position].
    fold (WavLoader.frameAlignment (_file s)).
    rewrite WavLoaderFacts.MIN_spec, Hfa, Z.min_l by lia.
    rewrite u32_small by nia.
    split; [|nia].
    replace (WavLoader._data_offset (_file s)
             + (block * SamplesPerBlock sz + _introBufSize s) * sz)
      with (WavLoader._data_offset (_file s) + _introBufSize s * sz
            + block * BlockSize) by (unfold BlockSize; nia).
    rewrite Z.mod_add by (unfold BlockSize; lia). exact Halign. }
  unfold prime.
  destruct (furthest (readHeadBlock sz s) (_bufBlockMap s)) as [idx maxDiff].
  cbn [snd] in Hmax. unfold INT_MAX in Hmax.
  destruct (maxDiff >? 0); [|discriminate].
  pose proof (for_loop_inv (try_distance sz idx (readHeadBlock sz s))
                (fun st => kept_by_prime s st.1)
                0 maxDiff (s, f) (kept_by_prime_refl s)) as Hloop.
  cbv beta in Hloop.
  assert (Hstep : forall i (st0 st1 : t * F),
             0 <= i < maxDiff -> kept_by_prime s st0.1 ->
             try_distance sz idx (readHeadBlock sz s) i st0 = inl st1 ->
             kept_by_prime s st1.1).
  { intros i st0 st1 _ Hk0 Hb.
    pose proof (try_distance_frame idx (readHeadBlock sz s) i st0) as Hd.
    rewrite Hb in Hd. destruct Hd as (Hk1 & _).
    eapply kept_by_prime_trans; eauto. }
  specialize (Hloop Hstep).
  destruct (for_loop _ 0 maxDiff (s, f)) as [[s1 f1]|r]; [discriminate|].
  destruct Hloop as (i & st0 & Hi0 & Hk0 & Hb).
  destruct r as [[s2 f2]| | | |]; cbn [obind]; try discriminate.
  intros [= <- <-]. unfold try_distance in Hb.
  pose proof (try_block_frame idx (readHeadBlock sz s + i) st0.1 st0.2) as Hfr.
  destruct (try_block sz idx (readHeadBlock sz s + i) st0.1 st0.2)
    as [[s3 f3|s3 f3|s3 f3]| | | |] eqn:E1; try discriminate.
  - injection Hb as <- <-.
    apply (Hfill idx (readHeadBlock sz s + i) _ _ _ _ Hk0 ltac:(lia) E1).
  - destruct Hfr as (Hk3 & _).
    destruct (try_block sz idx (readHeadBlock sz s + - i) s3 f3)
      as [[s4 f4|s4 f4|s4 f4]| | | |] eqn:E2; try discriminate.
    injection Hb as <- <-.
    apply (Hfill idx (readHeadBlock sz s + - i) _ _ _ _
             (kept_by_prime_trans _ _ _ Hk0 Hk3) ltac:(lia) E2).
Qed.

End Sampler.

(** X19.  [load] answers [BadFile] exactly when [WavLoader::open] refuses
    the file, and [BadSampleSize] exactly when the file was accepted and its
    bits per sample are not those of the sample type.  In both cases the
    stream keeps its cursor, buffers and block map, the loader is the one
    [open] left, and so is the storage: a file of the wrong sample size
    stays open. *)
Theorem load_refusal_leaves_stream `{FileWrapper F}
        (sz : Z) (fuel : nat) (s : t) (file : FileWrapperPtr) (f : F) e s' f' :
  load sz fuel s file f = Ok (e, s', f') -> e <> NoErr ->
  exists ok w,
    WavLoader.open fuel (_file s) file f = Ok (ok, w, f') /\
    s' = set_file w s /\
    (e = BadFile <-> ok = false) /\
    (e = BadSampleSize <-> ok = true /\ WavLoader.bitsPerSample w <> sz * 8).
Proof.
  unfold load.
  destruct (WavLoader.open fuel (_file s) file f) as [[[ok w] f1]| | | |];
    cbn [obind]; try discriminate.
  destruct ok.
  - destruct (Z.eqb_spec (WavLoader.bitsPerSample w) (sz * 8)) as [Hbits|Hbits];
      cbn [negb].
    + destruct (loadIntroBuffer sz (set_file w s) f1) as [[[e1 s1] f2]| | | |];
        cbn [obind]; try discriminate.
      intros [= <- _ _] Hne. contradiction.
    + intros [= <- <- <-] _. exists true, w. repeat split; auto; discriminate.
  - intros [= <- <- <-] _. exists false, w.
    repeat split; auto; try discriminate. intros [Hok _]. discriminate.
Qed.

Lemma load_refusal_leaves_stream_witness :
  exists ok w,
    WavLoader.open 2 (_file blank_stream) wrapper_ptr
      (MemFile.of_bytes (mono16 100))
    = Ok (ok, w, MemFile.mk (mono16 100) 44 true) /\
    set_file (WavLoader.mk (format_bytes (pcm 1 8000 2)) wrapper_ptr 0 100 44 244)
             blank_stream
    = set_file w blank_stream /\
    (BadSampleSize = BadFile <-> ok = false) /\
    (BadSampleSize = BadSampleSize <->
     ok = true /\ WavLoader.bitsPerSample w <> 1 * 8).
Proof.
  apply (load_refusal_leaves_stream 1 2 blank_stream wrapper_ptr
           (MemFile.of_bytes (mono16 100)) BadSampleSize
           (set_file (WavLoader.mk (format_bytes (pcm 1 8000 2)) wrapper_ptr
                                   0 100 44 244) blank_stream)
           (MemFile.mk (mono16 100) 44 true));
    [vm_compute; reflexivity | discriminate].
Defined.

(** X20.  The cursor setters and the end of the stream: [setSampleIndex]
    puts the stream at its end exactly when the index asked for is not below
    the sample count, and [reset] leaves only an empty stream at its end. *)
Theorem atEOF_after_cursor_setters (s : t) (i : Z) :
  atEOF (setSampleIndex i s) = (WavLoader.numSamples (_file s) <=? i) /\
  atEOF (reset s) = (WavLoader.numSamples (_file s) <=? 0).
Proof.
  assert (Hset : forall k,
             atEOF (setSampleIndex k s) = (WavLoader.numSamples (_file s) <=? k)).
  { intros k. unfold atEOF, setSampleIndex. cbn [_sampleIdx _file set_sampleIdx].
    rewrite Z.geb_leb.
    destruct (Z.leb_spec (WavLoader.numSamples (_file s)) k);
      [apply Z.leb_le | apply Z.leb_gt]; lia. }
  split; apply Hset.
Qed.

(** The witnesses use the stream loaded from a container of 8158 one-byte
    samples, whose lead-in holds 8148 of them. *)

Lemma read_count_cursor_and_bytes_witness :
  let '(count, out, s') := read 1 (setSampleIndex 8140 (loaded_mono8 8158)) 20 in
  0 <= count <= 20 /\
  sampleIndex s' = u32 (sampleIndex (setSampleIndex 8140 (loaded_mono8 8158)) + count) /\
  nbytes out = count * 1 /\
  (count < 20 ->
   find_block (_bufBlockMap s')
     (to_int (usize (_sampleIdx s' - _introBufSize s') / SamplesPerBlock 1))
   = None).
Proof.
  apply (read_count_cursor_and_bytes 1 ltac:(lia)
           (setSampleIndex 8140 (loaded_mono8 8158)) 20).
  - constructor; vm_compute; split; congruence.
  - lia.
  - vm_compute. congruence.
  - vm_compute. congruence.
Defined.

Lemma prime_writes_cache_only_witness :
  exists filled s' f',
    prime 1 (loaded_mono8 8158) (storage_mono8 8158) = Ok (filled, s', f') /\
    sampleIndex s' = sampleIndex (loaded_mono8 8158) /\
    _readHead s' = _readHead (loaded_mono8 8158) /\
    _introBuf s' = _introBuf (loaded_mono8 8158) /\
    _introBufSize s' = _introBufSize (loaded_mono8 8158) /\
    length (_ringBuf s') = length (_ringBuf (loaded_mono8 8158)) /\
    (exists p, _file s' = WavLoader.set_position p (_file (loaded_mono8 8158))) /\
    (filled = false ->
     _ringBuf s' = _ringBuf (loaded_mono8 8158) /\
     _bufBlockMap s' = _bufBlockMap (loaded_mono8 8158)).
Proof.
  destruct (prime_spec (F := MemFile.t) 1 (loaded_mono8 8158)
              (storage_mono8 8158) (loaded_file _ loaded_mono8_8158))
    as (filled & s' & f' & Hp & _).
  exists filled, s', f'. split; [exact Hp|].
  exact (prime_writes_cache_only 1 _ _ _ _ _ Hp).
Defined.

Lemma reset_replays_lead_in_witness :
  exists s' f',
    run 1 [Prime; Read 100; SetSampleIndex 8150; Prime; Read 4]
        (loaded_mono8 8158) (storage_mono8 8158) = Ok (s', f') /\
    (read 1 (reset s') 64).1
    = (64, samples_at 1 (_introBuf (loaded_mono8 8158)) 0 64).
Proof.
  apply (reset_replays_lead_in (F := MemFile.t) 1 ltac:(lia)
           [Prime; Read 100; SetSampleIndex 8150; Prime; Read 4]
           (loaded_mono8 8158) (storage_mono8 8158) 64 loaded_mono8_8158);
    [lia | vm_compute; congruence].
Defined.

Lemma read_served_by_lead_in_witness :
  read 1 (loaded_mono8 8158) 64 =
  (64, samples_at 1 (_introBuf (loaded_mono8 8158))
         (sampleIndex (loaded_mono8 8158)) 64,
   set_sampleIdx (u32 (sampleIndex (loaded_mono8 8158) + 64))
     (set_readHead (IntroBuf (sampleIndex (loaded_mono8 8158) + 64))
        (loaded_mono8 8158))).
Proof.
  apply (read_served_by_lead_in 1 (loaded_mono8 8158) 64);
    [vm_compute; congruence | lia | vm_compute; congruence].
Defined.


Lemma prime_repairs_miss_at_read_head_witness :
  exists s' f',
    prime 1 (setSampleIndex 8148 (loaded_mono8 8158)) (storage_mono8 8158)
    = Ok (true, s', f') /\
    _bufBlockMap s' = [0; UnmappedBlock; UnmappedBlock] /\
    forall n, 0 < n < 2 ^ 31 -> 0 < (read 1 s' n).1.1.
Proof.
  assert (Hl : loaded (setSampleIndex 8148 (loaded_mono8 8158))).
  { apply (loaded_same_cache (loaded_mono8 8158));
      [exact loaded_mono8_8158 | vm_compute; split; congruence
      | vm_compute; reflexivity ..]. }
  destruct (prime_repairs_miss_at_read_head (F := MemFile.t) 1 ltac:(lia)
              (setSampleIndex 8148 (loaded_mono8 8158)) (storage_mono8 8158) Hl
              ltac:(vm_compute; reflexivity) ltac:(vm_compute; congruence)
              ltac:(vm_compute; reflexivity) ltac:(vm_compute; reflexivity))
    as (s' & Hp & Hm & _ & Hread).
  exists s'. eexists. split; [exact Hp|]. split; [|exact Hread].
  rewrite Hm. vm_compute. reflexivity.
Defined.

Lemma prime_mono8_8158 :
  exists s' f',
    prime 1 (loaded_mono8 8158) (storage_mono8 8158) = Ok (true, s', f').
Proof.
  eexists. eexists.
  apply (prime_miss_at_read_head (F := MemFile.t) 1 ltac:(lia)
           (loaded_mono8 8158) (storage_mono8 8158) loaded_mono8_8158);
    vm_compute; congruence.
Qed.

Lemma prime_evicts_furthest_for_nearer_witness :
  exists s' f',
    prime 1 (loaded_mono8 8158) (storage_mono8 8158) = Ok (true, s', f') /\
    exists block,
      0 <= block /\
      block_mapped (_bufBlockMap (loaded_mono8 8158)) block = false /\
      _bufBlockMap s'
      = <[(furthest (readHeadBlock 1 (loaded_mono8 8158))
             (_bufBlockMap (loaded_mono8 8158))).1 := block]>
          (_bufBlockMap (loaded_mono8 8158)).
Proof.
  destruct prime_mono8_8158 as (s' & f' & Hp).
  exists s', f'. split; [exact Hp|].
  destruct (prime_evicts_furthest_for_nearer (F := MemFile.t) 1 ltac:(lia)
              (loaded_mono8 8158) (storage_mono8 8158) s' f'
              loaded_mono8_8158 Hp)
    as (_ & _ & block & H0 & Hnew & _ & Hmap).
  exists block. auto.
Defined.

Lemma prime_seeks_block_boundary_witness :
  exists s' f',
    prime 1 (loaded_mono8 8158) (storage_mono8 8158) = Ok (true, s', f') /\
    WavLoader.position (_file s') mod BlockSize = 0.
Proof.
  destruct prime_mono8_8158 as (s' & f' & Hp).
  exists s', f'. split; [exact Hp|].
  apply (prime_seeks_block_boundary (F := MemFile.t) 1 ltac:(lia)
           (loaded_mono8 8158) (storage_mono8 8158) s' f' loaded_mono8_8158
           ltac:(reflexivity) ltac:(vm_compute; reflexivity)
           ltac:(vm_compute; congruence) ltac:(vm_compute; reflexivity)
           ltac:(vm_compute; congruence) ltac:(vm_compute; reflexivity) Hp).
Defined.

(** ** The samples delivered are those of the file *)

Lemma byte_at_eq (l1 l2 : list byte) :
  (forall i, 0 <= i -> byte_at l1 i = byte_at l2 i) -> l1 = l2.
Proof.
  intros Hall. apply list_eq. intros i.
  specialize (Hall (Z.of_nat i) ltac:(lia)). unfold byte_at in Hall.
  rewrite Nat2Z.id in Hall. exact Hall.
Qed.

Lemma sub_byte_at (a n : Z) (l : list byte) (i : Z) :
  0 <= a -> 0 <= i ->
  byte_at (sub (Z.to_nat a) (Z.to_nat n) l) i =
  if decide (i < n) then byte_at l (a + i) else None.
Proof.
  intros Ha Hi. unfold byte_at, sub. rewrite lookup_take, lookup_drop.
  destruct (decide (i < n)) as [Hlt|Hge].
  - rewrite decide_True by lia. f_equal. lia.
  - rewrite decide_False by lia. reflexivity.
Qed.

Lemma sub_append (a n m : nat) (l : list byte) :
  sub a n l ++ sub (a + n) m l = sub a (n + m) l.
Proof.
  unfold sub. rewrite <- (drop_drop l n a). apply take_take_drop.
Qed.

Lemma memcpy_into_byte_at (buf : list byte) (off : Z) (src : list byte) (i : Z) :
  0 <= off -> off + nbytes src <= nbytes buf -> 0 <= i ->
  byte_at (memcpy_into buf off src) i =
  if decide (off <= i < off + nbytes src)
  then byte_at src (i - off) else byte_at buf i.
Proof.
  intros Hoff Hroom Hi. unfold byte_at, memcpy_into, nbytes in *.
  set (o := Z.to_nat off) in *.
  rewrite (take_ge src) by lia.
  destruct (decide (off <= i < off + Z.of_nat (length src))) as [Hin|Hout].
  - rewrite lookup_app_r by (rewrite length_take; lia).
    rewrite length_take, Nat.min_l by lia.
    rewrite lookup_app_l by lia. f_equal. lia.
  - destruct (decide (i < off)) as [Hlt|Hge].
    + rewrite lookup_app_l by (rewrite length_take; lia).
      apply lookup_take_lt. lia.
    + rewrite lookup_app_r by (rewrite length_take; lia).
      rewrite length_take, Nat.min_l by lia.
      rewrite lookup_app_r by lia. rewrite lookup_drop. f_equal. lia.
Qed.

Section Sync.
Variable sz : Z.
Hypothesis Hsz : 1 <= sz <= 8.
Hypothesis Hdiv : BlockSize mod sz = 0.
Variable payload : list byte.
Hypothesis Hfit : nbytes payload + 44 < 2 ^ 32.

Lemma block_bytes : SamplesPerBlock sz * sz = BlockSize.
Proof using Hsz Hdiv.
  unfold SamplesPerBlock. pose proof (Z.div_mod BlockSize sz). lia.
Qed.

Lemma sync_count_le (s : t) (f : MemFile.t) :
  in_sync sz payload s f ->
  WavLoader.numSamples (_file s) * sz <= nbytes payload.
Proof using Hsz.
  intros Hs. rewrite (sync_count _ _ _ _ Hs).
  pose proof (Z.mul_div_le (nbytes payload) sz). lia.
Qed.

(** Moving the cursor and the read head keeps a stream in step with its
    file. *)
Lemma in_sync_same (s s' : t) (f : MemFile.t) :
  in_sync sz payload s f ->
  0 <= _sampleIdx s' < 2 ^ 32 ->
  _file s' = _file s -> _introBufSize s' = _introBufSize s ->
  _introBuf s' = _introBuf s -> _ringBuf s' = _ringBuf s ->
  _bufBlockMap s' = _bufBlockMap s ->
  in_sync sz payload s' f.
Proof.
  intros [Hl Ho Hfa Hc Hlc Hli Hrs Hr Hb Hop] Hi Hf Hn Hib Hrb Hm.
  constructor; rewrite ?Hf, ?Hn, ?Hib, ?Hrb, ?Hm; auto.
  apply (loaded_same_cache s); auto.
Qed.

Lemma read_intro_bytes (s : t) (f : MemFile.t) (n : Z) :
  in_sync sz payload s f -> 0 <= n < 2 ^ 32 ->
  _sampleIdx s + n <= WavLoader.numSamples (_file s) ->
  let '(s1, left1, out1) := read_intro sz s n in
  in_sync sz payload s1 f /\
  out1 = sub (Z.to_nat (_sampleIdx s * sz)) (Z.to_nat ((n - left1) * sz)) payload /\
  _sampleIdx s1 = _sampleIdx s + (n - left1) /\
  0 <= left1 <= n /\
  (left1 = 0 \/ _introBufSize s <= _sampleIdx s1).
Proof using Hsz Hfit.
  intros Hs Hn Hend.
  pose proof (sync_loaded _ _ _ _ Hs) as Hl.
  destruct (loaded_typed s Hl) as [Hi Hb Hlen].
  pose proof (sync_count_le s f Hs) as Hcount.
  unfold WavLoader.numSamples in *.
  unfold read_intro.
  destruct (Z.ltb_spec (_sampleIdx s) (_introBufSize s)) as [E|E].
  2:{ rewrite Z.sub_diag. split; [exact Hs|]. split; [reflexivity|].
      repeat split; try lia. }
  cbn [_sampleIdx set_sampleIdx set_readHead].
  assert (Hout : forall k, 0 <= k -> _sampleIdx s + k <= _introBufSize s ->
            samples_at sz (_introBuf s) (_sampleIdx s) k
            = sub (Z.to_nat (_sampleIdx s * sz)) (Z.to_nat (k * sz)) payload).
  { intros k Hk Hin. unfold samples_at. apply byte_at_eq. intros i Hi0.
    rewrite !sub_byte_at by nia.
    destruct (decide (i < k * sz)); [|reflexivity].
    apply (sync_lead_in _ _ _ _ Hs). nia. }
  destruct (Z.gtb_spec (_sampleIdx s + n) (_introBufSize s)) as [E2|E2].
  - rewrite (usize_small (_introBufSize s - _sampleIdx s)) by lia.
    rewrite (u32_small (_introBufSize s - _sampleIdx s)) by lia.
    rewrite (u32_small (n - _)) by lia.
    rewrite (u32_small (_sampleIdx s + _)) by lia.
    split.
    { apply (in_sync_same s); auto. cbn. lia. }
    split.
    { rewrite Hout by lia. f_equal. f_equal. lia. }
    repeat split; try lia.
  - rewrite Z.sub_diag. change (u32 0) with 0. rewrite Z.sub_0_r.
    rewrite (u32_small (_sampleIdx s + n)) by lia.
    split.
    { apply (in_sync_same s); auto. cbn. lia. }
    split; [apply Hout; lia|]. repeat split; try lia.
Qed.

Lemma read_block_bytes (s : t) (f : MemFile.t) (left' : Z) (out : list byte)
      s1 left1 out1 :
  in_sync sz payload s f -> 0 < left' < 2 ^ 32 ->
  _introBufSize s <= _sampleIdx s ->
  _sampleIdx s + left' <= WavLoader.numSamples (_file s) ->
  read_block sz (s, left', out) = Some (s1, left1, out1) ->
  in_sync sz payload s1 f /\
  out1 = out ++ sub (Z.to_nat (_sampleIdx s * sz))
                    (Z.to_nat ((left' - left1) * sz)) payload /\
  _sampleIdx s1 = _sampleIdx s + (left' - left1) /\
  0 <= left1 < left'.
Proof using Hsz Hdiv Hfit.
  intros Hs Hleft Hpast Hend.
  pose proof (sync_loaded _ _ _ _ Hs) as Hl.
  destruct (loaded_typed s Hl) as [Hi Hb Hlen].
  pose proof (sync_count_le s f Hs) as Hcount.
  pose proof (SamplesPerBlock_range sz Hsz) as Hspb.
  pose proof block_bytes as Hbb. unfold BlockSize in Hbb.
  unfold WavLoader.numSamples in *.
  unfold read_block.
  rewrite (usize_small (_sampleIdx s - _introBufSize s)) by lia.
  set (x := _sampleIdx s - _introBufSize s).
  assert (Hq : 0 <= x / SamplesPerBlock sz < 2 ^ 23).
  { split; [apply Z.div_pos; lia|]. apply Z.div_lt_upper_bound; lia. }
  assert (Hoff : 0 <= x mod SamplesPerBlock sz < SamplesPerBlock sz)
    by (apply Z.mod_pos_bound; lia).
  pose proof (Z.div_mod x (SamplesPerBlock sz) ltac:(lia)) as Hdm.
  rewrite (to_int_small (x / SamplesPerBlock sz)) by lia.
  rewrite (to_int_small (x mod SamplesPerBlock sz)) by lia.
  destruct (find_block _ _) as [k|] eqn:Ek; [|discriminate].
  apply scan_slots_some in Ek. destruct Ek as [Hk Hfound].
  pose proof (loaded_map_range s Hl k ltac:(lia)) as Hentry.
  unfold INT_MAX in Hentry. rewrite to_int_small in Hfound by lia.
  apply Z.eqb_eq in Hfound.
  replace ((Z.of_nat k + 1) * SamplesPerBlock sz
           - (Z.of_nat k * SamplesPerBlock sz + x mod SamplesPerBlock sz))
    with (SamplesPerBlock sz - x mod SamplesPerBlock sz) by lia.
  set (to_read := if SamplesPerBlock sz - x mod SamplesPerBlock sz <=? left'
                  then u32 (SamplesPerBlock sz - x mod SamplesPerBlock sz)
                  else left').
  assert (Hto : 0 < to_read <= left' /\
                x mod SamplesPerBlock sz + to_read <= SamplesPerBlock sz).
  { unfold to_read.
    destruct (Z.leb_spec (SamplesPerBlock sz - x mod SamplesPerBlock sz) left');
      [rewrite u32_small by lia|]; lia. }
  intros [= <- <- <-].
  cbn [_sampleIdx set_sampleIdx set_readHead].
  rewrite (u32_small (left' - to_read)) by lia.
  rewrite (u32_small (_sampleIdx s + to_read)) by lia.
  split.
  { apply (in_sync_same s); auto. cbn. lia. }
  split; [|lia].
  f_equal. replace (left' - (left' - to_read)) with to_read by lia.
  unfold samples_at. apply byte_at_eq. intros i Hi0.
  rewrite !sub_byte_at by nia.
  destruct (decide (i < to_read * sz)); [|reflexivity].
  pose proof (sync_ring _ _ _ _ Hs k (x mod SamplesPerBlock sz * sz + i)
                ltac:(lia) ltac:(unfold BlockSize; nia)
                ltac:(unfold UnmappedBlock, INT_MAX; lia)) as Hring.
  rewrite Hfound in Hring.
  replace ((Z.of_nat k * SamplesPerBlock sz + x mod SamplesPerBlock sz) * sz + i)
    with (Z.of_nat k * BlockSize + (x mod SamplesPerBlock sz * sz + i))
    by (unfold BlockSize; nia).
  replace (_sampleIdx s * sz + i)
    with ((x / SamplesPerBlock sz * SamplesPerBlock sz + _introBufSize s) * sz
          + (x mod SamplesPerBlock sz * sz + i)) by (unfold x in *; nia).
  apply Hring. unfold x in *. nia.
Qed.

Lemma read_cache_bytes fuel (s : t) (f : MemFile.t) (left' : Z) (out : list byte) :
  in_sync sz payload s f -> 0 <= left' < 2 ^ 32 ->
  left' = 0 \/ _introBufSize s <= _sampleIdx s ->
  _sampleIdx s + left' <= WavLoader.numSamples (_file s) ->
  let '(s1, left1, out1) := read_cache sz fuel (s, left', out) in
  out1 = out ++ sub (Z.to_nat (_sampleIdx s * sz))
                    (Z.to_nat ((left' - left1) * sz)) payload /\
  0 <= left1 <= left'.
Proof using Hsz Hdiv Hfit.
  revert s left' out.
  induction fuel as [|fuel IH]; intros s left' out Hs Hleft Hpast Hend.
  - cbn [read_cache]. rewrite Z.sub_diag. cbn. rewrite app_nil_r. split; [reflexivity|lia].
  - cbn [read_cache fst snd]. destruct (Z.gtb_spec left' 0) as [E|E].
    2:{ rewrite Z.sub_diag. cbn. rewrite app_nil_r. split; [reflexivity|lia]. }
    destruct (read_block sz (s, left', out)) as [[[s1 left1] out1]|] eqn:Eb.
    2:{ rewrite Z.sub_diag. cbn. rewrite app_nil_r. split; [reflexivity|lia]. }
    pose proof (read_block_frame _ _ _ _ _ _ _ Eb) as (Hf1 & Hn1 & _).
    destruct (loaded_typed s (sync_loaded _ _ _ _ Hs)) as [Hi _ _].
    apply (read_block_bytes s f) in Eb; [|assumption|lia|lia|lia].
    destruct Eb as (Hs1 & Ho1 & Hi1 & Hl1).
    specialize (IH s1 left1 out1 Hs1 ltac:(lia)
                   ltac:(right; rewrite Hn1; lia)
                   ltac:(rewrite Hf1; lia)).
    destruct (read_cache sz fuel (s1, left1, out1)) as [[s2 left2] out2].
    destruct IH as (Ho2 & Hl2). split; [|lia].
    rewrite Ho2, Ho1, <- app_assoc. f_equal.
    rewrite Hi1.
    replace (Z.to_nat ((_sampleIdx s + (left' - left1)) * sz))
      with (Z.to_nat (_sampleIdx s * sz) + Z.to_nat ((left' - left1) * sz))%nat
      by nia.
    rewrite sub_append. f_equal. nia.
Qed.

(** In a stream in step with its file, [read] delivers the bytes of the
    payload at the cursor. *)
Lemma read_bytes (s : t) (f : MemFile.t) (n : Z) :
  in_sync sz payload s f -> 0 <= n < 2 ^ 31 ->
  sampleIndex s + n <= WavLoader.numSamples (_file s) ->
  (read sz s n).1.2
  = sub (Z.to_nat (sampleIndex s * sz))
        (Z.to_nat ((read sz s n).1.1 * sz)) payload.
Proof using Hsz Hdiv Hfit.
  intros Hs Hn Hend. unfold read, sampleIndex in *.
  pose proof (read_intro_bytes s f n Hs ltac:(lia) Hend) as H1.
  pose proof (read_intro_frame sz s n) as Hf1.
  destruct (read_intro sz s n) as [[s1 left1] out1].
  cbv zeta in Hf1. cbn [fst snd] in Hf1.
  destruct Hf1 as (Hfile & Hibs & _).
  destruct H1 as (Hs1 & Ho1 & Hi1 & Hl1 & Hpast).
  destruct (loaded_typed s (sync_loaded _ _ _ _ Hs)) as [Hi _ _].
  pose proof (read_cache_bytes (Z.to_nat n) s1 f left1 out1 Hs1 ltac:(lia)
                ltac:(rewrite Hibs; exact Hpast)
                ltac:(rewrite Hfile; lia)) as H2.
  destruct (read_cache sz (Z.to_nat n) (s1, left1, out1)) as [[s2 left2] out2].
  destruct H2 as (Ho2 & Hl2). cbn [fst snd].
  rewrite (u32_small (n - left2)), (to_int_small (n - left2)) by lia.
  rewrite Ho2, Ho1, Hi1.
  replace (Z.to_nat ((_sampleIdx s + (n - left1)) * sz))
    with (Z.to_nat (_sampleIdx s * sz) + Z.to_nat ((n - left1) * sz))%nat
    by nia.
  rewrite sub_append. f_equal. nia.
Qed.

Lemma payload_byte_at (bytes : list byte) (q : Z) :
  drop 44 bytes = payload -> 0 <= q ->
  byte_at bytes (44 + q) = byte_at payload q.
Proof.
  intros <- Hq. unfold byte_at. rewrite lookup_drop. f_equal. lia.
Qed.

(** An attempt of [prime] on one candidate keeps the stream in step with
    the file, whether it fills the slot or not. *)
Lemma try_block_in_sync idx block (s : t) (f : MemFile.t) :
  in_sync sz payload s f -> (idx < NumBlocks)%nat ->
  - 2 ^ 32 < block < 2 ^ 32 ->
  match try_block sz idx block s f with
  | Ok (Filled s' f') | Ok (LeaveSigns s' f') | Ok (NextSign s' f') =>
      in_sync sz payload s' f'
  | _ => False
  end.
Proof using Hsz Hdiv Hfit.
  intros Hs Hidx Hblock.
  pose proof Hs as [Hl Ho Hfa Hceq Hlc Hli Hrs Hr Hb Hop].
  pose proof (sync_count_le s f Hs) as Hc.
  pose proof (loaded_typed s Hl) as [Hi Hibs Hlen].
  pose proof (SamplesPerBlock_range sz Hsz) as Hspb.
  pose proof block_bytes as Hbb. unfold BlockSize in Hbb, Hrs.
  unfold WavLoader.numSamples in *.
  unfold try_block.
  destruct (Z.ltb_spec block 0) as [Hneg|Hnn]; [exact Hs|].
  rewrite (usize_small (block * SamplesPerBlock sz)) by nia.
  rewrite (usize_small (WavLoader.numSamples (_file s) - _introBufSize s))
    by (unfold WavLoader.numSamples; lia).
  unfold WavLoader.numSamples.
  destruct (Z.gtb_spec (block * SamplesPerBlock sz)
              (WavLoader._length (_file s) - _introBufSize s)) as [Hout|Hin];
    [exact Hs|].
  destruct (block_mapped (_bufBlockMap s) block) eqn:Emap; [exact Hs|].
  replace (block >=? 0) with true by (symmetry; apply Z.geb_le; lia).
  rewrite WavLoaderFacts.seek_spec by (apply (loaded_file s Hl)).
  rewrite (usize_small (block * SamplesPerBlock sz + _introBufSize s)) by nia.
  rewrite (u32_small (block * SamplesPerBlock sz + _introBufSize s)) by nia.
  set (pos := WavLoader.filePositionForSample (_file s)
                (block * SamplesPerBlock sz + _introBufSize s)).
  assert (Hpos : pos = 44 + (block * SamplesPerBlock sz + _introBufSize s) * sz).
  { unfold pos, WavLoader.filePositionForSample.
    rewrite WavLoaderFacts.MIN_spec, Hfa, Ho.
    unfold WavLoader.numSamples. rewrite Z.min_l by lia.
    apply u32_small. nia. }
  destruct f as [bytes fpos opened]. cbn [MemFile.bytes MemFile.opened] in Hb, Hop.
  subst opened.
  change (fw_seek pos (MemFile.mk bytes fpos true))
    with (true, MemFile.mk bytes pos true).
  cbn [obind fst snd negb].
  unfold WavLoader.read.
  cbn [set_file _file WavLoader.set_position WavLoader._file].
  rewrite (loaded_file s Hl). cbn [is_null].
  change (fw_read BlockSize (MemFile.mk bytes pos true))
    with (sub (Z.to_nat pos) (Z.to_nat BlockSize) bytes,
          MemFile.mk bytes
            (pos + nbytes (sub (Z.to_nat pos) (Z.to_nat BlockSize) bytes)) true).
  cbv iota. set (data := sub (Z.to_nat pos) (Z.to_nat BlockSize) bytes).
  assert (Hdata : nbytes data
                  = Z.min 4096 (Z.max 0 (nbytes bytes - pos))).
  { unfold data, nbytes, sub, BlockSize. rewrite length_take, length_drop. lia. }
  assert (Hbytes : nbytes payload = Z.max 0 (nbytes bytes - 44)).
  { rewrite <- Hb. unfold nbytes. rewrite length_drop. lia. }
  cbn [obind]. rewrite (u32_small (nbytes data)) by lia.
  assert (Hfile : forall s0 : t,
             WavLoader.frameAlignment
               (WavLoader.set_position pos (_file s)) = sz)
    by (intros _; exact Hfa).
  destruct (Z.gtb_spec (nbytes data) 0) as [Hgot|Hnone].
  - (* the slot is filled *)
    assert (Hmaplen : length (_bufBlockMap s) = NumBlocks)
      by exact (loaded_map_length s Hl).
    rewrite (u32_small block) by lia.
    constructor;
      cbn [_file _introBufSize _introBuf _ringBuf _bufBlockMap _sampleIdx
           set_file set_ringBuf set_bufBlockMap
           WavLoader._data_offset WavLoader._length WavLoader.set_position
           MemFile.bytes MemFile.opened]; auto.
    + constructor; [constructor| | |]; cbn; auto.
      * exact (loaded_file s Hl).
      * rewrite length_insert. exact Hmaplen.
      * intros j Hj. destruct (decide (j = idx)) as [->|Hne].
        -- rewrite list_lookup_total_insert_eq by lia. unfold INT_MAX. nia.
        -- rewrite list_lookup_total_insert_ne by auto.
           apply (loaded_map_range s Hl). exact Hj.
    + unfold nbytes. rewrite memcpy_into_length. exact Hrs.
    + intros j k Hj Hk. unfold BlockSize in Hk |- *.
      unfold NumBlocks in *.
      destruct (decide (j = idx)) as [->|Hne].
      * rewrite list_lookup_total_insert_eq by lia. intros _ Hq.
        rewrite memcpy_into_byte_at by nia.
        rewrite decide_True by nia.
        unfold data. rewrite sub_byte_at by nia.
        rewrite decide_True by (unfold BlockSize; nia).
        replace (pos + (Z.of_nat idx * 4096 + k
                        - Z.of_nat idx * SamplesPerBlock sz * sz))
          with (44 + ((block * SamplesPerBlock sz + _introBufSize s) * sz + k))
          by nia.
        apply payload_byte_at; [exact Hb | nia].
      * rewrite list_lookup_total_insert_ne by auto. intros Hocc Hq.
        rewrite memcpy_into_byte_at by nia.
        rewrite decide_False by nia.
        apply Hr; auto.
  - (* nothing was transferred *)
    assert (Hnil : data = []).
    { destruct data; [reflexivity|]. unfold nbytes in Hnone. cbn in Hnone. lia. }
    rewrite Hnil, memcpy_into_nil.
    constructor;
      cbn [_file _introBufSize _introBuf _ringBuf _bufBlockMap _sampleIdx
           set_file set_ringBuf set_bufBlockMap
           WavLoader._data_offset WavLoader._length WavLoader.set_position
           MemFile.bytes MemFile.opened]; auto.
    constructor; [constructor| | |]; cbn; auto.
    + exact (loaded_file s Hl).
    + exact (loaded_map_length s Hl).
    + exact (loaded_map_range s Hl).
Qed.

Lemma try_distance_in_sync idx rhb absDiff (st : t * MemFile.t) :
  in_sync sz payload st.1 st.2 -> (idx < NumBlocks)%nat ->
  0 <= rhb <= 2 ^ 23 -> 0 <= absDiff <= INT_MAX ->
  match try_distance sz idx rhb absDiff st with
  | inl st' => in_sync sz payload st'.1 st'.2
  | inr (Ok (s', f')) => in_sync sz payload s' f'
  | inr _ => False
  end.
Proof using Hsz Hdiv Hfit.
  intros Hs Hidx Hrhb Hdiff. unfold INT_MAX in Hdiff. unfold try_distance.
  pose proof (try_block_in_sync idx (rhb + absDiff) st.1 st.2 Hs Hidx
                ltac:(lia)) as H1.
  destruct (try_block sz idx (rhb + absDiff) st.1 st.2)
    as [[s1 f1|s1 f1|s1 f1]| | | |]; try contradiction; try exact H1.
  pose proof (try_block_in_sync idx (rhb + - absDiff) s1 f1 H1 Hidx
                ltac:(lia)) as H2.
  destruct (try_block sz idx (rhb + - absDiff) s1 f1)
    as [[s2 f2|s2 f2|s2 f2]| | | |]; try contradiction; exact H2.
Qed.

Lemma prime_in_sync (s : t) (f : MemFile.t) :
  in_sync sz payload s f ->
  exists filled s' f',
    prime sz s f = Ok (filled, s', f') /\ in_sync sz payload s' f'.
Proof using Hsz Hdiv Hfit.
  intros Hs. pose proof (sync_loaded _ _ _ _ Hs) as Hl.
  pose proof (furthest_slot sz s Hl) as Hidx.
  pose proof (loaded_maxDiff_range sz Hsz s Hl) as Hmax.
  pose proof (readHeadBlock_range sz Hsz s (loaded_typed s Hl)) as Hrhb.
  unfold prime.
  destruct (furthest (readHeadBlock sz s) (_bufBlockMap s)) as [idx maxDiff].
  cbn [fst snd] in *.
  destruct (maxDiff >? 0); [|exists false, s, f; auto].
  pose proof (for_loop_inv (try_distance sz idx (readHeadBlock sz s))
                (fun st => in_sync sz payload st.1 st.2)
                0 maxDiff (s, f) Hs) as Hloop.
  cbv beta in Hloop.
  assert (Hstep : forall i (st0 st1 : t * MemFile.t),
             0 <= i < maxDiff ->
             in_sync sz payload st0.1 st0.2 ->
             try_distance sz idx (readHeadBlock sz s) i st0 = inl st1 ->
             in_sync sz payload st1.1 st1.2).
  { intros i st0 st1 Hi Hs0 Hb.
    pose proof (try_distance_in_sync idx (readHeadBlock sz s) i st0 Hs0 Hidx
                  Hrhb ltac:(lia)) as Hd.
    rewrite Hb in Hd. exact Hd. }
  specialize (Hloop Hstep).
  destruct (for_loop _ 0 maxDiff (s, f)) as [[s1 f1]|r].
  - exists false, s1, f1. split; [reflexivity | exact Hloop].
  - destruct Hloop as (i & st0 & Hi & Hs0 & Hb).
    pose proof (try_distance_in_sync idx (readHeadBlock sz s) i st0 Hs0 Hidx
                  Hrhb ltac:(lia)) as Hd.
    rewrite Hb in Hd. destruct r as [[s1 f1]| | | |]; try contradiction.
    exists true, s1, f1. split; [reflexivity | exact Hd].
Qed.

Lemma do_call_in_sync (c : call) (s : t) (f : MemFile.t) :
  in_sync sz payload s f ->
  exists s' f', do_call sz c s f = Ok (s', f') /\ in_sync sz payload s' f'.
Proof using Hsz Hdiv Hfit.
  intros Hs. pose proof (sync_loaded _ _ _ _ Hs) as Hl.
  destruct (loaded_typed s Hl) as [Hi Hb Hlen].
  destruct c as [|n|i|]; cbn [do_call].
  - destruct (prime_in_sync s f Hs) as (filled & s' & f' & Hp & Hs').
    rewrite Hp. cbn [obind]. eauto.
  - exists (read sz s (u32 n)).2, f. split; [reflexivity|].
    pose proof (read_spec sz Hsz s (u32 n) (u32_range n) (loaded_typed s Hl))
      as (Hi' & _).
    pose proof (read_frame sz s (u32 n)) as Hfr. cbv zeta in Hfr.
    destruct Hfr as (? & ? & ? & ? & ?).
    apply (in_sync_same s); auto.
  - exists (setSampleIndex (u32 i) s), f. split; [reflexivity|].
    pose proof (u32_range i).
    apply (in_sync_same s); auto.
    unfold setSampleIndex, WavLoader.numSamples. cbn. lia.
  - exists (reset s), f. split; [reflexivity|].
    apply (in_sync_same s); auto.
    unfold reset, setSampleIndex, WavLoader.numSamples. cbn. lia.
Qed.

Lemma run_in_sync (calls : list call) (s : t) (f : MemFile.t) :
  in_sync sz payload s f ->
  exists s' f', run sz calls s f = Ok (s', f') /\ in_sync sz payload s' f'.
Proof using Hsz Hdiv Hfit.
  revert s f. induction calls as [|c calls IH]; intros s f Hs.
  - exists s, f. auto.
  - cbn [run].
    destruct (do_call_in_sync c s f Hs) as (s1 & f1 & Hc & Hs1).
    rewrite Hc. cbn [obind]. apply IH. exact Hs1.
Qed.

Lemma load_in_sync fuel (s0 : t) (fm : WavFormat) :
  nbytes (_introBuf s0) = BlockSize * 2 ->
  nbytes (_ringBuf s0) = BlockSize * 3 ->
  block_align fm mod 2 ^ 16 = sz ->
  bits_per_sample fm mod 2 ^ 16 = sz * 8 ->
  exists s f,
    load sz (S (S fuel)) (construct s0) wrapper_ptr
      (MemFile.of_bytes (SimpleWavHeader fm (nbytes payload) ++ payload))
    = Ok (NoErr, s, f) /\
    in_sync sz payload s f /\
    sampleIndex s = 0 /\
    WavLoader.numSamples (_file s) = nbytes payload / sz /\
    _introBufSize s = Z.min (nbytes payload) (2 * BlockSize - 44) / sz.
Proof using Hsz Hdiv Hfit.
  intros Hintro Hring Hba Hbits.
  assert (Hn0 : 0 <= nbytes payload) by (unfold nbytes; lia).
  unfold load. cbn [construct _file set_file set_introBufSize].
  rewrite WavLoaderFacts.open_SimpleWavHeader by (try rewrite Hba; lia).
  cbn [obind]. rewrite Hba.
  set (content := SimpleWavHeader fm (nbytes payload) ++ payload).
  set (w := WavLoader.mk (format_bytes fm) wrapper_ptr 0 (nbytes payload / sz)
                         44 (44 + nbytes payload)).
  assert (Hwbits : WavLoader.bitsPerSample w = sz * 8).
  { unfold WavLoader.bitsPerSample, w. cbn [WavLoader._format].
    change (sub 14 2 (format_bytes fm)) with (le_encode 2 (bits_per_sample fm)).
    rewrite le_decode_encode. exact Hbits. }
  assert (Hwfa : WavLoader.frameAlignment w = sz).
  { unfold WavLoader.frameAlignment, w. cbn [WavLoader._format].
    change (sub 12 2 (format_bytes fm)) with (le_encode 2 (block_align fm)).
    rewrite le_decode_encode. exact Hba. }
  rewrite Hwbits, Z.eqb_refl. cbn [negb].
  unfold loadIntroBuffer. cbn [_file set_file].
  rewrite WavLoaderFacts.seek_spec by reflexivity. cbn [obind].
  assert (Hq : 0 <= nbytes payload / sz) by (apply Z.div_pos; lia).
  assert (Hpos0 : forall w', WavLoader._data_offset w' = 44 ->
                             WavLoader.numSamples w' = nbytes payload / sz ->
                             WavLoader.filePositionForSample w' 0 = 44).
  { intros w' Ho Hc. unfold WavLoader.filePositionForSample.
    rewrite WavLoaderFacts.MIN_spec, Ho, Hc, Z.min_l by lia. reflexivity. }
  rewrite !Hpos0 by reflexivity.
  change (fw_seek 44 (MemFile.mk content 44 true))
    with (true, MemFile.mk content 44 true).
  cbn [fst snd].
  assert (Hlead : introBufBytes sz 44 = 8148) by reflexivity.
  rewrite Hlead. change (u32 8148) with 8148.
  unfold WavLoader.read. cbn [WavLoader._file WavLoader.set_position w is_null].
  change (fw_read 8148 (MemFile.mk content 44 true))
    with (sub (Z.to_nat 44) (Z.to_nat 8148) content,
          MemFile.mk content (44 + nbytes (sub (Z.to_nat 44) (Z.to_nat 8148) content)) true).
  cbv iota.
  assert (Hdata : sub (Z.to_nat 44) (Z.to_nat 8148) content = take (Z.to_nat 8148) payload).
  { unfold sub, content.
    rewrite (drop_app_length' (SimpleWavHeader fm (nbytes payload)) payload
               (Z.to_nat 44)) by reflexivity.
    reflexivity. }
  rewrite Hdata. set (data := take (Z.to_nat 8148) payload).
  assert (Hlen : nbytes data = Z.min (nbytes payload) 8148).
  { unfold data, nbytes. rewrite length_take. lia. }
  cbn [obind]. rewrite (u32_small (nbytes data)) by lia.
  assert (Hsync : forall ibs lead,
             ibs = nbytes data / sz \/ (ibs = 0 /\ nbytes data = 0) ->
             (forall k, 0 <= k < ibs * sz -> byte_at lead k = byte_at payload k) ->
             in_sync sz payload
               (mk (IntroBuf 0) 0 (WavLoader.set_position 44 w) ibs lead
                   (_ringBuf s0) (replicate NumBlocks UnmappedBlock))
               (MemFile.mk content (44 + nbytes data) true)).
  { intros ibs lead Hibs Hleadin.
    assert (Hdq : 0 <= nbytes data / sz <= nbytes payload / sz).
    { split; [apply Z.div_pos; lia|]. apply Z.div_le_mono; lia. }
    assert (Hibr : 0 <= ibs <= nbytes payload / sz) by lia.
    pose proof (Z.mul_div_le (nbytes payload) sz ltac:(lia)) as Hmd.
    assert (Hqle : nbytes payload / sz <= nbytes payload) by nia.
    constructor; cbn; auto.
    - constructor; [constructor| | |]; cbn; auto; try lia.
      intros [|[|[|j]]] Hj; cbn;
        unfold UnmappedBlock, NumBlocks, INT_MAX in *; lia.
    - lia.
    - intros [|[|[|j]]] k Hj Hk Hocc; cbn in Hocc;
        unfold NumBlocks in *; try lia; contradiction. }
  destruct (Z.gtb_spec (nbytes data) 0) as [Hgot|Hnone]; cbn [obind].
  - eexists. eexists. split; [reflexivity|]. split.
    + apply Hsync; [left; reflexivity|].
      intros k Hk.
      cbn [_introBuf _introBufSize set_sampleIdx set_readHead set_introBufSize
           set_introBuf set_file construct] in Hk |- *.
      pose proof (Z.mul_div_le (nbytes data) sz ltac:(lia)) as Hmd.
      unfold BlockSize in Hintro.
      rewrite memcpy_into_byte_at by lia.
      rewrite decide_True by lia. rewrite Z.sub_0_r.
      unfold byte_at, data. apply lookup_take_lt. unfold nbytes in *. lia.
    + cbn. unfold BlockSize. split; [reflexivity|]. split; [reflexivity|].
      rewrite Hlen. reflexivity.
  - eexists. eexists. split; [reflexivity|]. split.
    + apply Hsync; [right; split; [reflexivity | lia]|].
      intros k Hk. cbn in Hk. lia.
    + cbn. unfold BlockSize. split; [reflexivity|]. split; [reflexivity|].
      replace (Z.min (nbytes payload) (2 * 4096 - 44)) with 0 by lia.
      reflexivity.
Qed.

(** X21.  The cache is coherent with the file.  Load a mono container of
    samples of [sz] bytes from memory, then make any calls of [prime],
    [read], [setSampleIndex] and [reset]: each of them answers, and a [read]
    that stays inside the data chunk delivers, for the count it returns, the
    bytes of the payload from the sample at the cursor on; it never hands
    out a stale or misplaced block.  ([set_sample_index] is not among the
    calls: a call of it has no defined behaviour.) *)
Theorem read_delivers_samples_of_file
        fuel (s0 : t) (fm : WavFormat) (calls : list call) (n : Z) :
  nbytes (_introBuf s0) = BlockSize * 2 ->
  nbytes (_ringBuf s0) = BlockSize * 3 ->
  block_align fm mod 2 ^ 16 = sz ->
  bits_per_sample fm mod 2 ^ 16 = sz * 8 ->
  0 <= n < 2 ^ 31 ->
  exists s f s' f',
    load sz (S (S fuel)) (construct s0) wrapper_ptr
      (MemFile.of_bytes (SimpleWavHeader fm (nbytes payload) ++ payload))
    = Ok (NoErr, s, f) /\
    run sz calls s f = Ok (s', f') /\
    (sampleIndex s' + n <= nbytes payload / sz ->
     (read sz s' n).1.2
     = sub (Z.to_nat (sampleIndex s' * sz))
           (Z.to_nat ((read sz s' n).1.1 * sz)) payload).
Proof using Hsz Hdiv Hfit.
  intros Hintro Hring Hba Hbits Hn.
  destruct (load_in_sync fuel s0 fm Hintro Hring Hba Hbits)
    as (s & f & Hload & Hs & _).
  destruct (run_in_sync calls s f Hs) as (s' & f' & Hrun & Hs').
  exists s, f, s', f'. split; [exact Hload|]. split; [exact Hrun|].
  intros Hend. apply (read_bytes s' f'); auto.
  rewrite (sync_count _ _ _ _ Hs'). exact Hend.
Qed.

(** X22.  The first [read] after [load] needs no call of [prime]: a request
    that lies within the first 8148 bytes of the data chunk is delivered in
    full, and what is delivered is the head of the payload. *)
Theorem load_then_read_gives_head_of_payload
        fuel (s0 : t) (fm : WavFormat) (n : Z) :
  nbytes (_introBuf s0) = BlockSize * 2 ->
  nbytes (_ringBuf s0) = BlockSize * 3 ->
  block_align fm mod 2 ^ 16 = sz ->
  bits_per_sample fm mod 2 ^ 16 = sz * 8 ->
  0 < n -> n * sz <= nbytes payload -> n * sz <= 2 * BlockSize - 44 ->
  exists s f,
    load sz (S (S fuel)) (construct s0) wrapper_ptr
      (MemFile.of_bytes (SimpleWavHeader fm (nbytes payload) ++ payload))
    = Ok (NoErr, s, f) /\
    (read sz s n).1 = (n, take (Z.to_nat (n * sz)) payload).
Proof using Hsz Hdiv Hfit.
  intros Hintro Hring Hba Hbits Hn Hdata Hlead.
  destruct (load_in_sync fuel s0 fm Hintro Hring Hba Hbits)
    as (s & f & Hload & Hs & Hidx & Hcount & Hibs).
  exists s, f. split; [exact Hload|].
  unfold sampleIndex, BlockSize in *.
  assert (Hfits : n <= _introBufSize s).
  { rewrite Hibs. apply Z.div_le_lower_bound; lia. }
  pose proof (sync_lead_count _ _ _ _ Hs) as Hlc.
  pose proof (read_bytes s f n Hs ltac:(nia) ltac:(unfold sampleIndex; lia))
    as Hout.
  pose proof (read_lead_in sz s n ltac:(lia) ltac:(nia) ltac:(lia)) as Hread.
  rewrite Hread in Hout |- *. cbn [fst snd] in Hout |- *.
  f_equal. rewrite Hout. unfold sampleIndex. rewrite Hidx, Z.mul_0_l.
  reflexivity.
Qed.

End Sync.

Lemma read_delivers_samples_of_file_witness :
  exists s f s' f',
    load 1 2 blank_stream wrapper_ptr (MemFile.of_bytes (mono8 8158))
    = Ok (NoErr, s, f) /\
    run 1 [Prime; Read 100; SetSampleIndex 8150; Prime; Read 4] s f
    = Ok (s', f') /\
    (sampleIndex s' + 4 <= 8158 ->
     (read 1 s' 4).1.2
     = sub (Z.to_nat (sampleIndex s' * 1)) (Z.to_nat ((read 1 s' 4).1.1 * 1))
           (replicate (Z.to_nat 8158) "001"%byte)).
Proof.
  apply (read_delivers_samples_of_file 1 ltac:(lia) ltac:(reflexivity)
           (replicate (Z.to_nat 8158) "001"%byte)
           ltac:(vm_compute; reflexivity)
           0 blank_stream (pcm 1 8000 1)
           [Prime; Read 100; SetSampleIndex 8150; Prime; Read 4] 4);
    vm_compute; try split; congruence.
Defined.

Lemma load_then_read_gives_head_of_payload_witness :
  exists s f,
    load 2 2 blank_stream wrapper_ptr (MemFile.of_bytes (mono16 100))
    = Ok (NoErr, s, f) /\
    (read 2 s 64).1 = (64, take (Z.to_nat (64 * 2)) (replicate (Z.to_nat 200) "001"%byte)).
Proof.
  apply (load_then_read_gives_head_of_payload 2 ltac:(lia) ltac:(reflexivity)
           (replicate (Z.to_nat 200) "001"%byte)
           ltac:(vm_compute; reflexivity)
           0 blank_stream (pcm 1 8000 2) 64);
    vm_compute; try split; congruence.
Defined.

End AudioSamplerStreamMore.
